(** * hoomd.dump.getar: property resolution and registration

    A shallow embedding of the Python class [getar] of [hoomd/dump.py]
    (the dump scheduler that sits in front of the C++ archive writer) and
    the properties of it that the specification states. *)

From Equations Require Import Equations.
From Stdlib Require Import List String Ascii ZArith DecimalString Bool Arith Lia.
From Stdlib Require Import QArith.
Local Close Scope Q_scope.
Import ListNotations.
Local Open Scope string_scope.
Local Open Scope list_scope.

(** ** Python dictionaries

    A [dict] keeps its keys in insertion order; assigning to a key that is
    already present replaces the value and leaves the key where it was. *)

Section Dict.
Context {K V : Type}.
Variable eqb : K -> K -> bool.

Fixpoint dict_get (d : list (K * V)) (k : K) : option V :=
  match d with
  | [] => None
  | (k', v) :: d' => if eqb k k' then Some v else dict_get d' k
  end.

Definition dict_mem (d : list (K * V)) (k : K) : bool :=
  match dict_get d k with Some _ => true | None => false end.

Fixpoint dict_set (d : list (K * V)) (k : K) (v : V) : list (K * V) :=
  match d with
  | [] => [(k, v)]
  | (k', v') :: d' =>
      if eqb k k' then (k', v) :: d' else (k', v') :: dict_set d' k v
  end.

(** The keys after an assignment: [k] keeps its place or goes last. *)
Fixpoint keys_set (ks : list K) (k : K) : list K :=
  match ks with
  | [] => [k]
  | k' :: ks' => if eqb k k' then k' :: ks' else k' :: keys_set ks' k
  end.
End Dict.

(** ** Enumerations of the [_hoomd] extension module

    Only the member names that [dump.py] mentions are needed. *)

Inductive GetarCompression := NoCompress | FastCompress | MediumCompress | SlowCompress.
Inductive GetarDumpMode := Overwrite | Append | OneShot.
Inductive GetarResolution := Text | Individual | Uniform.
Inductive GetarBehavior := Constant | Discrete.
Inductive GetarProperty :=
| AngleNames | AngleTags | AngleTypes | AngularMomentum | Body
| BondNames | BondTags | BondTypes | Box | Charge | Diameter
| DihedralNames | DihedralTags | DihedralTypes | Dimensions | Image
| ImproperNames | ImproperTags | ImproperTypes | Mass | MomentInertia
| Orientation | Position | PotentialEnergy | Type_ | TypeNames
| Velocity | Virial.

Definition GetarCompression_eqb (a b : GetarCompression) : bool :=
  match a, b with
  | NoCompress, NoCompress | FastCompress, FastCompress
  | MediumCompress, MediumCompress | SlowCompress, SlowCompress => true
  | _, _ => false
  end.

Definition GetarDumpMode_eqb (a b : GetarDumpMode) : bool :=
  match a, b with
  | Overwrite, Overwrite | Append, Append | OneShot, OneShot => true
  | _, _ => false
  end.

(** ** [getar.DumpProp]

    The namedtuple [(name, highPrecision, compression)]; its constructor
    defaults are [highPrecision=False] and [compression=FastCompress]. *)

Record DumpProp := mkDumpProp {
  name : string;
  highPrecision : bool;
  compression : GetarCompression
}.

Definition DumpProp_new (n : string) : DumpProp := mkDumpProp n false FastCompress.

Definition DumpProp_eqb (p q : DumpProp) : bool :=
  String.eqb (name p) (name q)
  && Bool.eqb (highPrecision p) (highPrecision q)
  && GetarCompression_eqb (compression p) (compression q).

(** A property specification is a name or a [DumpProp]. *)
Inductive propspec :=
| PName (s : string)
| PDump (p : DumpProp).

Definition propspec_eqb (a b : propspec) : bool :=
  match a, b with
  | PName s, PName t => String.eqb s t
  | PDump p, PDump q => DumpProp_eqb p q
  | _, _ => false
  end.

(** ** Class attributes of [getar] *)

Definition dump_modes : list (string * GetarDumpMode) :=
  [("w", Overwrite); ("a", Append); ("1", OneShot)].

Definition substitutions : list (string * list string) :=
  [("all", ["particle_all"; "angle_all"; "bond_all";
            "dihedral_all"; "improper_all"; "global_all"]);
   ("particle_all",
      ["angular_momentum"; "body"; "charge"; "diameter"; "image"; "mass";
       "moment_inertia"; "orientation"; "position"; "type"; "type_names";
       "velocity"]);
   ("angle_all", ["angle_type_names"; "angle_tag"; "angle_type"]);
   ("bond_all", ["bond_type_names"; "bond_tag"; "bond_type"]);
   ("dihedral_all", ["dihedral_type_names"; "dihedral_tag"; "dihedral_type"]);
   ("improper_all", ["improper_type_names"; "improper_tag"; "improper_type"]);
   ("global_all", ["box"; "dimensions"]);
   ("viz_dynamic", ["position"; "box"]);
   ("viz_static", ["type"; "type_names"; "dimensions"]);
   ("viz_all", ["viz_static"; "viz_dynamic"]);
   ("viz_aniso_dynamic", ["viz_dynamic"; "orientation"]);
   ("viz_aniso_all", ["viz_static"; "viz_aniso_dynamic"])].

Definition known_properties : list (string * GetarProperty) :=
  [("angle_type_names", AngleNames); ("angle_tag", AngleTags);
   ("angle_type", AngleTypes); ("angular_momentum", AngularMomentum);
   ("body", Body); ("bond_type_names", BondNames); ("bond_tag", BondTags);
   ("bond_type", BondTypes); ("box", Box); ("charge", Charge);
   ("diameter", Diameter); ("dihedral_type_names", DihedralNames);
   ("dihedral_tag", DihedralTags); ("dihedral_type", DihedralTypes);
   ("dimensions", Dimensions); ("image", Image);
   ("improper_type_names", ImproperNames); ("improper_tag", ImproperTags);
   ("improper_type", ImproperTypes); ("mass", Mass);
   ("moment_inertia", MomentInertia); ("orientation", Orientation);
   ("position", Position); ("potential_energy", PotentialEnergy);
   ("type", Type_); ("type_names", TypeNames); ("velocity", Velocity);
   ("virial", Virial)].

Definition known_resolutions : list (string * GetarResolution) :=
  [("angle_type_names", Text); ("angle_tag", Individual);
   ("angle_type", Individual); ("angular_momentum", Individual);
   ("body", Individual); ("bond_type_names", Text); ("bond_tag", Individual);
   ("bond_type", Individual); ("box", Uniform); ("charge", Individual);
   ("diameter", Individual); ("dihedral_type_names", Text);
   ("dihedral_tag", Individual); ("dihedral_type", Individual);
   ("dimensions", Uniform); ("image", Individual);
   ("improper_type_names", Text); ("improper_tag", Individual);
   ("improper_type", Individual); ("mass", Individual);
   ("moment_inertia", Individual); ("orientation", Individual);
   ("position", Individual); ("potential_energy", Individual);
   ("type", Individual); ("type_names", Text); ("velocity", Individual);
   ("virial", Individual)].

Definition bad_mpi_properties : list string := ["potential_energy"; "virial"].

(** [x in l] for a list of strings. *)
Definition str_in (x : string) (l : list string) : bool :=
  existsb (String.eqb x) l.

(** ** [getar._getStatic] *)

Definition _getStatic (val : propspec) : DumpProp :=
  match val with
  | PName s => DumpProp_new s
  | PDump p => p
  end.

(** ** [getar._expandNames]

    The method calls itself on the children of a composite name.  The
    recursion ends because every child of a composite lies strictly lower
    in the substitution table; [weight] counts the nodes of the expansion
    tree below a name and is the termination measure. *)

Fixpoint weight_upto (depth : nat) (n : string) : nat :=
  match depth with
  | O => 1
  | S d =>
      match dict_get String.eqb substitutions n with
      | Some children => S (list_sum (map (weight_upto d) children))
      | None => 1
      end
  end.

Definition weight (n : string) : nat := weight_upto 4 n.

Definition weights (vals : list propspec) : nat :=
  list_sum (map (fun v => weight (name (_getStatic v))) vals).

(** The list comprehension that builds [subs]. *)
Definition subs_of (val : DumpProp) (children : list string) : list propspec :=
  map (fun n => PDump (mkDumpProp n (highPrecision val) (compression val)))
      children.

(** Keeps the equation of a lookup in scope for the termination proof. *)
Definition inspect {A} (a : A) : {b : A | a = b} := exist _ a eq_refl.

Equations? _expandNames (vals : list propspec) : list DumpProp
  by wf (weights vals) lt :=
  _expandNames [] := [];
  _expandNames (v :: rest)
    with inspect (dict_get String.eqb substitutions (name (_getStatic v))) := {
    | exist _ (Some children) _ =>
        _expandNames (subs_of (_getStatic v) children) ++ _expandNames rest
    | exist _ None _ => _getStatic v :: _expandNames rest }.
Proof.
  - (* the children of a composite weigh less than the composite *)
    assert (Hget : forall (table : list (string * list string)) n c,
               dict_get String.eqb table n = Some c -> In (n, c) table).
    { induction table as [|[k c'] table IH]; intros n c; simpl;
        [discriminate|].
      destruct (String.eqb_spec n k) as [->|_].
      - intros [= ->]. now left.
      - intros H. right. now apply IH. }
    pose proof (Hget substitutions _ _ e) as Hin.
    assert (Hall : forallb (fun e => Nat.ltb (list_sum (map weight (snd e)))
                                             (weight (fst e)))
                           substitutions = true) by (vm_compute; reflexivity).
    rewrite forallb_forall in Hall. apply Hall, Nat.ltb_lt in Hin.
    simpl fst in Hin; simpl snd in Hin.
    unfold weights at 1. unfold subs_of. rewrite map_map.
    change (list_sum (map weight children)
            < weight (name (_getStatic v)) + weights rest).
    lia.
  - (* every name weighs at least one *)
    change (weights rest < weight (name (_getStatic v)) + weights rest).
    assert (0 < weight (name (_getStatic v))); [|lia].
    unfold weight. cbn [weight_upto].
    destruct (dict_get String.eqb substitutions (name (_getStatic v))); lia.
  - change (weights rest < weight (name (_getStatic v)) + weights rest).
    assert (0 < weight (name (_getStatic v))); [|lia].
    unfold weight. cbn [weight_upto].
    destruct (dict_get String.eqb substitutions (name (_getStatic v))); lia.
Qed.

(** ** Exceptions, external calls and the monad of a method body *)

(** The exceptions a [getar] method can end with.  The first four are the
    [RuntimeError]s that [__init__] raises itself, told apart by their
    message; the others are raised by the interpreter or by [json]. *)
Inductive exn :=
| UnknownStaticProperty (val : DumpProp)
    (* RuntimeError('Unknown static property in dump.getar: {}') *)
| UnknownDynamicProperty (val : DumpProp)
    (* RuntimeError('Unknown dynamic property in dump.getar: {}') *)
| UnknownOpenMode (mode : string)
    (* RuntimeError('Unknown open mode: {}') *)
| CantDumpWithMPI (prop_name : string)
    (* RuntimeError('dump.getar: Can't dump property {} with MPI!') *)
| UnboundLocalError (var : string)
| KeyError (key : string)
| TypeError (msg : string)
| ValueError (msg : string)
| RecursionError.

(** Modelled from the spec: the C++ writer [_hoomd.GetarDumpWriter] and the
    base class [hoomd.analyze._analyzer] are not among the sources.  By the
    external interface of the specification each of their operations takes
    its arguments and gives back nothing that [__init__] branches on, so a
    call is modelled as an entry of a log, in the order the calls are made. *)
Inductive event :=
| analyzer_init
    (* hoomd.analyze._analyzer.__init__(self) *)
| GetarDumpWriter (filename : string) (dumpMode : GetarDumpMode) (timestep : Z)
    (* opening the archive *)
| setPeriod (prop : GetarProperty) (res : GetarResolution)
            (behavior : GetarBehavior) (hp : bool)
            (comp : GetarCompression) (period : Z)
| getPeriod
| setupAnalyzer
| writeStr (record contents : string) (timestep : Z)
| analyze (timestep : Z)
| close.

(** A method body: the calls it made, and an exception or a value. *)
Definition M (A : Type) : Type := (list event * (exn + A))%type.

Definition ret {A} (a : A) : M A := ([], inr a).
Definition raise {A} (e : exn) : M A := ([], inl e).
Definition call (ev : event) : M unit := ([ev], inr tt).

Definition bind {A B} (m : M A) (k : A -> M B) : M B :=
  match m with
  | (log, inl e) => (log, inl e)
  | (log, inr a) => (log ++ fst (k a), snd (k a))
  end.

Declare Scope py_scope.
Delimit Scope py_scope with py.
Notation "x <- m ;; k" := (bind m (fun x => k))
  (at level 61, m at next level, right associativity) : py_scope.
Notation "m ;; k" := (bind m (fun _ => k))
  (at level 61, right associativity) : py_scope.
Local Open Scope py_scope.

(** [for a in l: body(a)] *)
Fixpoint for_each {A} (l : list A) (body : A -> M unit) : M unit :=
  match l with
  | [] => ret tt
  | a :: l' => body a ;; for_each l' body
  end.

(** [when c: body] *)
Definition when (c : bool) (body : M unit) : M unit :=
  if c then body else ret tt.

(** [d[k]] on a dictionary with string keys. *)
Definition getitem {V} (d : list (string * V)) (k : string) : M V :=
  match dict_get String.eqb d k with
  | Some v => ret v
  | None => raise (KeyError k)
  end.

Definition calls {A} (m : M A) : list event := fst m.
Definition outcome {A} (m : M A) : exn + A := snd m.


(** ** The simulation context

    What [__init__] reads from [hoomd.context.current], from [os.path] and
    from the interpreter. *)
Record context := {
  num_ranks : Z;                     (* device.comm.num_ranks *)
  getCurrentTimeStep : Z;            (* system.getCurrentTimeStep() *)
  isfile : string -> bool;           (* os.path.isfile *)
  set_iter : list DumpProp -> list DumpProp
    (* the order in which [set(l)] is iterated *)
}.

(** What Python guarantees of iterating [set(l)]: every element of [l]
    once.  The order is the interpreter's. *)
Definition set_semantics (it : list DumpProp -> list DumpProp) : Prop :=
  forall l, NoDup (it l) /\ forall p, In p (it l) <-> In p l.

(** One possible order: first occurrences, left to right. *)
Fixpoint first_seen (l : list DumpProp) : list DumpProp :=
  match l with
  | [] => []
  | p :: l' =>
      p :: filter (fun q => negb (DumpProp_eqb q p)) (first_seen l')
  end.

(** ** [getar.__init__] *)

(** The value a caller gives for a dynamic property: one period or a
    sequence of periods. *)
Inductive period_value :=
| PInt (z : Z)
| PSeq (zs : list Z).

Record getar := {
  _static : list DumpProp;
  _dynamic : list (DumpProp * period_value)
}.

(** Lines 266-271.  The loop variable [prop] stays bound after the loops:
    the second component is its value, [None] while it was never bound. *)
Definition dynamic_loop (dynamic : list (propspec * period_value))
  : list (DumpProp * period_value) * option DumpProp :=
  fold_left
    (fun st item =>
       fold_left
         (fun st' prop => (dict_set DumpProp_eqb (fst st') prop (snd item), Some prop))
         (_expandNames [fst item]) st)
    dynamic ([], None).

Definition known (n : string) : bool := dict_mem String.eqb known_properties n.

(** Lines 277-279: the test reads [prop], not [val]. *)
Definition check_static (prop : option DumpProp) (val : DumpProp) : M unit :=
  match prop with
  | None => raise (UnboundLocalError "prop")
  | Some p =>
      if negb (known (name p)) then raise (UnknownStaticProperty val) else ret tt
  end.

(** Lines 281-283. *)
Definition check_dynamic (val : DumpProp) : M unit :=
  if negb (known (name val)) then raise (UnknownDynamicProperty val) else ret tt.

(** Lines 285-291. *)
Definition resolve_mode (ctx : context) (filename mode : string) : M GetarDumpMode :=
  match dict_get String.eqb dump_modes mode with
  | None => raise (UnknownOpenMode mode)
  | Some dumpMode =>
      if GetarDumpMode_eqb dumpMode Append && negb (isfile ctx filename)
      then ret Overwrite
      else ret dumpMode
  end.

Definition rank_unsafe (ctx : context) (prop : DumpProp) : bool :=
  (1 <? num_ranks ctx)%Z && str_in (name prop) bad_mpi_properties.

Definition register (prop : DumpProp) (behavior : GetarBehavior) (period : Z) : M unit :=
  p <- getitem known_properties (name prop) ;;
  r <- getitem known_resolutions (name prop) ;;
  call (setPeriod p r behavior (highPrecision prop) (compression prop) period).

(** Lines 297-306, the body of the loop over [set(self._static)]. *)
Definition register_static (ctx : context) (val : DumpProp) : M unit :=
  let prop := _getStatic (PDump val) in
  if rank_unsafe ctx prop then raise (CantDumpWithMPI (name prop))
  else register prop Constant 0.

(** Lines 308-329, the body of the loop over [self._dynamic]; [item] is a
    key with the value [self._dynamic[prop]].  Iterating an integer raises
    the [TypeError] that the handler catches; [int] of an integer is the
    integer. *)
Definition register_dynamic (ctx : context) (item : DumpProp * period_value) : M unit :=
  let prop := fst item in
  if rank_unsafe ctx prop then raise (CantDumpWithMPI (name prop))
  else
    match snd item with
    | PSeq zs => for_each zs (fun period => register prop Discrete period)
    | PInt z =>
        if rank_unsafe ctx prop then raise (CantDumpWithMPI (name prop))
        else register prop Discrete z
    end.

(** Lines 277-283: both validation loops. *)
Definition validate (self_static : list DumpProp)
    (self_dynamic : list (DumpProp * period_value))
    (prop : option DumpProp) : M unit :=
  for_each self_static (check_static prop) ;;
  for_each (map fst self_dynamic) check_dynamic.

(** Lines 285-295: the mode, then the writer is constructed. *)
Definition open_archive (ctx : context) (filename mode : string) : M unit :=
  dumpMode <- resolve_mode ctx filename mode ;;
  call (GetarDumpWriter filename dumpMode (getCurrentTimeStep ctx)).

(** Lines 297-329: both registration loops. *)
Definition register_all (ctx : context) (self_static : list DumpProp)
    (self_dynamic : list (DumpProp * period_value)) : M unit :=
  for_each (set_iter ctx self_static) (register_static ctx) ;;
  for_each self_dynamic (register_dynamic ctx).

Definition getar_init (ctx : context) (filename mode : string)
    (static : list propspec) (dynamic : list (propspec * period_value))
    (_register : bool) : M getar :=
  let self_static := _expandNames static in
  let self_dynamic := fst (dynamic_loop dynamic) in
  let prop := snd (dynamic_loop dynamic) in
  when _register (call analyzer_init) ;;
  validate self_static self_dynamic prop ;;
  open_archive ctx filename mode ;;
  register_all ctx self_static self_dynamic ;;
  when _register (call getPeriod ;; call setupAnalyzer) ;;
  ret {| _static := self_static; _dynamic := self_dynamic |}.

(** [getar.simple] *)
Definition simple (ctx : context) (filename : string) (period : period_value)
    (mode : string) (static : list propspec) (dynamic : list string)
    (high_precision : bool) : M getar :=
  let dynamicDict :=
    fold_left
      (fun d n => dict_set propspec_eqb d
                    (PDump (mkDumpProp n high_precision FastCompress)) period)
      dynamic [] in
  getar_init ctx filename mode static dynamicDict true.

(** [getar.close] *)
Definition getar_close : M unit := call close.

(** [getar.immediate] *)
Definition immediate (ctx : context) (filename : string)
    (static dynamic : list propspec) : M unit :=
  let dynamicDict :=
    fold_left (fun d key => dict_set propspec_eqb d key (PInt 1)) dynamic [] in
  getar_init ctx filename "w" static dynamicDict false ;;
  call (analyze (getCurrentTimeStep ctx)) ;;
  getar_close.

(** ** [getar.writeJSON] *)

(** The payload of [writeJSON] is a Python 3 value.  A [str] is the
    sequence of its code points.  A float is given by its class and, when
    finite, by its [repr].  Lists, tuples and dicts are objects with an
    identity: they live in a heap and a value refers to them by address,
    so that a container can hold itself, directly or through others.  An
    address outside the heap stands for an empty list.  [VOther] is a value
    of a type [json] has no encoder for (a set, a bytes object, an instance
    of a class), given by the name of its type; [KOther] is a dictionary
    key that is no [str], [int], [float], [bool] or [None] (a tuple, a
    bytes object). *)
Definition pystr : Type := list N.

Inductive pyfloat :=
| Finite (repr : string)
| NaN
| Infinity
| NegInfinity.

Inductive pyvalue :=
| VNone
| VBool (b : bool)
| VInt (z : Z)
| VFloat (f : pyfloat)
| VStr (s : pystr)
| VRef (a : nat)
| VOther (type_name : string).

Inductive pykey :=
| KStr (s : pystr)
| KInt (z : Z)
| KFloat (f : pyfloat)
| KBool (b : bool)
| KNone
| KOther (type_name : string).

Inductive pyobject :=
| OList (items : list pyvalue)            (* a list or a tuple *)
| ODict (items : list (pykey * pyvalue)). (* a dict, in insertion order *)

Definition heap : Type := list pyobject.





















(** ** Contexts for the examples

    [ranks] participating ranks, at time step [step], with a file at the
    target path or not; sets are iterated in first-seen order. *)
Definition example_context (ranks step : Z) (file_exists : bool) : context :=
  {| num_ranks := ranks; getCurrentTimeStep := step;
     isfile := fun _ => file_exists; set_iter := first_seen |}.

(** ** Auxiliary notions of the statements *)

(** One assignment [self._dynamic[prop] = period] of line 271, on the
    dictionary and the loop variable. *)
Definition assign (st : list (DumpProp * period_value) * option DumpProp)
    (a : DumpProp * period_value) :=
  (dict_set DumpProp_eqb (fst st) (fst a) (snd a), Some (fst a)).

(** The mode the archive is opened with (lines 290-291). *)
Definition effective_mode (ctx : context) (filename : string)
    (dumpMode : GetarDumpMode) : GetarDumpMode :=
  if GetarDumpMode_eqb dumpMode Append && negb (isfile ctx filename)
  then Overwrite else dumpMode.

(** Every name of a list of properties is in the catalog. *)
Definition all_known (props : list DumpProp) : bool :=
  forallb (fun p => known (name p)) props.

(** ** Reading a log *)

(** The periods a dynamic value stands for. *)
Definition periods_of (v : period_value) : list Z :=
  match v with
  | PInt z => [z]
  | PSeq zs => zs
  end.

(** The [setPeriod] call that registers [prop], when the catalog has it. *)
Definition registration (prop : DumpProp) (behavior : GetarBehavior)
    (period : Z) : option event :=
  match dict_get String.eqb known_properties (name prop),
        dict_get String.eqb known_resolutions (name prop) with
  | Some p, Some r =>
      Some (setPeriod p r behavior (highPrecision prop) (compression prop) period)
  | _, _ => None
  end.

Definition is_discrete (ev : event) : bool :=
  match ev with
  | setPeriod _ _ Discrete _ _ _ => true
  | _ => false
  end.

Definition is_constant (ev : event) : bool :=
  match ev with
  | setPeriod _ _ Constant _ _ _ => true
  | _ => false
  end.

(** The properties that need a reduction over the ranks. *)
Definition is_rank_unsafe_id (p : GetarProperty) : bool :=
  match p with
  | PotentialEnergy | Virial => true
  | _ => false
  end.

(** The requests of a dynamic mapping, one per resolved property, in the
    order in which lines 268-271 assign them. *)
Definition assignments (dynamic : list (propspec * period_value))
  : list (DumpProp * period_value) :=
  flat_map (fun item => map (fun prop => (prop, snd item))
                            (_expandNames [fst item]))
           dynamic.

(** The names a construction resolves its requests to. *)
Definition resolved (static : list propspec)
    (dynamic : list (propspec * period_value)) : list DumpProp :=
  _expandNames static ++ map fst (assignments dynamic).

(** * [hoomd.init]

    The commands of [hoomd/init.py] that initialize the system.  Numbers
    that a caller gives as Python integers or finite floats (bond lengths,
    separation radii) are rationals: the code only compares them, takes
    their minimum and doubles them, which is exact.  [create_random] is
    left out: its box size is floating-point arithmetic ([math.pow]). *)

(** ** The session and the machine *)

Inductive decomposition_obj :=
| UserDecomposition      (* made by the script with [hoomd.comm.decomposition] *)
| DefaultDecomposition.  (* made by [_create_domain_decomposition] *)

(** The fields of [hoomd.context.current] that [init.py] assigns and reads
    back: the system (given by the time step it was created at), the system
    definition (given by whether it was built with a domain decomposition)
    and the decomposition. *)
Record session := {
  system : option Z;
  system_definition : option bool;
  decomposition : option decomposition_obj
}.

(** What [init.py] asks the extension module, the execution configuration,
    the file system and the files it reads. *)
Record machine := {
  is_MPI_available : bool;
  getNRanks : Z;
  isCUDAEnabled : bool;
  path_isfile : string -> bool;
  xml_getTimeStep : string -> Z;       (* initializer.getTimeStep() *)
  gsd_getTimeStep : string -> Z -> Z;  (* reader.getTimeStep() *)
  cpp_decomposition_made : bool;
    (* whether [_make_cpp_decomposition(box)] gives an object *)
  getDomainDecomposition : bool -> bool
    (* whether the particle data of a system definition built with, or
       without, a decomposition has one *)
}.

Inductive message :=
| CannotInitializeTwice   (* 'Cannot initialize more than once' *)
| CreateEmptyDeprecated
| BoxMustBeBoxdim
| PolymersEmpty
| SeparationEmpty
| MissingBondLen
| MissingType
| MissingCount
| MissingBond
| CustomBondArity         (* 'Custom bond ... must have either two or three elements' *)
| UnexpectedBond
| NoSeparationFor (t : string)
| SeparationTooBig (r min_bond_len : Q).

Inductive type_data := ParticleData | BondData | AngleData | DihedralData | ImproperData.

(** The calls [init.py] makes to the engine and to the rest of the
    package, in the order they are made.  They are code outside
    [init.py]; each is taken to return. *)
Inductive init_call :=
| print_status_line
| msg_error (m : message)
| msg_warning (m : message)
| _verify_init
| HOOMDInitializer (filename : string) (wrap_coordinates : bool)
| GSDReader (filename : string) (frame : Z)
| getSnapshot
| _broadcast
| SystemDefinition_N (N : Z) (n_particle n_bond n_angle n_dihedral n_improper : nat)
                     (decomposed : bool)
| SystemDefinition_snapshot (decomposed : bool)
| setNDimensions (dimensions : Z)
| setTypeName (data : type_data) (i : nat) (type_name : string)
| System_ (time_step : Z)
| system_data
| RandomGenerator (seed dimensions : Z)
| addGenerator (repeat_count : Z) (bond_length : Q) (types : list string)
               (bond_a bond_b : list nat) (bond_name : list string)
               (dimensions : Z)
| setSeparationRadius (type_name : string) (radius : Q)
| generate
| update_sort
| quiet_status
| unquiet_status
| group_all
| _get_unique_thermo
| comm_decomposition
| _make_cpp_decomposition
| Communicator
| CommunicatorGPU
| setCommunicator.

Inductive init_exn :=
| InitRuntimeError (msg : string)
| InitTypeError (msg : string)
| InitAttributeError (msg : string).

(** A command: from the session, the calls made, an exception or a value,
    and the session it leaves. *)
Definition Cmd (A : Type) : Type :=
  session -> (list init_call * (init_exn + A) * session)%type.

Definition iret {A} (a : A) : Cmd A := fun s => ([], inr a, s).
Definition iraise {A} (e : init_exn) : Cmd A := fun s => ([], inl e, s).
Definition icall (c : init_call) : Cmd unit := fun s => ([c], inr tt, s).
Definition iget : Cmd session := fun s => ([], inr s, s).
Definition iput (s' : session) : Cmd unit := fun _ => ([], inr tt, s').

Definition ibind {A B} (m : Cmd A) (k : A -> Cmd B) : Cmd B :=
  fun s =>
    match m s with
    | (log, inl e, s') => (log, inl e, s')
    | (log, inr a, s') =>
        match k a s' with
        | (log', r, s'') => (log ++ log', r, s'')
        end
    end.

Declare Scope init_scope.
Delimit Scope init_scope with init.
Notation "x <- m ;; k" := (ibind m (fun x => k))
  (at level 61, m at next level, right associativity) : init_scope.
Notation "m ;; k" := (ibind m (fun _ => k))
  (at level 61, right associativity) : init_scope.
Local Open Scope init_scope.

(** A loop that carries local variables. *)
Fixpoint ifold {A B} (body : B -> A -> Cmd B) (l : list A) (acc : B) : Cmd B :=
  match l with
  | [] => iret acc
  | a :: l' => acc' <- body acc a ;; ifold body l' acc'
  end.

(** ** The commands *)

Definition is_initialized : Cmd bool :=
  s <- iget ;;
  match system s with
  | None => iret false
  | Some _ => iret true
  end.

(** Whether a decomposition object is returned. *)
Definition _create_domain_decomposition (mc : machine) : Cmd bool :=
  if negb (is_MPI_available mc) then iret false
  else if (getNRanks mc =? 1)%Z then iret false
  else
    s <- iget ;;
    match decomposition s with
    | None =>
        icall quiet_status ;;
        icall comm_decomposition ;;
        iput {| system := system s;
                system_definition := system_definition s;
                decomposition := Some DefaultDecomposition |} ;;
        icall unquiet_status
    | Some _ => iret tt
    end ;;
    icall _make_cpp_decomposition ;;
    iret (cpp_decomposition_made mc).

Definition _perform_common_init_tasks (mc : machine) : Cmd unit :=
  icall update_sort ;;
  icall quiet_status ;;
  icall group_all ;;
  icall _get_unique_thermo ;;
  icall unquiet_status ;;
  if is_MPI_available mc then
    s <- iget ;;
    match system_definition s with
    | None => iraise (InitAttributeError "getParticleData")
    | Some decomposed =>
        if getDomainDecomposition mc decomposed then
          (if negb (isCUDAEnabled mc) then icall Communicator
           else icall CommunicatorGPU) ;;
          icall setCommunicator
        else iret tt
    end
  else iret tt.

(** The guard at the head of every command. *)
Definition check_not_initialized (msg : string) : Cmd unit :=
  b <- is_initialized ;;
  if b then icall (msg_error CannotInitializeTwice) ;; iraise (InitRuntimeError msg)
  else iret tt.

Definition set_system_definition (decomposed : bool) : Cmd unit :=
  s <- iget ;;
  iput {| system := system s;
          system_definition := Some decomposed;
          decomposition := decomposition s |}.

Definition set_system (time_step : Z) : Cmd unit :=
  s <- iget ;;
  iput {| system := Some time_step;
          system_definition := system_definition s;
          decomposition := decomposition s |}.

(** The end that [read_xml], [read_snapshot], [read_gsd] and
    [create_random_polymers] share: the decomposition, the system
    definition from the snapshot, the system, the common tasks. *)
Definition init_from_snapshot (mc : machine) (time_step : Z) : Cmd unit :=
  my_domain_decomposition <- _create_domain_decomposition mc ;;
  icall (SystemDefinition_snapshot my_domain_decomposition) ;;
  set_system_definition my_domain_decomposition ;;
  icall (System_ time_step) ;;
  set_system time_step ;;
  _perform_common_init_tasks mc ;;
  icall system_data.

(** An argument that should be a [hoomd.data.boxdim]. *)
Inductive box_arg :=
| Boxdim (dimensions : Z)
| NotBoxdim.

Definition enumerate {A} (l : list A) : list (nat * A) :=
  combine (seq 0 (List.length l)) l.

Definition set_type_names (data : type_data) (names : list string) : Cmd unit :=
  ifold (fun _ item => icall (setTypeName data (fst item) (snd item)))
        (enumerate names) tt.

Definition create_empty (mc : machine) (N : Z) (box : box_arg)
    (particle_types bond_types angle_types dihedral_types improper_types
       : list string) : Cmd unit :=
  icall print_status_line ;;
  check_not_initialized "Error initializing" ;;
  icall (msg_warning CreateEmptyDeprecated) ;;
  icall _verify_init ;;
  match box with
  | NotBoxdim =>
      icall (msg_error BoxMustBeBoxdim) ;;
      iraise (InitTypeError "box must be a data.boxdim object")
  | Boxdim dimensions =>
      my_domain_decomposition <- _create_domain_decomposition mc ;;
      icall (SystemDefinition_N N (List.length particle_types)
               (List.length bond_types) (List.length angle_types)
               (List.length dihedral_types) (List.length improper_types)
               my_domain_decomposition) ;;
      set_system_definition my_domain_decomposition ;;
      icall (setNDimensions dimensions) ;;
      set_type_names ParticleData particle_types ;;
      set_type_names BondData bond_types ;;
      set_type_names AngleData angle_types ;;
      set_type_names DihedralData dihedral_types ;;
      set_type_names ImproperData improper_types ;;
      icall (System_ 0) ;;
      set_system 0 ;;
      _perform_common_init_tasks mc ;;
      icall system_data
  end.

Definition read_xml (mc : machine) (filename : string) (restart : option string)
    (time_step : option Z) (wrap_coordinates : bool) : Cmd unit :=
  icall print_status_line ;;
  icall _verify_init ;;
  check_not_initialized "Error reading XML file" ;;
  let filename_to_read :=
    match restart with
    | Some r => if path_isfile mc r then r else filename
    | None => filename
    end in
  icall (HOOMDInitializer filename_to_read wrap_coordinates) ;;
  icall getSnapshot ;;
  my_domain_decomposition <- _create_domain_decomposition mc ;;
  icall (SystemDefinition_snapshot my_domain_decomposition) ;;
  set_system_definition my_domain_decomposition ;;
  let ts := match time_step with
            | None => xml_getTimeStep mc filename_to_read
            | Some t => t
            end in
  icall (System_ ts) ;;
  set_system ts ;;
  _perform_common_init_tasks mc ;;
  icall system_data.

Definition read_snapshot (mc : machine) : Cmd unit :=
  icall print_status_line ;;
  icall _verify_init ;;
  check_not_initialized "Error initializing" ;;
  icall _broadcast ;;
  init_from_snapshot mc 0.

(** The [restart] argument is not used by the body. *)
Definition read_gsd (mc : machine) (filename : string) (restart : option string)
    (frame : Z) (time_step : option Z) : Cmd unit :=
  icall print_status_line ;;
  icall _verify_init ;;
  check_not_initialized "Error initializing" ;;
  icall (GSDReader filename frame) ;;
  icall getSnapshot ;;
  let time_step := match time_step with
                   | None => gsd_getTimeStep mc filename frame
                   | Some t => t
                   end in
  icall _broadcast ;;
  init_from_snapshot mc time_step.

(** ** [create_random_polymers] *)

(** An element of a custom bond list: a tuple of two elements, of three, or
    of another length. *)
Inductive bond_tuple :=
| Bond2 (a b : nat)
| Bond3 (a b : nat) (bond_type : string)
| BondOther.

(** The value of [poly['bond']]: the string ['linear'], a list of tuples,
    or anything else. *)
Inductive bond_spec :=
| Linear
| Custom (bonds : list bond_tuple)
| OtherBond.

(** A polymer specification, a dictionary whose keys may be missing. *)
Record polymer := {
  poly_bond_len : option Q;
  poly_type : option (list string);
  poly_count : option Z;
  poly_bond : option bond_spec
}.

Definition polymers_error : init_exn :=
  InitRuntimeError "Error creating random polymers".

(** [min(a, b)]: the first argument unless the second is smaller. *)
Definition py_min (a b : Q) : Q := if Qle_bool a b then a else b.

Definition bond_vectors : Type := (list nat * list nat * list string)%type.

Definition append_bond (v : bond_vectors) (a b : nat) (bond_type : string)
  : bond_vectors :=
  (fst (fst v) ++ [a], snd (fst v) ++ [b], snd v ++ [bond_type]).

(** Lines 519-523. *)
Definition linear_bonds (types : list string) : bond_vectors :=
  fold_left (fun v i => append_bond v i (i + 1) "polymer")
            (seq 0 (List.length types - 1)) ([], [], []).

(** Lines 526-540. *)
Definition custom_bonds (bonds : list bond_tuple) : Cmd bond_vectors :=
  ifold (fun v t =>
           match t with
           | Bond2 a b => iret (append_bond v a b "polymer")
           | Bond3 a b bond_type => iret (append_bond v a b bond_type)
           | BondOther =>
               icall (msg_error CustomBondArity) ;; iraise polymers_error
           end)
        bonds ([], [], []).

(** Lines 508-511. *)
Definition use_types (types_used types : list string) : list string :=
  fold_left (fun used t => if str_in t used then used else used ++ [t])
            types types_used.

(** Lines 484-546, the body of the loop over [polymers]; the local
    variables are [types_used] and [min_bond_len]. *)
Definition polymer_step (dimensions : Z) (st : list string * option Q)
    (poly : polymer) : Cmd (list string * option Q) :=
  match poly_bond_len poly with
  | None => icall (msg_error MissingBondLen) ;; iraise polymers_error
  | Some bond_len =>
      let min_bond_len := match snd st with
                          | None => bond_len
                          | Some m => py_min m bond_len
                          end in
      match poly_type poly with
      | None => icall (msg_error MissingType) ;; iraise polymers_error
      | Some types =>
          match poly_count poly with
          | None => icall (msg_error MissingCount) ;; iraise polymers_error
          | Some count =>
              match poly_bond poly with
              | None => icall (msg_error MissingBond) ;; iraise polymers_error
              | Some bond =>
                  let types_used := use_types (fst st) types in
                  v <- match bond with
                       | Linear => iret (linear_bonds types)
                       | Custom bonds => custom_bonds bonds
                       | OtherBond =>
                           icall (msg_error UnexpectedBond) ;;
                           iraise polymers_error
                       end ;;
                  icall (addGenerator count bond_len types (fst (fst v))
                           (snd (fst v)) (snd v) dimensions) ;;
                  iret (types_used, Some min_bond_len)
              end
          end
      end
  end.

(** Lines 550-553. *)
Definition check_separation (separation : list (string * Q)) (t : string)
  : Cmd unit :=
  if negb (dict_mem String.eqb separation t)
  then icall (msg_error (NoSeparationFor t)) ;; iraise polymers_error
  else iret tt.

(** Lines 556-560. *)
Definition set_radius (min_bond_len : option Q) (item : string * Q) : Cmd unit :=
  icall (setSeparationRadius (fst item) (snd item)) ;;
  match min_bond_len with
  | None => iraise (InitTypeError "'>=' not supported")
  | Some m =>
      if Qle_bool m (2 * snd item)
      then icall (msg_error (SeparationTooBig (snd item) m)) ;;
           iraise polymers_error
      else iret tt
  end.

Definition create_random_polymers (mc : machine) (box : box_arg)
    (polymers : list polymer) (separation : list (string * Q)) (seed : Z)
  : Cmd unit :=
  icall print_status_line ;;
  icall _verify_init ;;
  check_not_initialized "Error creating random polymers" ;;
  match polymers with
  | [] => icall (msg_error PolymersEmpty) ;; iraise polymers_error
  | _ :: _ =>
      match separation with
      | [] => icall (msg_error SeparationEmpty) ;; iraise polymers_error
      | _ :: _ =>
          match box with
          | NotBoxdim =>
              icall (msg_error BoxMustBeBoxdim) ;;
              iraise (InitTypeError "box must be a data.boxdim object")
          | Boxdim dimensions =>
              icall (RandomGenerator seed dimensions) ;;
              st <- ifold (polymer_step dimensions) polymers ([], None) ;;
              ifold (fun _ t => check_separation separation t) (fst st) tt ;;
              ifold (fun _ item => set_radius (snd st) item) separation tt ;;
              icall generate ;;
              icall getSnapshot ;;
              init_from_snapshot mc 0
          end
      end
  end.

Local Close Scope init_scope.

(** The commands, to speak of all of them at once. *)
Inductive init_command :=
| CreateEmpty (N : Z) (box : box_arg)
    (particle_types bond_types angle_types dihedral_types improper_types
       : list string)
| ReadXml (filename : string) (restart : option string) (time_step : option Z)
    (wrap_coordinates : bool)
| ReadSnapshot
| ReadGsd (filename : string) (restart : option string) (frame : Z)
    (time_step : option Z)
| CreateRandomPolymers (box : box_arg) (polymers : list polymer)
    (separation : list (string * Q)) (seed : Z).

Definition run (mc : machine) (c : init_command) : Cmd unit :=
  match c with
  | CreateEmpty N box pt bt at_ dt it => create_empty mc N box pt bt at_ dt it
  | ReadXml f r t w => read_xml mc f r t w
  | ReadSnapshot => read_snapshot mc
  | ReadGsd f r fr t => read_gsd mc f r fr t
  | CreateRandomPolymers box p sep seed => create_random_polymers mc box p sep seed
  end.

(** ** Auxiliary notions of the statements about [init.py] *)

(** No decomposition is wanted: no MPI, or a single rank. *)
Definition single_rank (mc : machine) : bool :=
  negb (is_MPI_available mc) || (getNRanks mc =? 1)%Z.

(** The calls that build or use a domain decomposition. *)
Definition is_decomposition_call (c : init_call) : bool :=
  match c with
  | comm_decomposition | _make_cpp_decomposition
  | SystemDefinition_N _ _ _ _ _ _ true | SystemDefinition_snapshot true => true
  | _ => false
  end.

(** The calls that build the system definition or the system. *)
Definition is_system_call (c : init_call) : bool :=
  match c with
  | SystemDefinition_N _ _ _ _ _ _ _ | SystemDefinition_snapshot _
  | System_ _ => true
  | _ => false
  end.

(** The calls, the result and the session of a run. *)
Definition calls_of {A} (x : list init_call * (init_exn + A) * session)
  : list init_call := fst (fst x).
Definition result_of {A} (x : list init_call * (init_exn + A) * session)
  : init_exn + A := snd (fst x).
Definition session_of {A} (x : list init_call * (init_exn + A) * session)
  : session := snd x.

(** A run with some calls made before it. *)
Definition prepend {A} (l : list init_call)
    (x : list init_call * (init_exn + A) * session)
  : list init_call * (init_exn + A) * session :=
  (l ++ calls_of x, result_of x, session_of x).

(** The calls of [_perform_common_init_tasks] for a system definition built
    with ([true]) or without a decomposition. *)
Definition common_calls (mc : machine) (decomposed : bool) : list init_call :=
  [update_sort; quiet_status; group_all; _get_unique_thermo; unquiet_status]
  ++ (if is_MPI_available mc && getDomainDecomposition mc decomposed
      then [if isCUDAEnabled mc then CommunicatorGPU else Communicator;
            setCommunicator]
      else []).

(** What every command does once its arguments are accepted: the
    decomposition, the system definition (built by [sd_call]), the calls
    [middle] on it, the system at [time_step], the common tasks. *)
Definition core (mc : machine) (sd_call : bool -> init_call)
    (middle : list init_call) (time_step : Z) (s : session)
  : list init_call * (init_exn + unit) * session :=
  let d := _create_domain_decomposition mc s in
  match result_of d with
  | inl e => (calls_of d, inl e, session_of d)
  | inr decomposed =>
      (calls_of d ++ sd_call decomposed :: middle
         ++ System_ time_step :: common_calls mc decomposed ++ [system_data],
       inr tt,
       {| system := Some time_step;
          system_definition := Some decomposed;
          decomposition := decomposition (session_of d) |})
  end.

(** A polymer specification that [create_random_polymers] accepts. *)
Definition bond_tuple_ok (t : bond_tuple) : bool :=
  match t with
  | BondOther => false
  | _ => true
  end.

Definition polymer_ok (poly : polymer) : bool :=
  match poly_bond_len poly, poly_type poly, poly_count poly, poly_bond poly with
  | Some _, Some _, Some _, Some Linear => true
  | Some _, Some _, Some _, Some (Custom bonds) => forallb bond_tuple_ok bonds
  | _, _, _, _ => false
  end.

(** The particle types of a polymer, none when the key is missing. *)
Definition types_of (poly : polymer) : list string :=
  match poly_type poly with
  | Some types => types
  | None => []
  end.

(** The [setTypeName] calls of one loop of [create_empty]. *)
Definition type_name_calls (data : type_data) (names : list string)
  : list init_call :=
  map (fun item => setTypeName data (fst item) (snd item)) (enumerate names).

(** The bonds of a custom bond list without a tuple of a wrong length. *)
Definition custom_vectors (bonds : list bond_tuple) : bond_vectors :=
  fold_left (fun v t =>
               match t with
               | Bond2 a b => append_bond v a b "polymer"
               | Bond3 a b bond_type => append_bond v a b bond_type
               | BondOther => v
               end)
            bonds ([], [], []).

(** What one polymer specification gives: the message of the first check it
    fails, or the generator it adds. *)
Definition polymer_generator (dimensions : Z) (poly : polymer)
  : message + init_call :=
  match poly_bond_len poly, poly_type poly, poly_count poly, poly_bond poly with
  | None, _, _, _ => inl MissingBondLen
  | Some _, None, _, _ => inl MissingType
  | Some _, Some _, None, _ => inl MissingCount
  | Some _, Some _, Some _, None => inl MissingBond
  | Some bond_len, Some types, Some count, Some Linear =>
      let v := linear_bonds types in
      inr (addGenerator count bond_len types (fst (fst v)) (snd (fst v)) (snd v)
             dimensions)
  | Some bond_len, Some types, Some count, Some (Custom bonds) =>
      if forallb bond_tuple_ok bonds then
        let v := custom_vectors bonds in
        inr (addGenerator count bond_len types (fst (fst v)) (snd (fst v))
               (snd v) dimensions)
      else inl CustomBondArity
  | Some _, Some _, Some _, Some OtherBond => inl UnexpectedBond
  end.

(** The generators added for a list of specifications, up to the first one
    that fails a check, and the message of that check. *)
Fixpoint generator_calls (dimensions : Z) (polymers : list polymer)
  : list init_call * option message :=
  match polymers with
  | [] => ([], None)
  | poly :: rest =>
      match polymer_generator dimensions poly with
      | inl m => ([], Some m)
      | inr c =>
          let r := generator_calls dimensions rest in
          (c :: fst r, snd r)
      end
  end.

(** The local variables [types_used] and [min_bond_len] after a polymer. *)
Definition after_polymer (st : list string * option Q) (poly : polymer)
  : list string * option Q :=
  (use_types (fst st) (types_of poly),
   match poly_bond_len poly with
   | None => snd st
   | Some bond_len =>
       Some match snd st with
            | None => bond_len
            | Some m => py_min m bond_len
            end
   end).

(** The calls of the loop of lines 556-560 for the minimum bond length [m],
    and whether it raises. *)
Fixpoint radius_calls (m : Q) (separation : list (string * Q))
  : list init_call * bool :=
  match separation with
  | [] => ([], false)
  | item :: rest =>
      if Qle_bool m (2 * snd item)
      then ([setSeparationRadius (fst item) (snd item);
             msg_error (SeparationTooBig (snd item) m)], true)
      else let r := radius_calls m rest in
           (setSeparationRadius (fst item) (snd item) :: fst r, snd r)
  end.

(** The calls made on the generator from the first polymer to
    [getSnapshot], and the exception that ends them, if any. *)
Definition generation (dimensions : Z) (polymers : list polymer)
    (separation : list (string * Q)) : list init_call * option init_exn :=
  let g := generator_calls dimensions polymers in
  let st := fold_left after_polymer polymers ([], None) in
  match snd g with
  | Some m => (fst g ++ [msg_error m], Some polymers_error)
  | None =>
      match find (fun t => negb (dict_mem String.eqb separation t)) (fst st) with
      | Some t => (fst g ++ [msg_error (NoSeparationFor t)], Some polymers_error)
      | None =>
          match snd st, separation with
          | None, [] => (fst g ++ [generate; getSnapshot], None)
          | None, item :: _ =>
              (fst g ++ [setSeparationRadius (fst item) (snd item)],
               Some (InitTypeError "'>=' not supported"))
          | Some m, _ =>
              let r := radius_calls m separation in
              if snd r then (fst g ++ fst r, Some polymers_error)
              else (fst g ++ fst r ++ [generate; getSnapshot], None)
          end
      end
  end.

(** Whether the system definition is built with a decomposition. *)
Definition decomposed (mc : machine) : bool :=
  negb (single_rank mc) && cpp_decomposition_made mc.

(** The calls of [_create_domain_decomposition]. *)
Definition decomposition_calls (mc : machine) (s : session) : list init_call :=
  if single_rank mc then []
  else match decomposition s with
       | None => [quiet_status; comm_decomposition; unquiet_status;
                  _make_cpp_decomposition]
       | Some _ => [_make_cpp_decomposition]
       end.

(** The calls that build or register a communicator. *)
Definition is_communicator_call (c : init_call) : bool :=
  match c with
  | Communicator | CommunicatorGPU | setCommunicator => true
  | _ => false
  end.

(** The calls that build the state of the simulation. *)
Definition is_engine_call (c : init_call) : bool :=
  is_system_call c || is_decomposition_call c || is_communicator_call c.

(** A command whose arguments are accepted: the calls it makes before the
    decomposition, the call that builds its system definition, the calls it
    makes on the definition, the time step of its system. *)
Record accepted := {
  before : list init_call;
  build : bool -> init_call;
  on_definition : list init_call;
  at_step : Z
}.

(** What a command does with its arguments when the system is not yet
    initialized: the calls and the exception of a rejection, or the
    accepted command. *)
Definition plan (mc : machine) (c : init_command)
  : (list init_call * init_exn) + accepted :=
  match c with
  | CreateEmpty N box pt bt at_ dt it =>
      match box with
      | NotBoxdim =>
          inl ([print_status_line; msg_warning CreateEmptyDeprecated;
                _verify_init; msg_error BoxMustBeBoxdim],
               InitTypeError "box must be a data.boxdim object")
      | Boxdim dimensions =>
          inr {| before := [print_status_line;
                            msg_warning CreateEmptyDeprecated; _verify_init];
                 build := SystemDefinition_N N (List.length pt) (List.length bt)
                            (List.length at_) (List.length dt) (List.length it);
                 on_definition :=
                   setNDimensions dimensions
                     :: type_name_calls ParticleData pt
                     ++ type_name_calls BondData bt
                     ++ type_name_calls AngleData at_
                     ++ type_name_calls DihedralData dt
                     ++ type_name_calls ImproperData it;
                 at_step := 0 |}
      end
  | ReadXml filename restart time_step wrap =>
      let f := match restart with
               | Some r => if path_isfile mc r then r else filename
               | None => filename
               end in
      inr {| before := [print_status_line; _verify_init;
                        HOOMDInitializer f wrap; getSnapshot];
             build := SystemDefinition_snapshot;
             on_definition := [];
             at_step := match time_step with
                        | None => xml_getTimeStep mc f
                        | Some t => t
                        end |}
  | ReadSnapshot =>
      inr {| before := [print_status_line; _verify_init; _broadcast];
             build := SystemDefinition_snapshot;
             on_definition := [];
             at_step := 0 |}
  | ReadGsd filename restart frame time_step =>
      inr {| before := [print_status_line; _verify_init;
                        GSDReader filename frame; getSnapshot; _broadcast];
             build := SystemDefinition_snapshot;
             on_definition := [];
             at_step := match time_step with
                        | None => gsd_getTimeStep mc filename frame
                        | Some t => t
                        end |}
  | CreateRandomPolymers box polymers separation seed =>
      match polymers, separation, box with
      | [], _, _ =>
          inl ([print_status_line; _verify_init; msg_error PolymersEmpty],
               polymers_error)
      | _ :: _, [], _ =>
          inl ([print_status_line; _verify_init; msg_error SeparationEmpty],
               polymers_error)
      | _ :: _, _ :: _, NotBoxdim =>
          inl ([print_status_line; _verify_init; msg_error BoxMustBeBoxdim],
               InitTypeError "box must be a data.boxdim object")
      | _ :: _, _ :: _, Boxdim dimensions =>
          let g := generation dimensions polymers separation in
          match snd g with
          | Some e =>
              inl (print_status_line :: _verify_init
                     :: RandomGenerator seed dimensions :: fst g, e)
          | None =>
              inr {| before := print_status_line :: _verify_init
                                 :: RandomGenerator seed dimensions :: fst g;
                     build := SystemDefinition_snapshot;
                     on_definition := [];
                     at_step := 0 |}
          end
      end
  end.

(** The calls made before the test of [is_initialized], and the message of
    the [RuntimeError] raised when it holds. *)
Definition guard_calls (c : init_command) : list init_call :=
  match c with
  | CreateEmpty _ _ _ _ _ _ _ => [print_status_line]
  | _ => [print_status_line; _verify_init]
  end.

Definition guard_message (c : init_command) : string :=
  match c with
  | ReadXml _ _ _ _ => "Error reading XML file"
  | CreateRandomPolymers _ _ _ _ => "Error creating random polymers"
  | _ => "Error initializing"
  end.

(** The bond lengths given in a list of polymer specifications. *)
Definition bond_lens (polymers : list polymer) : list Q :=
  flat_map (fun poly => match poly_bond_len poly with
                        | Some bond_len => [bond_len]
                        | None => []
                        end) polymers.

(** A command stopped by the test of [is_initialized]. *)
Definition guard_failure (l : list init_call) (msg : string) (s : session)
  : list init_call * (init_exn + unit) * session :=
  (l ++ [msg_error CannotInitializeTwice], inl (InitRuntimeError msg), s).

(** No call of a list builds a part of the state of the simulation. *)
Definition engine_free (l : list init_call) : bool :=
  forallb (fun c => negb (is_engine_call c)) l.

(** The calls that read a file. *)
Definition is_reader_call (c : init_call) : bool :=
  match c with
  | HOOMDInitializer _ _ | GSDReader _ _ => true
  | _ => false
  end.

(** A machine and a fresh session for the examples. *)
Definition example_machine (mpi : bool) (ranks : Z) : machine :=
  {| is_MPI_available := mpi; getNRanks := ranks; isCUDAEnabled := false;
     path_isfile := fun f => String.eqb f "restart.xml";
     xml_getTimeStep := fun f => if String.eqb f "restart.xml" then 5000%Z else 0%Z;
     gsd_getTimeStep := fun _ frame => frame;
     cpp_decomposition_made := true;
     getDomainDecomposition := fun decomposed => decomposed |}.

Definition fresh_session : session :=
  {| system := None; system_definition := None; decomposition := None |}.

(** A session whose system is initialized, two polymer specifications and
    a separation dictionary for the examples. *)
Definition running_session : session :=
  {| system := Some 0%Z; system_definition := Some false;
     decomposition := None |}.

Definition example_polymers : list polymer :=
  [ {| poly_bond_len := Some (12 # 10)%Q;
       poly_type := Some ["A"; "B"; "B"; "A"];
       poly_count := Some 100%Z;
       poly_bond := Some Linear |};
    {| poly_bond_len := Some (1 # 1)%Q;
       poly_type := Some ["B"; "B"; "B"];
       poly_count := Some 10%Z;
       poly_bond := Some (Custom [Bond2 0 1; Bond3 1 2 "bondB"]) |} ].

Definition example_separation : list (string * Q) :=
  [("A", (35 # 100)%Q); ("B", (4 # 10)%Q)].

(** * Properties *)

(** ** Dictionaries *)

Section DictFacts.
Context {K V : Type}.
Variable eqb : K -> K -> bool.
Hypothesis eqb_spec : forall a b, reflect (a = b) (eqb a b).

Lemma dict_get_set_same (d : list (K * V)) k v :
  dict_get eqb (dict_set eqb d k v) k = Some v.
Proof.
  induction d as [|[k' v'] d IH]; simpl.
  - now destruct (eqb_spec k k).
  - destruct (eqb_spec k k') as [->|Hne]; simpl.
    + now destruct (eqb_spec k' k').
    + now destruct (eqb_spec k k').
Qed.

Lemma dict_get_set_other (d : list (K * V)) k v k' :
  k' <> k -> dict_get eqb (dict_set eqb d k v) k' = dict_get eqb d k'.
Proof.
  intros Hne. induction d as [|[k0 v0] d IH]; simpl.
  - now destruct (eqb_spec k' k).
  - destruct (eqb_spec k k0) as [->|Hk]; simpl.
    + now destruct (eqb_spec k' k0).
    + destruct (eqb_spec k' k0); [reflexivity | exact IH].
Qed.

Lemma keys_dict_set (d : list (K * V)) k v :
  map fst (dict_set eqb d k v) = keys_set eqb (map fst d) k.
Proof.
  induction d as [|[k' v'] d IH]; simpl; [reflexivity|].
  destruct (eqb k k'); simpl; [reflexivity | now rewrite IH].
Qed.

Lemma in_keys_set ks k k' : In k' (keys_set eqb ks k) <-> k' = k \/ In k' ks.
Proof.
  induction ks as [|k0 ks IH]; simpl.
  - intuition.
  - destruct (eqb_spec k k0) as [->|Hne]; simpl; [|rewrite IH]; intuition.
Qed.

Lemma NoDup_keys_set ks k : NoDup ks -> NoDup (keys_set eqb ks k).
Proof.
  induction 1 as [|k0 ks Hnin Hnd IH]; simpl.
  - constructor; [intros [] | constructor].
  - destruct (eqb_spec k k0) as [->|Hne].
    + now constructor.
    + constructor; [|exact IH].
      rewrite in_keys_set. intros [->|Hin]; [now apply Hne | now apply Hnin].
Qed.

Lemma dict_get_some_entry (d : list (K * V)) k v :
  dict_get eqb d k = Some v -> In (k, v) d.
Proof.
  induction d as [|[k0 v0] d IH]; simpl; [discriminate|].
  destruct (eqb_spec k k0) as [->|_].
  - intros [= ->]. now left.
  - intros H. right. now apply IH.
Qed.
End DictFacts.

Lemma GetarCompression_eqb_spec a b : reflect (a = b) (GetarCompression_eqb a b).
Proof. destruct a, b; simpl; constructor; congruence. Qed.

Lemma DumpProp_eqb_spec p q : reflect (p = q) (DumpProp_eqb p q).
Proof.
  destruct p as [n h c], q as [n' h' c']. unfold DumpProp_eqb; simpl.
  destruct (String.eqb_spec n n') as [->|Hn]; simpl;
    [|constructor; congruence].
  destruct (Bool.eqb_spec h h') as [->|Hh]; simpl;
    [|constructor; congruence].
  destruct (GetarCompression_eqb_spec c c') as [->|Hc];
    constructor; congruence.
Qed.

Lemma propspec_eqb_spec a b : reflect (a = b) (propspec_eqb a b).
Proof.
  destruct a as [s|p], b as [t|q]; simpl; try (constructor; congruence).
  - destruct (String.eqb_spec s t); constructor; congruence.
  - destruct (DumpProp_eqb_spec p q); constructor; congruence.
Qed.

(** ** Name expansion *)

Example expand_viz_aniso_all :
  map name (_expandNames [PName "viz_aniso_all"]) =
  ["type"; "type_names"; "dimensions"; "position"; "box"; "orientation"].
Proof. reflexivity. Qed.

Example expand_unknown_name :
  _expandNames [PName "types"; PDump (mkDumpProp "viz_dynamic" true SlowCompress)]
  = [DumpProp_new "types"; mkDumpProp "position" true SlowCompress;
     mkDumpProp "box" true SlowCompress].
Proof. reflexivity. Qed.

(** The body of the loop of [_expandNames], one element at a time. *)
Lemma expandNames_cons v rest :
  _expandNames (v :: rest) =
  match dict_get String.eqb substitutions (name (_getStatic v)) with
  | Some children =>
      _expandNames (subs_of (_getStatic v) children) ++ _expandNames rest
  | None => _getStatic v :: _expandNames rest
  end.
Proof.
  rewrite _expandNames_equation_2.
  destruct (inspect (dict_get String.eqb substitutions (name (_getStatic v))))
    as [[children|] e]; cbn [_expandNames_unfold_clause_2]; rewrite e;
    reflexivity.
Qed.

Lemma expandNames_app vals vals' :
  _expandNames (vals ++ vals') = _expandNames vals ++ _expandNames vals'.
Proof.
  induction vals as [|v vals IH]; [reflexivity|].
  simpl app. rewrite !expandNames_cons, IH.
  destruct (dict_get String.eqb substitutions (name (_getStatic v)));
    [now rewrite app_assoc | reflexivity].
Qed.

(** No composite name is left in an expansion. *)
Lemma expandNames_primitive vals p :
  In p (_expandNames vals) ->
  dict_get String.eqb substitutions (name p) = None.
Proof.
  funelim (_expandNames vals); intros Hin.
  - destruct Hin.
  - apply in_app_or in Hin. destruct Hin; auto.
  - destruct Hin as [<-|Hin]; auto.
Qed.

(** Children inherit the precision and the compression of the request. *)
Lemma expandNames_inherit vals p :
  In p (_expandNames vals) ->
  exists v, In v vals
            /\ highPrecision p = highPrecision (_getStatic v)
            /\ compression p = compression (_getStatic v).
Proof.
  funelim (_expandNames vals); intros Hin.
  - destruct Hin.
  - apply in_app_or in Hin. destruct Hin as [Hin|Hin].
    + destruct (H _ Hin) as (c & Hc & Hhp & Hcomp).
      unfold subs_of in Hc. apply in_map_iff in Hc.
      destruct Hc as (n & <- & _). simpl in Hhp, Hcomp.
      exists v. split; [now left | now split].
    + destruct (H0 _ Hin) as (c & Hc & Hhc). exists c. split; [now right | exact Hhc].
  - destruct Hin as [<-|Hin].
    + exists v. split; [now left | now split].
    + destruct (H _ Hin) as (c & Hc & Hhc). exists c. split; [now right | exact Hhc].
Qed.

(** A sequence of primitive requests is left as it is. *)
Lemma expandNames_fixed vals :
  (forall v, In v vals ->
     dict_get String.eqb substitutions (name (_getStatic v)) = None) ->
  _expandNames vals = map _getStatic vals.
Proof.
  induction vals as [|v vals IH]; intros Hprim; [reflexivity|].
  rewrite expandNames_cons, (Hprim v (or_introl eq_refl)), IH; [reflexivity|].
  intros w Hw. apply Hprim. now right.
Qed.

(** Every composite has at least one child, so nothing expands to nothing. *)
Lemma expandNames_nonempty vals : vals <> [] -> _expandNames vals <> [].
Proof.
  funelim (_expandNames vals); intros Hne; try congruence.
  intros Heq. apply app_eq_nil in Heq. destruct Heq as [Heq _].
  revert Heq. apply H.
  assert (A : forallb (fun e => negb (Nat.eqb (List.length (snd e)) 0)) substitutions = true)
    by (vm_compute; reflexivity).
  rewrite forallb_forall in A.
  specialize (A _ (dict_get_some_entry _ String.eqb_spec substitutions _ _ e)).
  destruct children; [discriminate A | discriminate].
Qed.

(** C8. Name expansion is a total function on request sequences (no
    request makes it fail: a name that the substitution table does not
    have is passed through as it is) and it is idempotent: expanding an
    expansion gives the expansion back. *)
Theorem expandNames_idempotent (R : list propspec) :
  _expandNames (map PDump (_expandNames R)) = _expandNames R
  /\ (forall v, dict_get String.eqb substitutions (name (_getStatic v)) = None ->
                _expandNames [v] = [_getStatic v]).
Proof.
  split.
  - rewrite expandNames_fixed.
    + rewrite map_map. simpl. apply map_id.
    + intros v Hv. apply in_map_iff in Hv. destruct Hv as (p & <- & Hp).
      simpl. exact (expandNames_primitive _ _ Hp).
  - intros v Hv. rewrite expandNames_cons, Hv. reflexivity.
Qed.

(** ** Method bodies *)

Lemma calls_bind {A B} (m : M A) (k : A -> M B) :
  calls (bind m k) =
  calls m ++ match outcome m with inl _ => [] | inr a => calls (k a) end.
Proof.
  destruct m as [log [e|a]]; simpl; [now rewrite app_nil_r | reflexivity].
Qed.

Lemma outcome_bind {A B} (m : M A) (k : A -> M B) :
  outcome (bind m k) =
  match outcome m with inl e => inl e | inr a => outcome (k a) end.
Proof. destruct m as [log [e|a]]; reflexivity. Qed.

Lemma M_eta {A} (m : M A) : m = (calls m, outcome m).
Proof. now destruct m. Qed.

(** A loop whose body either raises [err a] (when [bad a]) or completes
    stops at the first bad element. *)
Lemma for_each_guard {A} (bad : A -> bool) (err : A -> exn)
    (l : list A) (body : A -> M unit) :
  (forall a, In a l ->
     outcome (body a) = if bad a then inl (err a) else inr tt) ->
  outcome (for_each l body) =
  match find bad l with Some a => inl (err a) | None => inr tt end.
Proof.
  induction l as [|a l IH]; intros Hbody; [reflexivity|].
  simpl. rewrite outcome_bind, (Hbody a (or_introl eq_refl)).
  destruct (bad a); [reflexivity|]. apply IH. intros b Hb. apply Hbody. now right.
Qed.

Lemma for_each_completes {A} (l : list A) (body : A -> M unit) :
  (forall a, In a l -> outcome (body a) = inr tt) ->
  for_each l body = (flat_map (fun a => calls (body a)) l, inr tt).
Proof.
  induction l as [|a l IH]; intros Hbody; [reflexivity|].
  simpl. rewrite (M_eta (bind _ _)), calls_bind, outcome_bind.
  rewrite (Hbody a (or_introl eq_refl)), IH; [reflexivity|].
  intros b Hb. apply Hbody. now right.
Qed.

Lemma for_each_raises {A} (l : list A) (body : A -> M unit) e :
  outcome (for_each l body) = inl e ->
  exists a, In a l /\ outcome (body a) = inl e.
Proof.
  induction l as [|a l IH]; simpl; [discriminate|].
  rewrite outcome_bind. destruct (outcome (body a)) as [e'|[]] eqn:Ha.
  - intros [= ->]. exists a. split; [now left | exact Ha].
  - intros H. destruct (IH H) as (b & Hb & Hout).
    exists b. split; [now right | exact Hout].
Qed.

Lemma for_each_returns {A} (l : list A) (body : A -> M unit) :
  outcome (for_each l body) = inr tt ->
  forall a, In a l -> outcome (body a) = inr tt.
Proof.
  induction l as [|a l IH]; simpl; [intros _ ? []|].
  rewrite outcome_bind. destruct (outcome (body a)) as [e'|[]] eqn:Ha;
    [discriminate|].
  intros H b [<-|Hb]; [exact Ha | now apply IH].
Qed.

(** ** The catalog *)

Lemma dict_mem_same_keys {V V'} (d : list (string * V)) (d' : list (string * V')) :
  map fst d = map fst d' ->
  forall k, dict_mem String.eqb d k = dict_mem String.eqb d' k.
Proof.
  unfold dict_mem. revert d'.
  induction d as [|[k0 v0] d IH]; intros [|[k1 v1] d'] Hkeys k;
    try discriminate; [reflexivity|].
  simpl in Hkeys. injection Hkeys as -> Hkeys. simpl.
  destruct (String.eqb k k1); [reflexivity | now apply IH].
Qed.

Lemma known_registration p b z :
  known (name p) = true -> exists ev, registration p b z = Some ev.
Proof.
  intros Hk.
  assert (Hr : dict_mem String.eqb known_resolutions (name p) = true).
  { rewrite <- Hk. symmetry. now apply dict_mem_same_keys. }
  unfold known, dict_mem in Hk, Hr. unfold registration.
  destruct (dict_get String.eqb known_properties (name p)); [|discriminate].
  destruct (dict_get String.eqb known_resolutions (name p)); [|discriminate].
  eexists. reflexivity.
Qed.

Lemma registration_shape p b z ev :
  registration p b z = Some ev ->
  exists i r, ev = setPeriod i r b (highPrecision p) (compression p) z.
Proof.
  unfold registration.
  destruct (dict_get String.eqb known_properties (name p)) as [i|]; [|discriminate].
  destruct (dict_get String.eqb known_resolutions (name p)) as [r|]; [|discriminate].
  intros [= <-]. now exists i, r.
Qed.

Lemma registration_lookup p b z ev :
  registration p b z = Some ev ->
  exists i r,
    dict_get String.eqb known_properties (name p) = Some i
    /\ dict_get String.eqb known_resolutions (name p) = Some r
    /\ ev = setPeriod i r b (highPrecision p) (compression p) z.
Proof.
  unfold registration.
  destruct (dict_get String.eqb known_properties (name p)) as [i|]; [|discriminate].
  destruct (dict_get String.eqb known_resolutions (name p)) as [r|]; [|discriminate].
  intros [= <-]. now exists i, r.
Qed.

Lemma register_registration p b z :
  register p b z =
  match registration p b z with
  | Some ev => call ev
  | None => raise (KeyError (name p))
  end.
Proof.
  unfold register, registration, getitem.
  destruct (dict_get String.eqb known_properties (name p)) as [i|]; [|reflexivity].
  destruct (dict_get String.eqb known_resolutions (name p)) as [r|]; reflexivity.
Qed.

(** ** The loops of lines 266-271 *)

Lemma dynamic_loop_assignments dynamic :
  dynamic_loop dynamic = fold_left assign (assignments dynamic) ([], None).
Proof.
  unfold dynamic_loop, assignments. generalize (@nil (DumpProp * period_value), @None DumpProp).
  induction dynamic as [|item dynamic IH]; intros st; [reflexivity|].
  simpl. rewrite fold_left_app, <- IH. f_equal.
  generalize (_expandNames [fst item]). intros props. revert st.
  induction props as [|q props IHp]; intros st; [reflexivity|].
  simpl. apply IHp.
Qed.

Lemma fold_assign_keys asg st :
  map fst (fst (fold_left assign asg st)) =
  fold_left (keys_set DumpProp_eqb) (map fst asg) (map fst (fst st)).
Proof.
  revert st. induction asg as [|a asg IH]; intros st; [reflexivity|].
  simpl. rewrite IH. simpl. now rewrite keys_dict_set.
Qed.

Lemma fold_assign_prop asg st :
  snd (fold_left assign asg st) =
  match rev asg with [] => snd st | a :: _ => Some (fst a) end.
Proof.
  revert st. induction asg as [|a asg IH]; intros st; [reflexivity|].
  simpl. rewrite IH. simpl.
  destruct (rev asg) as [|b l]; reflexivity.
Qed.

Lemma in_fold_keys_set ks ks0 p :
  In p (fold_left (keys_set DumpProp_eqb) ks ks0) <-> In p ks0 \/ In p ks.
Proof.
  revert ks0. induction ks as [|k ks IH]; intros ks0; simpl; [intuition|].
  rewrite IH, (in_keys_set _ DumpProp_eqb_spec). intuition.
Qed.

Lemma NoDup_fold_keys_set ks ks0 :
  NoDup ks0 -> NoDup (fold_left (keys_set DumpProp_eqb) ks ks0).
Proof.
  revert ks0. induction ks as [|k ks IH]; intros ks0 Hnd; [exact Hnd|].
  simpl. apply IH. now apply (NoDup_keys_set _ DumpProp_eqb_spec).
Qed.

(** The keys of [self._dynamic] are the resolved dynamic properties. *)
Lemma dynamic_keys dynamic p :
  In p (map fst (fst (dynamic_loop dynamic))) <->
  In p (map fst (assignments dynamic)).
Proof.
  rewrite dynamic_loop_assignments, fold_assign_keys, in_fold_keys_set.
  simpl. intuition.
Qed.

Lemma dynamic_keys_NoDup dynamic :
  NoDup (map fst (fst (dynamic_loop dynamic))).
Proof.
  rewrite dynamic_loop_assignments, fold_assign_keys.
  apply NoDup_fold_keys_set. constructor.
Qed.


Lemma dynamic_loop_prop dynamic :
  snd (dynamic_loop dynamic) =
  match rev (map fst (assignments dynamic)) with
  | [] => None
  | p :: _ => Some p
  end.
Proof.
  rewrite dynamic_loop_assignments, fold_assign_prop, <- map_rev.
  destruct (rev (assignments dynamic)); reflexivity.
Qed.

Lemma assignments_nonempty dynamic :
  dynamic <> [] -> map fst (assignments dynamic) <> [].
Proof.
  destruct dynamic as [|[k v] dynamic]; [congruence|]. intros _.
  unfold assignments. simpl. rewrite map_app, map_map. simpl. rewrite map_id.
  intros H. apply app_eq_nil in H. destruct H as [H _].
  revert H. apply expandNames_nonempty. discriminate.
Qed.

(** After the loops [prop] is unbound exactly when [dynamic] is empty, and
    otherwise names a resolved dynamic property. *)
Lemma dynamic_loop_prop_bound dynamic :
  dynamic <> [] ->
  exists p, snd (dynamic_loop dynamic) = Some p
            /\ In p (map fst (assignments dynamic)).
Proof.
  intros Hne. rewrite dynamic_loop_prop.
  destruct (rev (map fst (assignments dynamic))) as [|p l] eqn:Hrev.
  - exfalso. apply (assignments_nonempty _ Hne).
    rewrite <- (rev_involutive (map fst _)), Hrev. reflexivity.
  - exists p. split; [reflexivity|]. apply in_rev. rewrite Hrev. now left.
Qed.

(** Of several requests that resolve to one property the last one wins. *)
Lemma fold_assign_last asg1 p per asg2 st :
  ~ In p (map fst asg2) ->
  dict_get DumpProp_eqb (fst (fold_left assign (asg1 ++ (p, per) :: asg2) st)) p
  = Some per.
Proof.
  intros Hnin. rewrite fold_left_app. simpl.
  set (st' := assign (fold_left assign asg1 st) (p, per)).
  assert (Hst : dict_get DumpProp_eqb (fst st') p = Some per)
    by apply (dict_get_set_same _ DumpProp_eqb_spec).
  clearbody st'. revert st' Hst.
  induction asg2 as [|[q v] asg2 IH]; intros st' Hst; [exact Hst|].
  simpl. apply IH.
  - intros Hin. apply Hnin. now right.
  - simpl. rewrite (dict_get_set_other _ DumpProp_eqb_spec); [exact Hst|].
    intros ->. apply Hnin. now left.
Qed.

(** ** The stages of [__init__] *)

Lemma check_static_calls prop val : calls (check_static prop val) = [].
Proof.
  unfold check_static. destruct prop as [p|]; [|reflexivity].
  destruct (negb (known (name p))); reflexivity.
Qed.

Lemma check_dynamic_calls val : calls (check_dynamic val) = [].
Proof. unfold check_dynamic. destruct (negb (known (name val))); reflexivity. Qed.

Lemma for_each_silent {A} (l : list A) (body : A -> M unit) :
  (forall a, calls (body a) = []) -> calls (for_each l body) = [].
Proof.
  intros Hbody. induction l as [|a l IH]; [reflexivity|].
  simpl. rewrite calls_bind, Hbody. destruct (outcome (body a)); [reflexivity | exact IH].
Qed.

(** Validation makes no call. *)
Lemma validate_calls ss sd prop : calls (validate ss sd prop) = [].
Proof.
  unfold validate. rewrite calls_bind.
  rewrite (for_each_silent _ _ (check_static_calls prop)).
  destruct (outcome _); [reflexivity|].
  apply for_each_silent, check_dynamic_calls.
Qed.


(** Validation passes when the dynamic names are known and the static test
    has a bound, known [prop] to read (or nothing to test). *)
Lemma validate_passes ss sd prop :
  (ss = [] \/ exists p, prop = Some p /\ known (name p) = true) ->
  (forall p, In p (map fst sd) -> known (name p) = true) ->
  outcome (validate ss sd prop) = inr tt.
Proof.
  intros Hs Hd. unfold validate. rewrite outcome_bind.
  assert (H1 : outcome (for_each ss (check_static prop)) = inr tt).
  { destruct Hs as [->|(p & -> & Hp)]; [reflexivity|].
    rewrite for_each_completes; [reflexivity|].
    intros a _. simpl. now rewrite Hp. }
  rewrite H1. rewrite for_each_completes; [reflexivity|].
  intros a Ha. unfold check_dynamic. now rewrite (Hd a Ha).
Qed.

Lemma open_archive_unfold ctx filename mode :
  open_archive ctx filename mode =
  match dict_get String.eqb dump_modes mode with
  | None => ([], inl (UnknownOpenMode mode))
  | Some dumpMode =>
      ([GetarDumpWriter filename (effective_mode ctx filename dumpMode)
          (getCurrentTimeStep ctx)], inr tt)
  end.
Proof.
  unfold open_archive, resolve_mode, effective_mode.
  destruct (dict_get String.eqb dump_modes mode) as [m|]; [|reflexivity].
  destruct (GetarDumpMode_eqb m Append && negb (isfile ctx filename)); reflexivity.
Qed.

(** The log and the outcome of a construction, stage by stage. *)
Lemma getar_init_unfold ctx filename mode static dynamic (reg : bool) :
  let ss := _expandNames static in
  let sd := fst (dynamic_loop dynamic) in
  let pre := if reg then [analyzer_init] else [] in
  let statics := for_each (set_iter ctx ss) (register_static ctx) in
  let dynamics := for_each sd (register_dynamic ctx) in
  getar_init ctx filename mode static dynamic reg =
  match outcome (validate ss sd (snd (dynamic_loop dynamic))) with
  | inl e => (pre, inl e)
  | inr _ =>
      match dict_get String.eqb dump_modes mode with
      | None => (pre, inl (UnknownOpenMode mode))
      | Some dumpMode =>
          let opened :=
            pre ++ [GetarDumpWriter filename
                      (effective_mode ctx filename dumpMode)
                      (getCurrentTimeStep ctx)] in
          match outcome statics with
          | inl e => (opened ++ calls statics, inl e)
          | inr _ =>
              match outcome dynamics with
              | inl e => (opened ++ calls statics ++ calls dynamics, inl e)
              | inr _ =>
                  (opened ++ calls statics ++ calls dynamics
                     ++ (if reg then [getPeriod; setupAnalyzer] else []),
                   inr {| _static := ss; _dynamic := sd |})
              end
          end
      end
  end.
Proof.
  intros ss sd pre statics dynamics. unfold getar_init.
  fold ss sd. unfold register_all. fold statics dynamics.
  rewrite open_archive_unfold.
  rewrite (M_eta (validate ss sd _)), validate_calls.
  rewrite (M_eta statics), (M_eta dynamics). subst pre.
  destruct (outcome (validate ss sd _)) as [e|[]];
    [destruct reg; reflexivity|].
  destruct (dict_get String.eqb dump_modes mode) as [m|];
    [|destruct reg; reflexivity].
  destruct (outcome statics) as [e|[]];
    [destruct reg; simpl; rewrite ?app_nil_r; reflexivity|].
  destruct (outcome dynamics) as [e|[]];
    destruct reg; simpl; rewrite ?app_nil_r, <- ?app_assoc; reflexivity.
Qed.

(** ** The registration loops *)

Lemma register_static_unfold ctx p :
  register_static ctx p =
  if rank_unsafe ctx p then ([], inl (CantDumpWithMPI (name p)))
  else match registration p Constant 0 with
       | Some ev => ([ev], inr tt)
       | None => ([], inl (KeyError (name p)))
       end.
Proof.
  unfold register_static. simpl _getStatic.
  destruct (rank_unsafe ctx p); [reflexivity|].
  rewrite register_registration. now destruct (registration p Constant 0).
Qed.

Lemma register_calls p b z ev :
  In ev (calls (register p b z)) -> registration p b z = Some ev.
Proof.
  rewrite register_registration.
  destruct (registration p b z) as [ev'|]; simpl; [|intros []].
  intros [<-|[]]. reflexivity.
Qed.

Lemma register_returns p b z :
  outcome (register p b z) = inr tt ->
  exists ev, registration p b z = Some ev /\ calls (register p b z) = [ev].
Proof.
  rewrite register_registration.
  destruct (registration p b z) as [ev|]; simpl; [|discriminate].
  intros _. now exists ev.
Qed.

Lemma register_static_calls ctx p ev :
  In ev (calls (register_static ctx p)) -> registration p Constant 0 = Some ev.
Proof.
  rewrite register_static_unfold.
  destruct (rank_unsafe ctx p); [intros []|].
  destruct (registration p Constant 0) as [ev'|]; simpl; [|intros []].
  intros [<-|[]]. reflexivity.
Qed.

Lemma for_each_calls_inv {A} (l : list A) (body : A -> M unit) ev :
  In ev (calls (for_each l body)) ->
  exists a, In a l /\ In ev (calls (body a)).
Proof.
  induction l as [|a l IH]; simpl; [intros []|].
  rewrite calls_bind. intros Hin. apply in_app_or in Hin.
  destruct Hin as [Hin|Hin].
  - exists a. split; [now left | exact Hin].
  - destruct (outcome (body a)); [destruct Hin|].
    destruct (IH Hin) as (b & Hb & Hev). exists b. split; [now right | exact Hev].
Qed.

Lemma register_dynamic_calls ctx item ev :
  In ev (calls (register_dynamic ctx item)) ->
  exists z, In z (periods_of (snd item))
            /\ registration (fst item) Discrete z = Some ev.
Proof.
  unfold register_dynamic. destruct item as [p per]. simpl fst; simpl snd.
  destruct (rank_unsafe ctx p); [intros []|].
  destruct per as [z|zs]; simpl periods_of.
  - intros Hin. exists z. split; [now left | now apply register_calls].
  - intros Hin. apply for_each_calls_inv in Hin.
    destruct Hin as (z & Hz & Hev). exists z. split; [exact Hz | now apply register_calls].
Qed.

(** An entry that registers without an exception is rank-safe and makes one
    call for each of its periods, in order. *)
Lemma register_dynamic_returns ctx item :
  outcome (register_dynamic ctx item) = inr tt ->
  rank_unsafe ctx (fst item) = false
  /\ map Some (calls (register_dynamic ctx item))
     = map (registration (fst item) Discrete) (periods_of (snd item)).
Proof.
  unfold register_dynamic. destruct item as [p per]. simpl fst; simpl snd.
  destruct (rank_unsafe ctx p); [discriminate|].
  intros Hout. split; [reflexivity|].
  destruct per as [z|zs]; simpl periods_of.
  - destruct (register_returns _ _ _ Hout) as (ev & Hev & ->).
    simpl. now rewrite Hev.
  - rewrite for_each_completes;
      [|intros z Hz; exact (for_each_returns _ _ Hout z Hz)].
    simpl calls. pose proof (for_each_returns _ _ Hout) as Hall. clear Hout.
    induction zs as [|z zs IH]; [reflexivity|].
    destruct (register_returns _ _ _ (Hall z (or_introl eq_refl))) as (ev & Hev & Hc).
    simpl. rewrite Hc, Hev. simpl. f_equal. apply IH.
    intros z' Hz'. apply Hall. now right.
Qed.

(** With its name in the catalog an entry fails only on the rank test. *)
Lemma register_dynamic_outcome ctx item :
  known (name (fst item)) = true ->
  outcome (register_dynamic ctx item) =
  if rank_unsafe ctx (fst item)
  then inl (CantDumpWithMPI (name (fst item))) else inr tt.
Proof.
  intros Hk. unfold register_dynamic. destruct item as [p per].
  simpl fst in *; simpl snd.
  destruct (rank_unsafe ctx p); [reflexivity|].
  assert (Hreg : forall z, outcome (register p Discrete z) = inr tt).
  { intros z. rewrite register_registration.
    destruct (known_registration p Discrete z Hk) as (ev & ->). reflexivity. }
  destruct per as [z|zs]; [apply Hreg|].
  rewrite for_each_completes; [reflexivity | intros z _; apply Hreg].
Qed.

Lemma register_static_outcome ctx p :
  known (name p) = true ->
  outcome (register_static ctx p) =
  if rank_unsafe ctx p then inl (CantDumpWithMPI (name p)) else inr tt.
Proof.
  intros Hk. rewrite register_static_unfold.
  destruct (rank_unsafe ctx p); [reflexivity|].
  destruct (known_registration p Constant 0 Hk) as (ev & ->). reflexivity.
Qed.

Lemma find_fst {A B C} (f : A -> bool) (g : A -> C) (c : C) (l : list (A * B)) :
  match find (fun item => f (fst item)) l with
  | Some item => g (fst item)
  | None => c
  end = match find f (map fst l) with Some a => g a | None => c end.
Proof.
  induction l as [|[a b] l IH]; [reflexivity|].
  simpl. destruct (f a); [reflexivity | exact IH].
Qed.

Lemma dynamics_outcome ctx sd :
  (forall p, In p (map fst sd) -> known (name p) = true) ->
  outcome (for_each sd (register_dynamic ctx)) =
  match find (rank_unsafe ctx) (map fst sd) with
  | Some p => inl (CantDumpWithMPI (name p))
  | None => inr tt
  end.
Proof.
  intros Hk.
  rewrite <- (find_fst (rank_unsafe ctx) (fun p => inl (CantDumpWithMPI (name p)))).
  apply (for_each_guard (fun item => rank_unsafe ctx (fst item))
                        (fun item => CantDumpWithMPI (name (fst item)))).
  intros item Hin. apply register_dynamic_outcome, Hk. now apply in_map.
Qed.

Lemma statics_outcome ctx l :
  (forall p, In p l -> known (name p) = true) ->
  outcome (for_each l (register_static ctx)) =
  match find (rank_unsafe ctx) l with
  | Some p => inl (CantDumpWithMPI (name p))
  | None => inr tt
  end.
Proof.
  intros Hk.
  apply (for_each_guard (rank_unsafe ctx) (fun p => CantDumpWithMPI (name p))).
  intros p Hin. now apply register_static_outcome, Hk.
Qed.

(** Where each call of a construction comes from. *)
Lemma getar_init_calls_inv ctx filename mode static dynamic reg ev :
  In ev (calls (getar_init ctx filename mode static dynamic reg)) ->
  ev = analyzer_init
  \/ (exists dumpMode,
        dict_get String.eqb dump_modes mode = Some dumpMode
        /\ ev = GetarDumpWriter filename (effective_mode ctx filename dumpMode)
                  (getCurrentTimeStep ctx))
  \/ (exists p, In p (set_iter ctx (_expandNames static))
                /\ registration p Constant 0 = Some ev)
  \/ (exists p per z, In (p, per) (fst (dynamic_loop dynamic))
                      /\ In z (periods_of per)
                      /\ registration p Discrete z = Some ev)
  \/ ev = getPeriod \/ ev = setupAnalyzer.
Proof.
  rewrite getar_init_unfold.
  assert (Hpre : In ev (if reg then [analyzer_init] else []) -> ev = analyzer_init).
  { destruct reg; simpl; intuition. }
  assert (Hpost : In ev (if reg then [getPeriod; setupAnalyzer] else []) ->
                  ev = getPeriod \/ ev = setupAnalyzer).
  { destruct reg; simpl; intuition. }
  assert (Hst : In ev (calls (for_each (set_iter ctx (_expandNames static))
                                       (register_static ctx))) ->
                exists p, In p (set_iter ctx (_expandNames static))
                          /\ registration p Constant 0 = Some ev).
  { intros Hin. apply for_each_calls_inv in Hin. destruct Hin as (p & Hp & Hev).
    exists p. split; [exact Hp | now apply register_static_calls in Hev]. }
  assert (Hdy : In ev (calls (for_each (fst (dynamic_loop dynamic))
                                       (register_dynamic ctx))) ->
                exists p per z, In (p, per) (fst (dynamic_loop dynamic))
                                /\ In z (periods_of per)
                                /\ registration p Discrete z = Some ev).
  { intros Hin. apply for_each_calls_inv in Hin.
    destruct Hin as ([p per] & Hp & Hev).
    apply register_dynamic_calls in Hev. destruct Hev as (z & Hz & Hev).
    now exists p, per, z. }
  intros Hin.
  destruct (outcome (validate _ _ _)); [left; now apply Hpre|].
  destruct (dict_get String.eqb dump_modes mode) as [m|];
    [|left; now apply Hpre].
  destruct (outcome (for_each (set_iter _ _) _));
    [|destruct (outcome (for_each (fst _) _))];
    cbv zeta in Hin; unfold calls at 1 in Hin; cbn [fst] in Hin;
    rewrite ?in_app_iff in Hin;
    repeat match type of Hin with _ \/ _ => destruct Hin as [Hin|Hin] end;
    try (destruct Hin as [<-|[]]); eauto 10.
Qed.

Lemma mode_token_known mode :
  In mode ["w"; "a"; "1"] ->
  exists dumpMode, dict_get String.eqb dump_modes mode = Some dumpMode.
Proof.
  intros [<-|[<-|[<-|[]]]]; eexists; reflexivity.
Qed.

Lemma mode_token_unknown mode :
  ~ In mode ["w"; "a"; "1"] -> dict_get String.eqb dump_modes mode = None.
Proof.
  intros Hnin. simpl.
  destruct (String.eqb_spec mode "w") as [->|_]; [exfalso; apply Hnin; simpl; auto|].
  destruct (String.eqb_spec mode "a") as [->|_]; [exfalso; apply Hnin; simpl; auto|].
  destruct (String.eqb_spec mode "1") as [->|_]; [exfalso; apply Hnin; simpl; auto|].
  reflexivity.
Qed.

(** Validation passes when every resolved name is in the catalog and the
    static test has something to read. *)
Lemma validate_resolved static dynamic :
  all_known (resolved static dynamic) = true ->
  static = [] \/ dynamic <> [] ->
  outcome (validate (_expandNames static) (fst (dynamic_loop dynamic))
                    (snd (dynamic_loop dynamic))) = inr tt.
Proof.
  unfold all_known, resolved. rewrite forallb_forall. intros Hk Hprop.
  apply validate_passes.
  - destruct Hprop as [->|Hne]; [now left | right].
    destruct (dynamic_loop_prop_bound _ Hne) as (p & Hp & Hin).
    exists p. split; [exact Hp|]. apply Hk, in_or_app. now right.
  - intros p Hp. apply Hk, in_or_app. right. now apply dynamic_keys.
Qed.

Lemma str_in_In x l : str_in x l = true <-> In x l.
Proof.
  unfold str_in. rewrite existsb_exists. split.
  - intros (y & Hy & Heq). apply String.eqb_eq in Heq. now subst.
  - intros Hin. exists x. split; [exact Hin | apply String.eqb_refl].
Qed.

Lemma rank_unsafe_iff_bad ctx p :
  rank_unsafe ctx p = true <->
  (1 < num_ranks ctx)%Z /\ In (name p) bad_mpi_properties.
Proof.
  unfold rank_unsafe. rewrite andb_true_iff, Z.ltb_lt, str_in_In. reflexivity.
Qed.

(** ** The claims about construction *)

(** C5. Construction never closes the archive handle.  When it fails after
    the handle has been opened, the exception leaves [__init__] with the
    handle open: the log holds the opening and the registrations made so
    far, and no [close]. *)
Theorem construction_never_closes ctx filename mode static dynamic reg :
  ~ In close (calls (getar_init ctx filename mode static dynamic reg)).
Proof.
  intros Hin. apply getar_init_calls_inv in Hin.
  destruct Hin as [H|[(m & _ & H)|[(p & _ & H)|[(p & per & z & _ & _ & H)|[H|H]]]]];
    try discriminate H;
    apply registration_shape in H; destruct H as (i & r & H); discriminate H.
Qed.

Lemma validate_outcome_bound ss sd p :
  outcome (validate ss sd (Some p)) =
  match ss with
  | val :: _ =>
      if negb (known (name p)) then inl (UnknownStaticProperty val)
      else match find (fun q => negb (known (name q))) (map fst sd) with
           | Some q => inl (UnknownDynamicProperty q)
           | None => inr tt
           end
  | [] =>
      match find (fun q => negb (known (name q))) (map fst sd) with
      | Some q => inl (UnknownDynamicProperty q)
      | None => inr tt
      end
  end.
Proof.
  assert (Hd : outcome (for_each (map fst sd) check_dynamic) =
               match find (fun q => negb (known (name q))) (map fst sd) with
               | Some q => inl (UnknownDynamicProperty q)
               | None => inr tt
               end).
  { apply (for_each_guard (fun q => negb (known (name q))) UnknownDynamicProperty).
    intros q _. unfold check_dynamic. now destruct (negb (known (name q))). }
  unfold validate. rewrite outcome_bind.
  rewrite (for_each_guard (fun _ => negb (known (name p))) UnknownStaticProperty
                          ss (check_static (Some p)))
    by (intros val _; simpl; now destruct (negb (known (name p)))).
  destruct (negb (known (name p))).
  - destruct ss as [|val ss]; [exact Hd | reflexivity].
  - assert (Hnone : find (fun _ : DumpProp => false) ss = None)
      by (induction ss; auto).
    rewrite Hnone. destruct ss; exact Hd.
Qed.

(** A dynamic request that resolves to a name outside the catalog makes
    validation raise one of the two unknown-property errors. *)
Lemma validate_unknown_dynamic static dynamic :
  all_known (map fst (assignments dynamic)) = false ->
  exists val,
    outcome (validate (_expandNames static) (fst (dynamic_loop dynamic))
                      (snd (dynamic_loop dynamic)))
    = inl (UnknownStaticProperty val)
    \/ outcome (validate (_expandNames static) (fst (dynamic_loop dynamic))
                         (snd (dynamic_loop dynamic)))
       = inl (UnknownDynamicProperty val).
Proof.
  intros Hunknown.
  assert (Hbad : exists q, In q (map fst (fst (dynamic_loop dynamic)))
                           /\ negb (known (name q)) = true).
  { unfold all_known in Hunknown.
    destruct (existsb (fun q => negb (known (name q)))
                      (map fst (assignments dynamic))) eqn:Hex.
    - apply existsb_exists in Hex. destruct Hex as (q & Hq & Hk).
      exists q. split; [now apply dynamic_keys | exact Hk].
    - exfalso. rewrite <- not_true_iff_false in Hunknown. apply Hunknown.
      apply forallb_forall. intros q Hq.
      rewrite <- not_true_iff_false, existsb_exists in Hex.
      destruct (known (name q)) eqn:Hk; [reflexivity|].
      exfalso. apply Hex. exists q. split; [exact Hq | now rewrite Hk]. }
  destruct Hbad as (q & Hq & Hk).
  assert (Hne : dynamic <> []).
  { intros ->. destruct Hq. }
  destruct (dynamic_loop_prop_bound _ Hne) as (p & Hp & _).
  rewrite Hp, validate_outcome_bound.
  destruct (find (fun q => negb (known (name q)))
                 (map fst (fst (dynamic_loop dynamic)))) as [q'|] eqn:Hfind.
  - destruct (_expandNames static) as [|val ss];
      [|destruct (negb (known (name p)))]; eexists; eauto.
  - pose proof (find_none _ _ Hfind q Hq) as Hcontra. simpl in Hcontra.
    rewrite Hk in Hcontra. discriminate Hcontra.
Qed.

(** C6. With no file at the target path, constructing with mode ["a"]
    is the same as constructing with mode ["w"]: the same calls are made,
    the same object or exception results, and the archive is opened with
    the [Overwrite] mode.  The archive is opened, on the given file and at
    the current time step, right after the analyzer is initialized,
    whenever the validation of the properties raises nothing, as it does
    when every resolved name is in the catalog and the dynamic mapping is
    not empty (or there is no static request); otherwise the construction
    ends with the validation error, in both modes, before the writer is
    touched. *)
Theorem append_without_file_is_overwrite ctx filename static dynamic
    (reg : bool) :
  isfile ctx filename = false ->
  getar_init ctx filename "a" static dynamic reg
  = getar_init ctx filename "w" static dynamic reg
  /\ (forall f m t,
        In (GetarDumpWriter f m t)
           (calls (getar_init ctx filename "a" static dynamic reg)) ->
        m = Overwrite)
  /\ match outcome (validate (_expandNames static) (fst (dynamic_loop dynamic))
                             (snd (dynamic_loop dynamic))) with
     | inl e =>
         getar_init ctx filename "a" static dynamic reg
         = (if reg then [analyzer_init] else [], inl e)
     | inr _ =>
         exists post,
           calls (getar_init ctx filename "a" static dynamic reg)
           = (if reg then [analyzer_init] else [])
               ++ GetarDumpWriter filename Overwrite (getCurrentTimeStep ctx)
               :: post
     end
  /\ (all_known (resolved static dynamic) = true ->
      static = [] \/ dynamic <> [] ->
      exists post,
        calls (getar_init ctx filename "a" static dynamic reg)
        = (if reg then [analyzer_init] else [])
            ++ GetarDumpWriter filename Overwrite (getCurrentTimeStep ctx)
            :: post).
Proof.
  intros Hfile.
  assert (Heff : effective_mode ctx filename Append = Overwrite).
  { unfold effective_mode. now rewrite Hfile. }
  assert (Hopen :
    match outcome (validate (_expandNames static) (fst (dynamic_loop dynamic))
                            (snd (dynamic_loop dynamic))) with
    | inl e =>
        getar_init ctx filename "a" static dynamic reg
        = (if reg then [analyzer_init] else [], inl e)
    | inr _ =>
        exists post,
          calls (getar_init ctx filename "a" static dynamic reg)
          = (if reg then [analyzer_init] else [])
              ++ GetarDumpWriter filename Overwrite (getCurrentTimeStep ctx)
              :: post
    end).
  { rewrite getar_init_unfold.
    change (dict_get String.eqb dump_modes "a") with (Some Append).
    cbv beta iota zeta. rewrite Heff.
    destruct (outcome (validate _ _ _)) as [e|[]]; [reflexivity|].
    destruct (outcome (for_each (set_iter ctx (_expandNames static)) _))
      as [e|[]];
      [|destruct (outcome (for_each (fst (dynamic_loop dynamic)) _))
          as [e|[]]];
      eexists; unfold calls; cbn [fst]; rewrite <- !app_assoc; reflexivity. }
  split; [|split; [|split; [exact Hopen|]]].
  - rewrite !getar_init_unfold.
    change (dict_get String.eqb dump_modes "a") with (Some Append).
    change (dict_get String.eqb dump_modes "w") with (Some Overwrite).
    cbv beta iota zeta. rewrite Heff. reflexivity.
  - intros f m t Hin. apply getar_init_calls_inv in Hin.
    destruct Hin as [H|[(m' & Hm & H)|[(p & _ & H)|[(p & per & z & _ & _ & H)|[H|H]]]]];
      try discriminate H.
    + injection Hm as <-. rewrite Heff in H. now injection H.
    + apply registration_shape in H. destruct H as (i & r & H). discriminate H.
    + apply registration_shape in H. destruct H as (i & r & H). discriminate H.
  - intros Hk Hprop. now rewrite (validate_resolved _ _ Hk Hprop) in Hopen.
Qed.

(** C7. With a mode token other than ["w"], ["a"] and ["1"] construction
    fails and the writer is never called: the archive is not opened and no
    property is registered.  The properties are validated before the mode
    is looked at: when the validation raises, its exception is the one the
    construction ends with, as with a dynamic request that resolves to a
    name outside the catalog, which gives an unknown-property error; the
    exception is the unknown-mode error when the validation raises nothing,
    as it does when every resolved name is in the catalog and the dynamic
    mapping is not empty (or there is no static request). *)
Theorem unknown_mode_no_writer_call ctx filename mode static dynamic (reg : bool) :
  ~ In mode ["w"; "a"; "1"] ->
  getar_init ctx filename mode static dynamic reg
  = (if reg then [analyzer_init] else [],
     match outcome (validate (_expandNames static) (fst (dynamic_loop dynamic))
                             (snd (dynamic_loop dynamic))) with
     | inl e => inl e
     | inr _ => inl (UnknownOpenMode mode)
     end)
  /\ (all_known (resolved static dynamic) = true ->
      static = [] \/ dynamic <> [] ->
      outcome (getar_init ctx filename mode static dynamic reg)
      = inl (UnknownOpenMode mode))
  /\ (all_known (map fst (assignments dynamic)) = false ->
      exists val,
        outcome (getar_init ctx filename mode static dynamic reg)
        = inl (UnknownStaticProperty val)
        \/ outcome (getar_init ctx filename mode static dynamic reg)
           = inl (UnknownDynamicProperty val)).
Proof.
  intros Hmode. apply mode_token_unknown in Hmode.
  rewrite getar_init_unfold, Hmode. cbv zeta. split; [|split].
  - destruct (outcome (validate _ _ _)) as [e|[]]; reflexivity.
  - intros Hk Hprop. now rewrite (validate_resolved _ _ Hk Hprop).
  - intros Hunknown.
    destruct (validate_unknown_dynamic static dynamic Hunknown) as (val & [H|H]);
      exists val; rewrite H; [left | right]; reflexivity.
Qed.

Lemma first_seen_semantics : set_semantics first_seen.
Proof.
  intros l. induction l as [|p l [IHnd IHin]]; simpl.
  - split; [constructor | intuition].
  - split.
    + constructor.
      * rewrite filter_In. intros [_ H].
        destruct (DumpProp_eqb_spec p p); [discriminate H | congruence].
      * now apply NoDup_filter.
    + intros q. rewrite filter_In, IHin. split.
      * intros [->|[H _]]; auto.
      * intros [->|H]; [now left|].
        destruct (DumpProp_eqb_spec q p) as [->|Hne]; [now left | right].
        now split.
Qed.

Lemma find_app {A} (f : A -> bool) (l l' : list A) :
  find f (l ++ l') = match find f l with Some a => Some a | None => find f l' end.
Proof.
  induction l as [|a l IH]; [reflexivity|].
  simpl. destruct (f a); [reflexivity | exact IH].
Qed.

Lemma filter_nothing {A} (f : A -> bool) (l : list A) :
  (forall a, In a l -> f a = false) -> filter f l = [].
Proof.
  induction l as [|a l IH]; intros H; [reflexivity|].
  simpl. rewrite (H a (or_introl eq_refl)). apply IH. intros b Hb. apply H. now right.
Qed.

Lemma filter_everything {A} (f : A -> bool) (l : list A) :
  (forall a, In a l -> f a = true) -> filter f l = l.
Proof.
  induction l as [|a l IH]; intros H; [reflexivity|].
  simpl. rewrite (H a (or_introl eq_refl)). f_equal. apply IH. intros b Hb. apply H. now right.
Qed.

(** The outcome of a construction whose requests pass validation: the
    only exception left is the rank test, met first for the static
    properties in the order of the set, then for the dynamic ones. *)
Lemma getar_init_outcome_valid ctx filename mode static dynamic reg :
  set_semantics (set_iter ctx) ->
  In mode ["w"; "a"; "1"] ->
  all_known (resolved static dynamic) = true ->
  static = [] \/ dynamic <> [] ->
  outcome (getar_init ctx filename mode static dynamic reg) =
  match find (rank_unsafe ctx)
             (set_iter ctx (_expandNames static)
              ++ map fst (fst (dynamic_loop dynamic))) with
  | Some p => inl (CantDumpWithMPI (name p))
  | None => inr {| _static := _expandNames static;
                   _dynamic := fst (dynamic_loop dynamic) |}
  end.
Proof.
  intros Hset Hmode Hk Hprop.
  destruct (mode_token_known _ Hmode) as (m & Hm).
  rewrite getar_init_unfold, (validate_resolved _ _ Hk Hprop), Hm.
  unfold all_known, resolved in Hk. rewrite forallb_forall in Hk.
  rewrite statics_outcome, dynamics_outcome, find_app.
  - destruct (find (rank_unsafe ctx) (set_iter ctx (_expandNames static)));
      [reflexivity|].
    destruct (find (rank_unsafe ctx) (map fst (fst (dynamic_loop dynamic))));
      reflexivity.
  - intros p Hp. apply Hk, in_or_app. right. now apply dynamic_keys.
  - intros p Hp. apply Hk, in_or_app. left. now apply (Hset (_expandNames static)).
Qed.

(** The exceptions of validation are its own. *)
Lemma validate_raises ss sd prop e :
  outcome (validate ss sd prop) = inl e ->
  forall n, e <> CantDumpWithMPI n.
Proof.
  unfold validate. rewrite outcome_bind.
  destruct (outcome (for_each ss (check_static prop))) as [e'|[]] eqn:Hs.
  - intros [= ->] n. apply for_each_raises in Hs. destruct Hs as (v & _ & Hv).
    unfold check_static in Hv. destruct prop as [p|]; [|now injection Hv as <-].
    destruct (negb (known (name p))); [now injection Hv as <- | discriminate Hv].
  - intros Hd n. apply for_each_raises in Hd. destruct Hd as (v & _ & Hv).
    unfold check_dynamic in Hv.
    destruct (negb (known (name v))); [now injection Hv as <- | discriminate Hv].
Qed.

Lemma register_raises p b z e :
  outcome (register p b z) = inl e -> e = KeyError (name p).
Proof.
  rewrite register_registration. destruct (registration p b z); [discriminate|].
  now intros [= <-].
Qed.

(** The rank-unsafe error of a registration names a rank-unsafe property. *)
Lemma register_static_mpi ctx p n :
  outcome (register_static ctx p) = inl (CantDumpWithMPI n) ->
  rank_unsafe ctx p = true /\ n = name p.
Proof.
  rewrite register_static_unfold. destruct (rank_unsafe ctx p).
  - intros [= <-]. now split.
  - destruct (registration p Constant 0); discriminate.
Qed.

Lemma register_dynamic_mpi ctx item n :
  outcome (register_dynamic ctx item) = inl (CantDumpWithMPI n) ->
  rank_unsafe ctx (fst item) = true /\ n = name (fst item).
Proof.
  unfold register_dynamic. destruct item as [p per]. simpl fst; simpl snd.
  destruct (rank_unsafe ctx p); [intros [= <-]; now split|].
  destruct per as [z|zs]; intros H.
  - apply register_raises in H. discriminate H.
  - apply for_each_raises in H. destruct H as (z & _ & H).
    apply register_raises in H. discriminate H.
Qed.

(** Whenever a construction ends in the rank-unsafe error, the error names
    a resolved property that is rank-unsafe. *)
Lemma getar_init_mpi ctx filename mode static dynamic reg n :
  set_semantics (set_iter ctx) ->
  outcome (getar_init ctx filename mode static dynamic reg)
  = inl (CantDumpWithMPI n) ->
  exists p, In p (resolved static dynamic)
            /\ rank_unsafe ctx p = true /\ n = name p.
Proof.
  intros Hset. rewrite getar_init_unfold.
  destruct (outcome (validate _ _ _)) as [e|[]] eqn:Hv.
  { intros [= ->]. now destruct (validate_raises _ _ _ _ Hv n). }
  destruct (dict_get String.eqb dump_modes mode) as [m|]; [|discriminate].
  destruct (outcome (for_each (set_iter _ _) _)) as [e|[]] eqn:Hs.
  { intros [= ->]. apply for_each_raises in Hs. destruct Hs as (p & Hp & Hs).
    apply register_static_mpi in Hs. exists p. split; [|exact Hs].
    apply in_or_app. left. now apply (Hset (_expandNames static)). }
  destruct (outcome (for_each (fst _) _)) as [e|[]] eqn:Hd; [|discriminate].
  intros [= ->]. apply for_each_raises in Hd. destruct Hd as (item & Hitem & Hd).
  apply register_dynamic_mpi in Hd. exists (fst item). split; [|exact Hd].
  apply in_or_app. right. apply dynamic_keys. now apply in_map.
Qed.

(** C2. Whenever the rank-unsafe error is raised, more than one rank
    participates and the error names a resolved (static or dynamic)
    property called [potential_energy] or [virial].  Conversely, when
    property validation and mode resolution succeed (every resolved name
    is in the catalog, the mode token is valid, and the dynamic mapping is
    not empty or nothing static is requested), more than one rank together
    with such a resolved property makes the construction end in the
    rank-unsafe error, and the same request with at most one rank
    succeeds. *)
Theorem rank_unsafe_iff ctx filename mode static dynamic reg :
  set_semantics (set_iter ctx) ->
  (forall n,
     outcome (getar_init ctx filename mode static dynamic reg)
     = inl (CantDumpWithMPI n) ->
     (1 < num_ranks ctx)%Z
     /\ In n bad_mpi_properties
     /\ exists p, In p (resolved static dynamic) /\ name p = n)
  /\ (In mode ["w"; "a"; "1"] ->
      all_known (resolved static dynamic) = true ->
      static = [] \/ dynamic <> [] ->
      ((1 < num_ranks ctx)%Z
       /\ (exists p, In p (resolved static dynamic)
                     /\ In (name p) bad_mpi_properties) ->
       exists n, outcome (getar_init ctx filename mode static dynamic reg)
                 = inl (CantDumpWithMPI n))
      /\ ((num_ranks ctx <= 1)%Z ->
          exists self,
            outcome (getar_init ctx filename mode static dynamic reg)
            = inr self)).
Proof.
  intros Hset. split.
  - intros n Hn. apply getar_init_mpi in Hn; [|exact Hset].
    destruct Hn as (p & Hp & Hbad & ->). apply rank_unsafe_iff_bad in Hbad.
    destruct Hbad as [Hranks Hname]. repeat split; [exact Hranks | exact Hname|].
    now exists p.
  - intros Hmode Hk Hprop.
    rewrite (getar_init_outcome_valid _ _ _ _ _ _ Hset Hmode Hk Hprop).
    assert (Hres : forall p,
              In p (set_iter ctx (_expandNames static)
                    ++ map fst (fst (dynamic_loop dynamic)))
              <-> In p (resolved static dynamic)).
    { intros p. unfold resolved. rewrite !in_app_iff, dynamic_keys.
      now rewrite (proj2 (Hset (_expandNames static)) p). }
    destruct (find (rank_unsafe ctx) _) as [q|] eqn:Hfind.
    + apply find_some in Hfind. destruct Hfind as [Hq Hbad].
      apply rank_unsafe_iff_bad in Hbad. destruct Hbad as [Hranks Hname].
      split.
      * intros _. now exists (name q).
      * intros Hle. exfalso. apply (Z.lt_irrefl 1).
        now apply Z.lt_le_trans with (num_ranks ctx).
    + split.
      * intros (Hranks & p & Hp & Hname). exfalso.
        pose proof (find_none _ _ Hfind p (proj2 (Hres p) Hp)) as Hsafe.
        assert (Hunsafe : rank_unsafe ctx p = true)
          by (apply rank_unsafe_iff_bad; now split).
        rewrite Hunsafe in Hsafe. discriminate Hsafe.
      * intros _. eexists. reflexivity.
Qed.

(** ** Dynamic registrations *)

Lemma dynamics_calls ctx sd :
  outcome (for_each sd (register_dynamic ctx)) = inr tt ->
  map Some (calls (for_each sd (register_dynamic ctx))) =
  flat_map (fun item => map (registration (fst item) Discrete)
                            (periods_of (snd item))) sd.
Proof.
  intros Hout. pose proof (for_each_returns _ _ Hout) as Hall.
  rewrite (for_each_completes _ _ Hall). simpl calls. clear Hout.
  induction sd as [|item sd IH]; [reflexivity|].
  simpl. rewrite map_app.
  rewrite (proj2 (register_dynamic_returns _ _ (Hall item (or_introl eq_refl)))).
  f_equal. apply IH. intros a Ha. apply Hall. now right.
Qed.

Lemma statics_not_discrete ctx l ev :
  In ev (calls (for_each l (register_static ctx))) -> is_discrete ev = false.
Proof.
  intros Hin. apply for_each_calls_inv in Hin. destruct Hin as (p & _ & Hev).
  apply register_static_calls, registration_shape in Hev.
  destruct Hev as (i & r & ->). reflexivity.
Qed.

Lemma dynamics_discrete ctx sd ev :
  In ev (calls (for_each sd (register_dynamic ctx))) -> is_discrete ev = true.
Proof.
  intros Hin. apply for_each_calls_inv in Hin. destruct Hin as (item & _ & Hev).
  apply register_dynamic_calls in Hev. destruct Hev as (z & _ & Hev).
  apply registration_shape in Hev. destruct Hev as (i & r & ->). reflexivity.
Qed.


(** What a construction that succeeds has done. *)
Lemma getar_init_success ctx filename mode static dynamic reg log self :
  getar_init ctx filename mode static dynamic reg = (log, inr self) ->
  self = {| _static := _expandNames static;
            _dynamic := fst (dynamic_loop dynamic) |}
  /\ outcome (for_each (fst (dynamic_loop dynamic)) (register_dynamic ctx)) = inr tt
  /\ filter is_discrete log
     = calls (for_each (fst (dynamic_loop dynamic)) (register_dynamic ctx))
  /\ outcome (for_each (set_iter ctx (_expandNames static))
                       (register_static ctx)) = inr tt
  /\ incl (calls (for_each (set_iter ctx (_expandNames static))
                           (register_static ctx))) log.
Proof.
  rewrite getar_init_unfold.
  destruct (outcome (validate _ _ _)) as [e|[]]; [discriminate|].
  destruct (dict_get String.eqb dump_modes mode) as [m|]; [|discriminate].
  destruct (outcome (for_each (set_iter _ _) _)) as [e|[]]; [discriminate|].
  destruct (outcome (for_each (fst _) _)) as [e|[]] eqn:Hdyn; [discriminate|].
  cbv zeta. intros [= <- <-]. split; [reflexivity|]. split; [reflexivity|].
  split; [|split; [reflexivity|]].
  - rewrite !filter_app.
    rewrite (filter_nothing _ _ (statics_not_discrete ctx _)).
    rewrite (filter_everything _ _ (dynamics_discrete ctx _)).
    destruct reg; simpl; now rewrite app_nil_r.
  - intros ev Hev. apply in_or_app. right. apply in_or_app. now left.
Qed.

(** C3. A construction that succeeds has made, for the entries of
    [self._dynamic] in order, one periodic registration for each element of
    the entry's period value, repeated elements included (a single integer
    gives one registration).  [self._dynamic] has one entry for each
    resolved dynamic property, and its period value is the one of the last
    request that resolves to the property: a later request replaces the
    periods of an earlier one, they are not merged. *)
Theorem dynamic_registrations ctx filename mode static dynamic reg log self :
  getar_init ctx filename mode static dynamic reg = (log, inr self) ->
  map Some (filter is_discrete log)
  = flat_map (fun item => map (registration (fst item) Discrete)
                              (periods_of (snd item)))
             (_dynamic self)
  /\ NoDup (map fst (_dynamic self))
  /\ (forall p, In p (map fst (_dynamic self))
                <-> In p (map fst (assignments dynamic)))
  /\ (forall asg1 p per asg2,
        assignments dynamic = asg1 ++ (p, per) :: asg2 ->
        ~ In p (map fst asg2) ->
        In (p, per) (_dynamic self)).
Proof.
  intros Hinit. apply getar_init_success in Hinit.
  destruct Hinit as (-> & Hdyn & -> & _). simpl _dynamic.
  split; [now apply dynamics_calls|].
  split; [apply dynamic_keys_NoDup|].
  split; [apply dynamic_keys|].
  intros asg1 p per asg2 Hasg Hlast.
  apply (dict_get_some_entry _ DumpProp_eqb_spec).
  rewrite dynamic_loop_assignments, Hasg. now apply fold_assign_last.
Qed.

(** ** Periods are not inspected *)




(** ** [simple] *)




(** ** [writeJSON] *)








(** The markers are containers of the heap, each once, and the budget
    left is above the number of containers that can still be entered. *)
Definition enough (h : heap) (budget : nat) (markers : list nat) : Prop :=
  NoDup markers /\ (forall m, In m markers -> m < List.length h) /\
  List.length h < budget + List.length markers.







(** * The claims on concrete constructions *)

(** The construction with [static=['viz_static']] and
    [dynamic={'position': 100}]: three static registrations and one
    periodic one. *)
Example viz_static_and_position :
  getar_init (example_context 1 0 false) "dump.zip" "w"
             [PName "viz_static"] [(PName "position", PInt 100)] true
  = ([analyzer_init; GetarDumpWriter "dump.zip" Overwrite 0;
      setPeriod Type_ Individual Constant false FastCompress 0;
      setPeriod TypeNames Text Constant false FastCompress 0;
      setPeriod Dimensions Uniform Constant false FastCompress 0;
      setPeriod Position Individual Discrete false FastCompress 100;
      getPeriod; setupAnalyzer],
     inr {| _static := [DumpProp_new "type"; DumpProp_new "type_names";
                        DumpProp_new "dimensions"];
            _dynamic := [(DumpProp_new "position", PInt 100)] |}).
Proof. reflexivity. Qed.

(** [immediate] opens, registers, forces one write and closes. *)
Example immediate_snapshot :
  immediate (example_context 1 7 false) "snapshot.tar" [] [PName "box"]
  = ([GetarDumpWriter "snapshot.tar" Overwrite 7;
      setPeriod Box Uniform Discrete false FastCompress 1;
      analyze 7; close], inr tt).
Proof. reflexivity. Qed.

(** C1. An unknown dynamic name ends the construction in the
    unknown-property error before the writer is called.  The test of the
    static names, however, reads the loop variable [prop] left by the
    dynamic loops instead of [val]: an unknown static name next to a known
    dynamic one passes validation, the archive is opened, and the
    construction ends in the [KeyError] of the catalog lookup at
    registration; and with no dynamic request at all a known static name
    ends the construction in an [UnboundLocalError]. *)
Theorem unknown_static_name_unreported :
  getar_init (example_context 1 0 false) "dump.zip" "w"
             [] [(PName "foo", PInt 10)] false
  = ([], inl (UnknownDynamicProperty (DumpProp_new "foo")))
  /\ getar_init (example_context 1 0 false) "dump.zip" "w"
                [PName "foo"] [(PName "position", PInt 10)] false
     = ([GetarDumpWriter "dump.zip" Overwrite 0], inl (KeyError "foo"))
  /\ getar_init (example_context 1 0 false) "dump.zip" "w"
                [PName "position"] [] false
     = ([], inl (UnboundLocalError "prop")).
Proof. repeat split. Qed.

(** With four ranks, a rank-unsafe dynamic property and the mode token
    ["x"], the exception is the unknown-mode error. *)
Lemma rank_unsafe_iff_counterexample :
  ~ ((exists n,
        outcome (getar_init (example_context 4 0 false) "dump.zip" "x" []
                            [(PName "potential_energy", PInt 10)] true)
        = inl (CantDumpWithMPI n))
     <-> (1 < num_ranks (example_context 4 0 false))%Z
         /\ exists p, In p (resolved [] [(PName "potential_energy", PInt 10)])
                      /\ In (name p) bad_mpi_properties).
Proof.
  intros [_ H]. destruct H as [n Hn].
  - split; [reflexivity|]. exists (DumpProp_new "potential_energy").
    split; now left.
  - vm_compute in Hn. discriminate Hn.
Qed.

Lemma rank_unsafe_iff_witness :
  exists n,
    outcome (getar_init (example_context 4 0 false) "dump.zip" "w"
                        [PName "viz_static"]
                        [(PName "potential_energy", PInt 10)] true)
    = inl (CantDumpWithMPI n).
Proof.
  destruct (rank_unsafe_iff (example_context 4 0 false) "dump.zip" "w"
              [PName "viz_static"] [(PName "potential_energy", PInt 10)] true
              first_seen_semantics) as [_ Hvalid].
  apply Hvalid.
  - simpl. auto.
  - reflexivity.
  - right. discriminate.
  - split; [reflexivity|]. exists (DumpProp_new "potential_energy").
    split; [|now left]. vm_compute. auto.
Defined.

(** A sequence with a repeated period gives a registration for each
    element, and a later request for a property replaces the period of an
    earlier one. *)
Lemma dynamic_registrations_counterexample :
  filter is_discrete
    (calls (getar_init (example_context 1 0 false) "dump.zip" "w" []
                       [(PName "position", PSeq [10; 10; 20]%Z)] false))
  = [setPeriod Position Individual Discrete false FastCompress 10;
     setPeriod Position Individual Discrete false FastCompress 10;
     setPeriod Position Individual Discrete false FastCompress 20]
  /\ filter is_discrete
       (calls (getar_init (example_context 1 0 false) "dump.zip" "w" []
                          [(PName "viz_dynamic", PInt 10);
                           (PName "position", PInt 20)] false))
     = [setPeriod Position Individual Discrete false FastCompress 20;
        setPeriod Box Uniform Discrete false FastCompress 10].
Proof. split; reflexivity. Qed.

Lemma dynamic_registrations_witness :
  let log := [GetarDumpWriter "dump.zip" Overwrite 0;
              setPeriod Position Individual Discrete false FastCompress 20;
              setPeriod Box Uniform Discrete false FastCompress 10] in
  let self := {| _static := [];
                 _dynamic := [(DumpProp_new "position", PInt 20);
                              (DumpProp_new "box", PInt 10)] |} in
  let dynamic := [(PName "viz_dynamic", PInt 10); (PName "position", PInt 20)] in
  map Some (filter is_discrete log)
  = flat_map (fun item => map (registration (fst item) Discrete)
                              (periods_of (snd item)))
             (_dynamic self)
  /\ NoDup (map fst (_dynamic self))
  /\ (forall p, In p (map fst (_dynamic self))
                <-> In p (map fst (assignments dynamic)))
  /\ (forall asg1 p per asg2,
        assignments dynamic = asg1 ++ (p, per) :: asg2 ->
        ~ In p (map fst asg2) ->
        In (p, per) (_dynamic self)).
Proof.
  intros log self dynamic.
  apply (dynamic_registrations (example_context 1 0 false) "dump.zip" "w" []
                               dynamic false log self).
  reflexivity.
Defined.



(** With eight ranks the construction fails at [virial], after the
    archive was opened and [position] registered; nothing closes it. *)
Lemma construction_never_closes_counterexample :
  getar_init (example_context 8 0 false) "dump.zip" "w"
             [PName "position"] [(PName "virial", PInt 5)] false
  = ([GetarDumpWriter "dump.zip" Overwrite 0;
      setPeriod Position Individual Constant false FastCompress 0],
     inl (CantDumpWithMPI "virial")).
Proof. reflexivity. Qed.

Lemma append_without_file_is_overwrite_witness :
  isfile (example_context 1 0 false) "dump.zip" = false
  /\ getar_init (example_context 1 0 false) "dump.zip" "a"
                [PName "viz_static"] [(PName "position", PInt 100)] true
     = getar_init (example_context 1 0 false) "dump.zip" "w"
                  [PName "viz_static"] [(PName "position", PInt 100)] true
  /\ exists post,
       calls (getar_init (example_context 1 0 false) "dump.zip" "a"
                         [PName "viz_static"] [(PName "position", PInt 100)]
                         true)
       = [analyzer_init] ++ GetarDumpWriter "dump.zip" Overwrite 0 :: post.
Proof.
  split; [reflexivity|].
  destruct (append_without_file_is_overwrite (example_context 1 0 false)
              "dump.zip" [PName "viz_static"] [(PName "position", PInt 100)]
              true eq_refl) as (Hsame & _ & _ & Hopened).
  split; [exact Hsame|].
  apply Hopened; [reflexivity | right; discriminate].
Defined.

(** With the mode token ["x"] and an unknown dynamic name the exception is
    the unknown-property error. *)
Lemma unknown_mode_counterexample :
  getar_init (example_context 1 0 false) "dump.zip" "x" []
             [(PName "foo", PInt 1)] false
  = ([], inl (UnknownDynamicProperty (DumpProp_new "foo"))).
Proof. reflexivity. Qed.

Lemma unknown_mode_no_writer_call_witness :
  ~ In "x" ["w"; "a"; "1"]
  /\ getar_init (example_context 1 0 false) "dump.zip" "x"
                [PName "viz_static"] [(PName "position", PInt 100)] true
     = ([analyzer_init], inl (UnknownOpenMode "x"))
  /\ exists val,
       outcome (getar_init (example_context 1 0 false) "dump.zip" "x"
                           [PName "viz_static"] [(PName "foo", PInt 100)] true)
       = inl (UnknownStaticProperty val)
       \/ outcome (getar_init (example_context 1 0 false) "dump.zip" "x"
                              [PName "viz_static"] [(PName "foo", PInt 100)]
                              true)
          = inl (UnknownDynamicProperty val).
Proof.
  assert (Hx : ~ In "x" ["w"; "a"; "1"]).
  { simpl. intros [H|[H|[H|[]]]]; discriminate H. }
  split; [exact Hx|]. split.
  - exact (proj1 (unknown_mode_no_writer_call (example_context 1 0 false)
                    "dump.zip" "x" [PName "viz_static"]
                    [(PName "position", PInt 100)] true Hx)).
  - apply (unknown_mode_no_writer_call (example_context 1 0 false) "dump.zip"
             "x" [PName "viz_static"] [(PName "foo", PInt 100)] true Hx).
    reflexivity.
Defined.

Lemma expandNames_idempotent_witness :
  _expandNames (map PDump (_expandNames [PName "all"; PName "foo"]))
  = _expandNames [PName "all"; PName "foo"]
  /\ _expandNames [PName "foo"] = [DumpProp_new "foo"].
Proof.
  destruct (expandNames_idempotent [PName "all"; PName "foo"]) as [Hidem Hpass].
  split; [exact Hidem|]. apply (Hpass (PName "foo")). reflexivity.
Defined.




(** * Further properties of [getar] *)

(** ** Expansion *)

(** X1. Expanding a concatenation of request sequences gives the
    concatenation of their expansions: requests are expanded one by one, in
    order, and independently of their neighbours. *)
Theorem expandNames_concat (R1 R2 : list propspec) :
  _expandNames (R1 ++ R2) = _expandNames R1 ++ _expandNames R2.
Proof.
  induction R1 as [|v R1 IH]; [reflexivity|].
  simpl app. rewrite !expandNames_cons, IH.
  destruct (dict_get String.eqb substitutions (name (_getStatic v)));
    [now rewrite app_assoc | reflexivity].
Qed.

Lemma expandNames_length (R : list propspec) :
  List.length R <= List.length (_expandNames R).
Proof.
  induction R as [|v R IH]; [apply Nat.le_refl|].
  change (v :: R) with ([v] ++ R) at 2. rewrite expandNames_app, length_app.
  assert (Hne : _expandNames [v] <> []) by (apply expandNames_nonempty; discriminate).
  destruct (_expandNames [v]); [congruence|]. simpl. lia.
Qed.

(** X2. Whatever is requested, an expansion holds primitive names only (no
    key of the substitution table is left), every property in it carries
    the precision and the compression of one of the requests, and no
    request is dropped: there are at least as many properties as requests. *)
Theorem expansion_resolved (R : list propspec) :
  (forall p, In p (_expandNames R) ->
     dict_mem String.eqb substitutions (name p) = false
     /\ exists v, In v R
                  /\ highPrecision p = highPrecision (_getStatic v)
                  /\ compression p = compression (_getStatic v))
  /\ List.length R <= List.length (_expandNames R).
Proof.
  split; [|apply expandNames_length].
  intros p Hp. split.
  - unfold dict_mem. now rewrite (expandNames_primitive _ _ Hp).
  - now apply expandNames_inherit.
Qed.

(** The names in an expansion depend on the requested names only. *)
Lemma expandNames_names vals :
  forall vals',
    map (fun v => name (_getStatic v)) vals
    = map (fun v => name (_getStatic v)) vals' ->
    map name (_expandNames vals) = map name (_expandNames vals').
Proof.
  funelim (_expandNames vals); intros vals' Hnames.
  - destruct vals'; [reflexivity | discriminate].
  - destruct vals' as [|v' rest']; [discriminate|].
    simpl in Hnames. injection Hnames as Hv Hrest.
    rewrite (expandNames_cons v' rest'), <- Hv, e, !map_app.
    f_equal; [|now apply H0].
    apply H. unfold subs_of. rewrite !map_map. reflexivity.
  - destruct vals' as [|v' rest']; [discriminate|].
    simpl in Hnames. injection Hnames as Hv Hrest.
    rewrite (expandNames_cons v' rest'), <- Hv, e. simpl.
    f_equal; [exact Hv | now apply H].
Qed.

(** X3. A composite name never leads to an unknown-property error or to
    the rank-unsafe error: whatever precision and compression it is
    requested with, each of the twelve composites resolves to names of the
    catalog, none of which is [potential_energy] or [virial]. *)
Theorem composites_resolve_to_catalog (v : propspec) :
  dict_mem String.eqb substitutions (name (_getStatic v)) = true ->
  forall p, In p (_expandNames [v]) ->
    known (name p) = true /\ str_in (name p) bad_mpi_properties = false.
Proof.
  intros Hkey p Hp. unfold dict_mem in Hkey.
  destruct (dict_get String.eqb substitutions (name (_getStatic v)))
    as [children|] eqn:Hget; [|discriminate].
  apply (dict_get_some_entry _ String.eqb_spec) in Hget.
  assert (Hall : forallb
                   (fun e => forallb
                               (fun n => known n
                                         && negb (str_in n bad_mpi_properties))
                               (map name (_expandNames [PName (fst e)])))
                   substitutions = true) by (vm_compute; reflexivity).
  rewrite forallb_forall in Hall. specialize (Hall _ Hget). simpl fst in Hall.
  rewrite forallb_forall in Hall.
  assert (Hin : In (name p) (map name (_expandNames [PName (name (_getStatic v))]))).
  { rewrite <- (expandNames_names [v] [PName (name (_getStatic v))] eq_refl).
    now apply in_map. }
  specialize (Hall _ Hin). apply andb_true_iff in Hall.
  destruct Hall as [Hk Hsafe]. split; [exact Hk|].
  now destruct (str_in (name p) bad_mpi_properties).
Qed.

Lemma composites_resolve_to_catalog_witness :
  dict_mem String.eqb substitutions "all" = true /\
  forall p, In p (_expandNames [PDump (mkDumpProp "all" true SlowCompress)]) ->
    known (name p) = true /\ str_in (name p) bad_mpi_properties = false.
Proof.
  split; [reflexivity | apply composites_resolve_to_catalog; reflexivity].
Defined.

(** ** Validation and registration *)

(** X4. The two catalog tables have the same keys: registering a property
    whose name is in [known_properties] never raises a [KeyError]; it makes
    exactly one [setPeriod] call, with the identifier and the resolution
    class of the name and with the precision, compression and period
    given. *)
Theorem validated_registration_succeeds p b z :
  known (name p) = true ->
  exists i r,
    dict_get String.eqb known_properties (name p) = Some i
    /\ dict_get String.eqb known_resolutions (name p) = Some r
    /\ register p b z
       = ([setPeriod i r b (highPrecision p) (compression p) z], inr tt).
Proof.
  intros Hk. destruct (known_registration p b z Hk) as (ev & Hev).
  rewrite register_registration, Hev.
  apply registration_lookup in Hev. destruct Hev as (i & r & Hi & Hr & ->).
  now exists i, r.
Qed.

Lemma validated_registration_succeeds_witness :
  exists i r,
    dict_get String.eqb known_properties "box" = Some i
    /\ dict_get String.eqb known_resolutions "box" = Some r
    /\ register (mkDumpProp "box" true NoCompress) Discrete 50
       = ([setPeriod i r Discrete true NoCompress 50], inr tt).
Proof.
  apply (validated_registration_succeeds (mkDumpProp "box" true NoCompress)).
  reflexivity.
Defined.

(** The outcome of validation when [prop] is bound. *)
(** X5. A dynamic request that resolves to a name outside the catalog
    makes the construction fail with an unknown-property error before the
    writer is touched: the archive is not opened and nothing is
    registered. *)
Theorem unknown_dynamic_fails_before_open ctx filename mode static dynamic
    (reg : bool) :
  all_known (map fst (assignments dynamic)) = false ->
  getar_init ctx filename mode static dynamic reg
  = (if reg then [analyzer_init] else [],
     outcome (getar_init ctx filename mode static dynamic reg))
  /\ exists val,
       outcome (getar_init ctx filename mode static dynamic reg)
       = inl (UnknownStaticProperty val)
       \/ outcome (getar_init ctx filename mode static dynamic reg)
          = inl (UnknownDynamicProperty val).
Proof.
  intros Hunknown.
  assert (Hbad : exists q, In q (map fst (fst (dynamic_loop dynamic)))
                           /\ negb (known (name q)) = true).
  { unfold all_known in Hunknown.
    destruct (forallb _ _) eqn:Hall in Hunknown; [discriminate|].
    clear Hunknown. rewrite <- not_true_iff_false, forallb_forall in Hall.
    destruct (existsb (fun q => negb (known (name q)))
                      (map fst (assignments dynamic))) eqn:Hex.
    - apply existsb_exists in Hex. destruct Hex as (q & Hq & Hk).
      exists q. split; [now apply dynamic_keys | exact Hk].
    - exfalso. apply Hall. intros q Hq.
      rewrite <- not_true_iff_false, existsb_exists in Hex.
      destruct (known (name q)) eqn:Hk; [reflexivity|].
      exfalso. apply Hex. exists q. split; [exact Hq | now rewrite Hk]. }
  destruct Hbad as (q & Hq & Hk).
  assert (Hne : dynamic <> []).
  { intros ->. destruct Hq. }
  destruct (dynamic_loop_prop_bound _ Hne) as (p & Hp & _).
  assert (Hv : exists e, outcome (validate (_expandNames static)
                                           (fst (dynamic_loop dynamic))
                                           (snd (dynamic_loop dynamic))) = inl e
                         /\ exists val, e = UnknownStaticProperty val
                                        \/ e = UnknownDynamicProperty val).
  { rewrite Hp, validate_outcome_bound.
    destruct (find (fun q => negb (known (name q)))
                   (map fst (fst (dynamic_loop dynamic)))) as [q'|] eqn:Hfind.
    - destruct (_expandNames static) as [|val ss];
        [|destruct (negb (known (name p)))]; eexists; split; eauto.
    - pose proof (find_none _ _ Hfind q Hq) as Hcontra. simpl in Hcontra.
      rewrite Hk in Hcontra. discriminate Hcontra. }
  destruct Hv as (e & He & val & Hval).
  rewrite getar_init_unfold, He. cbv zeta. simpl outcome.
  split; [reflexivity|]. exists val. destruct Hval as [-> | ->]; auto.
Qed.

Lemma unknown_dynamic_fails_before_open_witness :
  getar_init (example_context 1 0 false) "dump.zip" "w" [PName "position"]
             [(PName "viz_dynamic", PInt 10); (PName "foo", PInt 10)] true
  = ([analyzer_init],
     outcome (getar_init (example_context 1 0 false) "dump.zip" "w"
                         [PName "position"]
                         [(PName "viz_dynamic", PInt 10); (PName "foo", PInt 10)]
                         true))
  /\ exists val,
       outcome (getar_init (example_context 1 0 false) "dump.zip" "w"
                           [PName "position"]
                           [(PName "viz_dynamic", PInt 10);
                            (PName "foo", PInt 10)] true)
       = inl (UnknownStaticProperty val)
       \/ outcome (getar_init (example_context 1 0 false) "dump.zip" "w"
                              [PName "position"]
                              [(PName "viz_dynamic", PInt 10);
                               (PName "foo", PInt 10)] true)
          = inl (UnknownDynamicProperty val).
Proof.
  apply (unknown_dynamic_fails_before_open (example_context 1 0 false)
           "dump.zip" "w" [PName "position"]
           [(PName "viz_dynamic", PInt 10); (PName "foo", PInt 10)] true).
  reflexivity.
Defined.

Lemma statics_calls_map ctx l :
  outcome (for_each l (register_static ctx)) = inr tt ->
  map Some (calls (for_each l (register_static ctx)))
  = map (fun p => registration p Constant 0) l.
Proof.
  intros Hout. pose proof (for_each_returns _ _ Hout) as Hall.
  rewrite (for_each_completes _ _ Hall). simpl calls. clear Hout.
  induction l as [|p l IH]; [reflexivity|].
  simpl. rewrite map_app, IH by (intros q Hq; apply Hall; now right).
  f_equal. specialize (Hall p (or_introl eq_refl)).
  rewrite register_static_unfold in *.
  destruct (rank_unsafe ctx p); [discriminate Hall|].
  destruct (registration p Constant 0); [reflexivity | discriminate Hall].
Qed.

(** X6. The calls of a construction that succeeds, in full: the archive is
    opened once, before anything is registered; then comes one static
    registration (constant, period 0) for each element of
    [set(self._static)], so one for each distinct resolved triple; then
    the periodic registrations of the entries of [self._dynamic]; the
    registration as an analyzer brackets them when [_register] is set. *)
Theorem successful_construction_log ctx filename mode static dynamic
    (reg : bool) log self :
  getar_init ctx filename mode static dynamic reg = (log, inr self) ->
  exists dumpMode statics dynamics,
    dict_get String.eqb dump_modes mode = Some dumpMode
    /\ log = (if reg then [analyzer_init] else [])
             ++ GetarDumpWriter filename (effective_mode ctx filename dumpMode)
                  (getCurrentTimeStep ctx)
             :: statics ++ dynamics
             ++ (if reg then [getPeriod; setupAnalyzer] else [])
    /\ map Some statics
       = map (fun p => registration p Constant 0) (set_iter ctx (_static self))
    /\ map Some dynamics
       = flat_map (fun item => map (registration (fst item) Discrete)
                                   (periods_of (snd item)))
                  (_dynamic self).
Proof.
  rewrite getar_init_unfold.
  destruct (outcome (validate _ _ _)) as [e|[]]; [discriminate|].
  destruct (dict_get String.eqb dump_modes mode) as [m|]; [|discriminate].
  destruct (outcome (for_each (set_iter _ _) _)) as [e|[]] eqn:Hs; [discriminate|].
  destruct (outcome (for_each (fst _) _)) as [e|[]] eqn:Hd; [discriminate|].
  cbv zeta. intros [= <- <-].
  exists m, (calls (for_each (set_iter ctx (_expandNames static))
                             (register_static ctx))),
    (calls (for_each (fst (dynamic_loop dynamic)) (register_dynamic ctx))).
  split; [reflexivity|]. split; [now rewrite <- app_assoc|].
  split; [now apply statics_calls_map | now apply dynamics_calls].
Qed.

Lemma successful_construction_log_witness :
  exists dumpMode statics dynamics,
    dict_get String.eqb dump_modes "1" = Some dumpMode
    /\ [GetarDumpWriter "backup.tar" OneShot 0;
        setPeriod Position Individual Constant false FastCompress 0;
        setPeriod Velocity Individual Discrete true FastCompress 5]
       = [] ++ GetarDumpWriter "backup.tar"
                 (effective_mode (example_context 1 0 false) "backup.tar" dumpMode)
                 (getCurrentTimeStep (example_context 1 0 false))
            :: statics ++ dynamics ++ []
    /\ map Some statics
       = map (fun p => registration p Constant 0)
             (set_iter (example_context 1 0 false)
                       [DumpProp_new "position"; DumpProp_new "position"])
    /\ map Some dynamics
       = flat_map (fun item => map (registration (fst item) Discrete)
                                   (periods_of (snd item)))
                  [(mkDumpProp "velocity" true FastCompress, PInt 5)].
Proof.
  apply (successful_construction_log (example_context 1 0 false) "backup.tar"
           "1" [PName "position"; PName "position"]
           [(PDump (mkDumpProp "velocity" true FastCompress), PInt 5)] false _
           {| _static := [DumpProp_new "position"; DumpProp_new "position"];
              _dynamic := [(mkDumpProp "velocity" true FastCompress, PInt 5)] |}).
  reflexivity.
Defined.

Lemma mode_lookup_inv mode dumpMode :
  dict_get String.eqb dump_modes mode = Some dumpMode ->
  (mode = "w" /\ dumpMode = Overwrite)
  \/ (mode = "a" /\ dumpMode = Append)
  \/ (mode = "1" /\ dumpMode = OneShot).
Proof.
  simpl.
  destruct (String.eqb_spec mode "w") as [->|_]; [intros [= <-]; auto|].
  destruct (String.eqb_spec mode "a") as [->|_]; [intros [= <-]; auto|].
  destruct (String.eqb_spec mode "1") as [->|_]; [intros [= <-]; auto|].
  discriminate.
Qed.

(** X7. Whenever a construction opens the archive, it opens the file it
    was given, at the current time step, and with the mode of the token:
    ["w"] overwrites, ["1"] is one-shot, and ["a"] appends when the file
    exists and overwrites when it does not.  No other token opens
    anything. *)
Theorem archive_open_mode ctx filename mode static dynamic reg f m t :
  In (GetarDumpWriter f m t)
     (calls (getar_init ctx filename mode static dynamic reg)) ->
  f = filename /\ t = getCurrentTimeStep ctx
  /\ ((mode = "w" /\ m = Overwrite)
      \/ (mode = "a" /\ m = if isfile ctx filename then Append else Overwrite)
      \/ (mode = "1" /\ m = OneShot)).
Proof.
  intros Hin. apply getar_init_calls_inv in Hin.
  destruct Hin as [H|[(d & Hd & H)|[(p & _ & H)|[(p & per & z & _ & _ & H)|[H|H]]]]];
    try discriminate H;
    try (apply registration_shape in H; destruct H as (i & r & H); discriminate H).
  injection H as -> -> ->. split; [reflexivity|]. split; [reflexivity|].
  apply mode_lookup_inv in Hd. unfold effective_mode.
  destruct Hd as [[-> ->]|[[-> ->]|[-> ->]]]; simpl; auto.
  right. left. split; [reflexivity|]. now destruct (isfile ctx filename).
Qed.

Lemma archive_open_mode_witness :
  "dump.zip" = "dump.zip"
  /\ 0%Z = getCurrentTimeStep (example_context 1 0 true)
  /\ (("a" = "w" /\ Append = Overwrite)
      \/ ("a" = "a"
          /\ Append = if isfile (example_context 1 0 true) "dump.zip"
                      then Append else Overwrite)
      \/ ("a" = "1" /\ Append = OneShot)).
Proof.
  apply (archive_open_mode (example_context 1 0 true) "dump.zip" "a"
           [] [(PName "position", PInt 10)] false).
  left. reflexivity.
Defined.

(** ** The rank gate *)

Lemma register_static_calls_safe ctx p ev :
  In ev (calls (register_static ctx p)) ->
  rank_unsafe ctx p = false /\ registration p Constant 0 = Some ev.
Proof.
  rewrite register_static_unfold.
  destruct (rank_unsafe ctx p); [intros []|].
  destruct (registration p Constant 0) as [ev'|]; simpl; [|intros []].
  intros [<-|[]]. now split.
Qed.

Lemma register_dynamic_calls_safe ctx item ev :
  In ev (calls (register_dynamic ctx item)) ->
  rank_unsafe ctx (fst item) = false
  /\ exists z, registration (fst item) Discrete z = Some ev.
Proof.
  intros Hin. split.
  - unfold register_dynamic in Hin.
    destruct (rank_unsafe ctx (fst item)); [destruct Hin | reflexivity].
  - apply register_dynamic_calls in Hin. destruct Hin as (z & _ & Hz).
    now exists z.
Qed.

(** Every registration that reaches the writer was made for a property
    that passed the rank test. *)
Lemma getar_init_registered_safe ctx filename mode static dynamic reg i r b h c z :
  In (setPeriod i r b h c z)
     (calls (getar_init ctx filename mode static dynamic reg)) ->
  exists p z', rank_unsafe ctx p = false
               /\ registration p b z' = Some (setPeriod i r b h c z).
Proof.
  rewrite getar_init_unfold.
  assert (Hst : In (setPeriod i r b h c z)
                   (calls (for_each (set_iter ctx (_expandNames static))
                                    (register_static ctx))) ->
                exists p z', rank_unsafe ctx p = false
                             /\ registration p b z' = Some (setPeriod i r b h c z)).
  { intros Hin. apply for_each_calls_inv in Hin. destruct Hin as (p & _ & Hev).
    apply register_static_calls_safe in Hev. destruct Hev as [Hsafe Hev].
    pose proof (registration_shape _ _ _ _ Hev) as (i' & r' & [= -> -> -> -> -> ->]).
    now exists p, 0%Z. }
  assert (Hdy : In (setPeriod i r b h c z)
                   (calls (for_each (fst (dynamic_loop dynamic))
                                    (register_dynamic ctx))) ->
                exists p z', rank_unsafe ctx p = false
                             /\ registration p b z' = Some (setPeriod i r b h c z)).
  { intros Hin. apply for_each_calls_inv in Hin. destruct Hin as (item & _ & Hev).
    apply register_dynamic_calls_safe in Hev. destruct Hev as (Hsafe & z' & Hev).
    pose proof (registration_shape _ _ _ _ Hev) as (i' & r' & [= -> -> -> -> -> ->]).
    now exists (fst item), z'. }
  intros Hin.
  destruct (outcome (validate _ _ _));
    [destruct reg; simpl in Hin; intuition discriminate|].
  destruct (dict_get String.eqb dump_modes mode) as [m|];
    [|destruct reg; simpl in Hin; intuition discriminate].
  destruct (outcome (for_each (set_iter _ _) _));
    [|destruct (outcome (for_each (fst _) _))];
    cbv zeta in Hin; unfold calls at 1 in Hin; cbn [fst] in Hin;
    rewrite ?in_app_iff in Hin;
    repeat match type of Hin with _ \/ _ => destruct Hin as [Hin|Hin] end;
    auto; destruct reg; simpl in Hin; intuition discriminate.
Qed.

(** X8. With more than one rank, no registration of [potential_energy]
    or [virial] ever reaches the writer, whatever is requested and however
    the construction ends. *)
Theorem rank_unsafe_never_registered ctx filename mode static dynamic reg :
  (1 < num_ranks ctx)%Z ->
  forall i r b h c z,
    In (setPeriod i r b h c z)
       (calls (getar_init ctx filename mode static dynamic reg)) ->
    is_rank_unsafe_id i = false.
Proof.
  intros Hranks i r b h c z Hin.
  apply getar_init_registered_safe in Hin.
  destruct Hin as (p & z' & Hsafe & Hev).
  apply registration_lookup in Hev.
  destruct Hev as (i' & r' & Hi & _ & [= -> -> _ _ _]).
  apply (dict_get_some_entry _ String.eqb_spec) in Hi.
  assert (Hall : forallb (fun e => negb (is_rank_unsafe_id (snd e))
                                   || str_in (fst e) bad_mpi_properties)
                         known_properties = true) by (vm_compute; reflexivity).
  rewrite forallb_forall in Hall. specialize (Hall _ Hi).
  cbn [fst snd] in Hall.
  destruct (is_rank_unsafe_id i'); [|reflexivity].
  cbn [negb orb] in Hall. unfold rank_unsafe in Hsafe.
  rewrite Hall, andb_true_r in Hsafe.
  apply Z.ltb_lt in Hranks. rewrite Hranks in Hsafe. discriminate Hsafe.
Qed.

Lemma rank_unsafe_never_registered_witness :
  (1 < num_ranks (example_context 4 0 false))%Z /\
  forall i r b h c z,
    In (setPeriod i r b h c z)
       (calls (getar_init (example_context 4 0 false) "dump.zip" "w"
                          [PName "position"] [(PName "virial", PInt 5)] true)) ->
    is_rank_unsafe_id i = false.
Proof.
  split; [reflexivity | apply rank_unsafe_never_registered; reflexivity].
Defined.

(** ** [simple] and [immediate] *)

Lemma dict_set_entries {K V} (eqb : K -> K -> bool)
    (eqb_spec : forall a b, reflect (a = b) (eqb a b))
    (d : list (K * V)) k v k' v' :
  In (k', v') (dict_set eqb d k v) -> (k' = k /\ v' = v) \/ In (k', v') d.
Proof.
  induction d as [|[k0 v0] d IH]; simpl.
  - intros [[= <- <-]|[]]. now left.
  - destruct (eqb_spec k k0) as [->|_]; simpl.
    + intros [[= <- <-]|Hin]; [now left | right; now right].
    + intros [Heq|Hin]; [right; now left|].
      destruct (IH Hin) as [H|H]; [now left | right; now right].
Qed.

(** Every entry of [self._dynamic] has the period value of a request that
    resolves to its key. *)
Lemma dynamic_values dynamic p per :
  In (p, per) (fst (dynamic_loop dynamic)) ->
  exists key, In (key, per) dynamic /\ In p (_expandNames [key]).
Proof.
  rewrite dynamic_loop_assignments.
  assert (Hfold : forall asg st,
            In (p, per) (fst (fold_left assign asg st)) ->
            In (p, per) (fst st) \/ In (p, per) asg).
  { induction asg as [|a asg IH]; intros st Hin; [now left|].
    simpl in Hin. apply IH in Hin. destruct Hin as [Hin|Hin]; [|right; now right].
    simpl in Hin. apply (dict_set_entries _ DumpProp_eqb_spec) in Hin.
    destruct Hin as [[-> ->]|Hin]; [right; left; now destruct a | now left]. }
  intros Hin. apply Hfold in Hin. destruct Hin as [[]|Hin].
  unfold assignments in Hin. apply in_flat_map in Hin.
  destruct Hin as ([key per'] & Hitem & Hin). apply in_map_iff in Hin.
  destruct Hin as (q & [= -> ->] & Hq). now exists key.
Qed.

(** The values of a dictionary built by assigning one value to every key. *)
Lemma constant_dict_values {A} (f : A -> propspec) (v : period_value)
    (l : list A) d k v' :
  In (k, v') (fold_left (fun d a => dict_set propspec_eqb d (f a) v) l d) ->
  In (k, v') d \/ v' = v.
Proof.
  revert d. induction l as [|a l IH]; intros d; simpl; [now left|].
  intros Hin. apply IH in Hin. destruct Hin as [Hin|Hin]; [|now right].
  apply (dict_set_entries _ propspec_eqb_spec) in Hin.
  destruct Hin as [[_ ->]|Hin]; [now right | now left].
Qed.

(** X9. [simple] always registers the job as an analyzer, and every
    periodic registration it makes carries one of the periods of its
    [period] argument: the same period for all dynamic properties. *)
Theorem simple_uniform_period ctx filename period mode static dynamic
    high_precision :
  (exists rest,
     calls (simple ctx filename period mode static dynamic high_precision)
     = analyzer_init :: rest)
  /\ forall i r h c z,
       In (setPeriod i r Discrete h c z)
          (calls (simple ctx filename period mode static dynamic
                         high_precision)) ->
       In z (periods_of period).
Proof.
  unfold simple. split.
  - rewrite getar_init_unfold.
    destruct (outcome (validate _ _ _)); [eexists; reflexivity|].
    destruct (dict_get String.eqb dump_modes mode); [|eexists; reflexivity].
    destruct (outcome (for_each (set_iter _ _) _));
      [|destruct (outcome (for_each (fst _) _))]; eexists; reflexivity.
  - intros i r h c z Hin. apply getar_init_calls_inv in Hin.
    destruct Hin as [H|[(m & _ & H)|[(p & _ & H)|[(p & per & z' & Hp & Hz & H)|[H|H]]]]];
      try discriminate H.
    + apply registration_shape in H. destruct H as (i' & r' & H). discriminate H.
    + apply registration_shape in H. destruct H as (i' & r' & [= _ _ _ _ ->]).
      apply dynamic_values in Hp. destruct Hp as (key & Hkey & _).
      apply constant_dict_values in Hkey. destruct Hkey as [[]| ->]. exact Hz.
Qed.



(** * Properties of [hoomd.init] *)

(** ** The shape of the commands *)

Lemma create_domain_decomposition_eq mc s :
  _create_domain_decomposition mc s =
  if single_rank mc then ([], inr false, s)
  else match decomposition s with
       | None =>
           ([quiet_status; comm_decomposition; unquiet_status;
             _make_cpp_decomposition],
            inr (cpp_decomposition_made mc),
            {| system := system s;
               system_definition := system_definition s;
               decomposition := Some DefaultDecomposition |})
       | Some _ =>
           ([_make_cpp_decomposition], inr (cpp_decomposition_made mc), s)
       end.
Proof.
  unfold _create_domain_decomposition, single_rank.
  destruct (is_MPI_available mc); simpl; [|reflexivity].
  destruct (getNRanks mc =? 1)%Z; [reflexivity|].
  destruct s as [sys sd [d|]]; reflexivity.
Qed.

Lemma check_not_initialized_eq msg s :
  check_not_initialized msg s =
  match system s with
  | None => ([], inr tt, s)
  | Some _ =>
      ([msg_error CannotInitializeTwice], inl (InitRuntimeError msg), s)
  end.
Proof. destruct s as [[z|] sd dec]; reflexivity. Qed.

Lemma perform_common_init_tasks_eq mc s decomposed :
  system_definition s = Some decomposed ->
  _perform_common_init_tasks mc s = (common_calls mc decomposed, inr tt, s).
Proof.
  intros Hsd. unfold _perform_common_init_tasks, common_calls.
  destruct mc as [mpi ranks cuda isf xts gts made gdd].
  destruct s as [sys sd dec]. simpl in Hsd. subst sd.
  unfold ibind, icall, iget, iret. simpl.
  destruct mpi; simpl; [|reflexivity].
  destruct (gdd decomposed), cuda; reflexivity.
Qed.

Lemma ifold_calls (middle : list init_call) (s : session) :
  ifold (fun (_ : unit) c => icall c) middle tt s = (middle, inr tt, s).
Proof.
  revert s. induction middle as [|c middle IH]; intros s; [reflexivity|].
  simpl. unfold ibind at 1. simpl. now rewrite IH.
Qed.

(** *** Running a sequence *)

Lemma ibind_ok {A B} (m : Cmd A) (k : A -> Cmd B) s l a s1 :
  m s = (l, inr a, s1) -> ibind m k s = prepend l (k a s1).
Proof.
  intros Hm. unfold ibind, prepend, calls_of, result_of, session_of.
  rewrite Hm. now destruct (k a s1) as [[l' r] s2].
Qed.

Lemma ibind_err {A B} (m : Cmd A) (k : A -> Cmd B) s l e s1 :
  m s = (l, inl e, s1) -> ibind m k s = (l, inl e, s1).
Proof. intros Hm. unfold ibind. now rewrite Hm. Qed.

Lemma icall_bind {B} c (k : unit -> Cmd B) s :
  ibind (icall c) k s = prepend [c] (k tt s).
Proof. now apply ibind_ok. Qed.

Lemma prepend_prepend {A} l1 l2 (x : list init_call * (init_exn + A) * session) :
  prepend l1 (prepend l2 x) = prepend (l1 ++ l2) x.
Proof. unfold prepend, calls_of, result_of, session_of. simpl. now rewrite app_assoc. Qed.

Lemma prepend_nil {A} (x : list init_call * (init_exn + A) * session) :
  prepend [] x = x.
Proof. now destruct x as [[l r] s]. Qed.

Lemma prepend_triple {A} l l' (r : init_exn + A) s :
  prepend l (l', r, s) = (l ++ l', r, s).
Proof. reflexivity. Qed.

(** The end of every command: the system, then the common tasks. *)
Lemma finish_eq mc ts s decomposed :
  system_definition s = Some decomposed ->
  (icall (System_ ts) ;;
   set_system ts ;;
   _perform_common_init_tasks mc ;;
   icall system_data)%init s
  = (System_ ts :: common_calls mc decomposed ++ [system_data], inr tt,
     {| system := Some ts;
        system_definition := Some decomposed;
        decomposition := decomposition s |}).
Proof.
  intros Hsd. rewrite icall_bind.
  rewrite (ibind_ok (set_system ts) _ s [] tt
             {| system := Some ts; system_definition := system_definition s;
                decomposition := decomposition s |}) by reflexivity.
  rewrite Hsd.
  erewrite ibind_ok by (apply perform_common_init_tasks_eq; reflexivity).
  reflexivity.
Qed.

(** From the decomposition on, with the calls [middle] made on the system
    definition by a part [M] of the command that does nothing else. *)
Lemma core_eq mc sd_call (M : Cmd unit) middle ts s :
  (forall s0, M s0 = (middle, inr tt, s0)) ->
  (d <- _create_domain_decomposition mc ;;
   icall (sd_call d) ;;
   set_system_definition d ;;
   M ;;
   icall (System_ ts) ;;
   set_system ts ;;
   _perform_common_init_tasks mc ;;
   icall system_data)%init s
  = core mc sd_call middle ts s.
Proof.
  intros HM. unfold core.
  destruct (_create_domain_decomposition mc s) as [[l [e|d]] s1] eqn:Hd.
  { pose proof (create_domain_decomposition_eq mc s) as H. rewrite Hd in H.
    destruct (single_rank mc); [discriminate H|].
    destruct (decomposition s); discriminate H. }
  rewrite (ibind_ok _ _ _ _ _ _ Hd), icall_bind.
  rewrite (ibind_ok (set_system_definition d) _ s1 [] tt
             {| system := system s1; system_definition := Some d;
                decomposition := decomposition s1 |}) by reflexivity.
  rewrite (ibind_ok M _ _ _ _ _ (HM _)).
  rewrite (finish_eq mc ts {| system := system s1; system_definition := Some d;
                              decomposition := decomposition s1 |} d eq_refl).
  unfold prepend, calls_of, result_of, session_of. simpl. reflexivity.
Qed.

Lemma core_plain_eq mc sd_call ts s :
  (d <- _create_domain_decomposition mc ;;
   icall (sd_call d) ;;
   set_system_definition d ;;
   icall (System_ ts) ;;
   set_system ts ;;
   _perform_common_init_tasks mc ;;
   icall system_data)%init s
  = core mc sd_call [] ts s.
Proof.
  unfold core.
  destruct (_create_domain_decomposition mc s) as [[l [e|d]] s1] eqn:Hd.
  { pose proof (create_domain_decomposition_eq mc s) as H. rewrite Hd in H.
    destruct (single_rank mc); [discriminate H|].
    destruct (decomposition s); discriminate H. }
  rewrite (ibind_ok _ _ _ _ _ _ Hd), icall_bind.
  rewrite (ibind_ok (set_system_definition d) _ s1 [] tt
             {| system := system s1; system_definition := Some d;
                decomposition := decomposition s1 |}) by reflexivity.
  rewrite (finish_eq mc ts {| system := system s1; system_definition := Some d;
                              decomposition := decomposition s1 |} d eq_refl).
  unfold prepend, calls_of, result_of, session_of. simpl. reflexivity.
Qed.

Lemma init_from_snapshot_eq mc ts s :
  init_from_snapshot mc ts s = core mc SystemDefinition_snapshot [] ts s.
Proof. apply core_plain_eq. Qed.

(** *** The commands without loops *)

Lemma read_xml_eq mc filename restart time_step wrap s :
  read_xml mc filename restart time_step wrap s =
  match system s with
  | Some _ =>
      guard_failure [print_status_line; _verify_init] "Error reading XML file" s
  | None =>
      let f := match restart with
               | Some r => if path_isfile mc r then r else filename
               | None => filename
               end in
      prepend [print_status_line; _verify_init; HOOMDInitializer f wrap;
               getSnapshot]
              (core mc SystemDefinition_snapshot []
                    match time_step with
                    | None => xml_getTimeStep mc f
                    | Some t => t
                    end s)
  end.
Proof.
  unfold read_xml. rewrite !icall_bind.
  pose proof (check_not_initialized_eq "Error reading XML file" s) as Hg.
  destruct (system s).
  - rewrite (ibind_err _ _ _ _ _ _ Hg). reflexivity.
  - rewrite (ibind_ok _ _ _ _ _ _ Hg). cbv zeta. rewrite !icall_bind.
    rewrite core_plain_eq, !prepend_prepend. reflexivity.
Qed.

Lemma read_snapshot_eq mc s :
  read_snapshot mc s =
  match system s with
  | Some _ =>
      guard_failure [print_status_line; _verify_init] "Error initializing" s
  | None =>
      prepend [print_status_line; _verify_init; _broadcast]
              (core mc SystemDefinition_snapshot [] 0 s)
  end.
Proof.
  unfold read_snapshot. rewrite !icall_bind.
  pose proof (check_not_initialized_eq "Error initializing" s) as Hg.
  destruct (system s).
  - rewrite (ibind_err _ _ _ _ _ _ Hg). reflexivity.
  - rewrite (ibind_ok _ _ _ _ _ _ Hg). rewrite !icall_bind.
    rewrite init_from_snapshot_eq, !prepend_prepend. reflexivity.
Qed.

Lemma read_gsd_eq mc filename restart frame time_step s :
  read_gsd mc filename restart frame time_step s =
  match system s with
  | Some _ =>
      guard_failure [print_status_line; _verify_init] "Error initializing" s
  | None =>
      prepend [print_status_line; _verify_init; GSDReader filename frame;
               getSnapshot; _broadcast]
              (core mc SystemDefinition_snapshot []
                    match time_step with
                    | None => gsd_getTimeStep mc filename frame
                    | Some t => t
                    end s)
  end.
Proof.
  unfold read_gsd. rewrite !icall_bind.
  pose proof (check_not_initialized_eq "Error initializing" s) as Hg.
  destruct (system s).
  - rewrite (ibind_err _ _ _ _ _ _ Hg). reflexivity.
  - rewrite (ibind_ok _ _ _ _ _ _ Hg). cbv zeta. rewrite !icall_bind.
    rewrite init_from_snapshot_eq, !prepend_prepend. reflexivity.
Qed.

(** *** The loops *)

Lemma ifold_icall {A} (f : A -> init_call) (l : list A) (s : session) :
  ifold (fun (_ : unit) x => icall (f x)) l tt s = (map f l, inr tt, s).
Proof.
  revert s. induction l as [|x l IH]; intros s; [reflexivity|].
  cbn [ifold map]. rewrite icall_bind, IH. reflexivity.
Qed.

Lemma set_type_names_eq data names s :
  set_type_names data names s = (type_name_calls data names, inr tt, s).
Proof. apply ifold_icall. Qed.

Lemma create_empty_eq mc N box pt bt at_ dt it s :
  create_empty mc N box pt bt at_ dt it s =
  match system s with
  | Some _ => guard_failure [print_status_line] "Error initializing" s
  | None =>
      match box with
      | NotBoxdim =>
          ([print_status_line; msg_warning CreateEmptyDeprecated; _verify_init;
            msg_error BoxMustBeBoxdim],
           inl (InitTypeError "box must be a data.boxdim object"), s)
      | Boxdim dimensions =>
          prepend [print_status_line; msg_warning CreateEmptyDeprecated;
                   _verify_init]
            (core mc
               (SystemDefinition_N N (List.length pt) (List.length bt)
                  (List.length at_) (List.length dt) (List.length it))
               (setNDimensions dimensions
                  :: type_name_calls ParticleData pt
                  ++ type_name_calls BondData bt
                  ++ type_name_calls AngleData at_
                  ++ type_name_calls DihedralData dt
                  ++ type_name_calls ImproperData it)
               0 s)
      end
  end.
Proof.
  unfold create_empty. rewrite icall_bind.
  pose proof (check_not_initialized_eq "Error initializing" s) as Hg.
  destruct (system s).
  - rewrite (ibind_err _ _ _ _ _ _ Hg). reflexivity.
  - rewrite (ibind_ok _ _ _ _ _ _ Hg). rewrite !icall_bind.
    destruct box as [dimensions|].
    + unfold core.
      destruct (_create_domain_decomposition mc s) as [[l [e|d]] s1] eqn:Hd.
      { pose proof (create_domain_decomposition_eq mc s) as H. rewrite Hd in H.
        destruct (single_rank mc); [discriminate H|].
        destruct (decomposition s); discriminate H. }
      rewrite (ibind_ok _ _ _ _ _ _ Hd), icall_bind.
      rewrite (ibind_ok (set_system_definition d) _ s1 [] tt
                 {| system := system s1; system_definition := Some d;
                    decomposition := decomposition s1 |}) by reflexivity.
      rewrite icall_bind.
      do 5 (erewrite ibind_ok by apply set_type_names_eq).
      rewrite (finish_eq mc 0 {| system := system s1; system_definition := Some d;
                                 decomposition := decomposition s1 |} d eq_refl).
      rewrite !prepend_prepend, !prepend_triple.
      cbn [result_of calls_of session_of fst snd decomposition app].
      rewrite <- !app_assoc. reflexivity.
    + rewrite icall_bind. reflexivity.
Qed.

Lemma custom_bonds_from bonds v s :
  ifold (fun v t =>
           match t with
           | Bond2 a b => iret (append_bond v a b "polymer")
           | Bond3 a b bond_type => iret (append_bond v a b bond_type)
           | BondOther =>
               ibind (icall (msg_error CustomBondArity))
                     (fun _ => iraise polymers_error)
           end) bonds v s =
  if forallb bond_tuple_ok bonds
  then ([], inr (fold_left (fun v t =>
                              match t with
                              | Bond2 a b => append_bond v a b "polymer"
                              | Bond3 a b bond_type => append_bond v a b bond_type
                              | BondOther => v
                              end) bonds v), s)
  else ([msg_error CustomBondArity], inl polymers_error, s).
Proof.
  revert v. induction bonds as [|t bonds IH]; intros v; [reflexivity|].
  cbn [ifold forallb fold_left].
  destruct t as [a b|a b n|]; cbn [bond_tuple_ok andb].
  - erewrite ibind_ok by reflexivity. rewrite prepend_nil. apply IH.
  - erewrite ibind_ok by reflexivity. rewrite prepend_nil. apply IH.
  - reflexivity.
Qed.

Lemma custom_bonds_eq bonds s :
  custom_bonds bonds s =
  if forallb bond_tuple_ok bonds then ([], inr (custom_vectors bonds), s)
  else ([msg_error CustomBondArity], inl polymers_error, s).
Proof. apply custom_bonds_from. Qed.

Lemma polymer_step_eq dimensions st poly s :
  polymer_step dimensions st poly s =
  match polymer_generator dimensions poly with
  | inl m => ([msg_error m], inl polymers_error, s)
  | inr c => ([c], inr (after_polymer st poly), s)
  end.
Proof.
  unfold polymer_step, polymer_generator, after_polymer, types_of.
  destruct (poly_bond_len poly) as [len|]; [|reflexivity].
  destruct (poly_type poly) as [types|]; [|reflexivity].
  destruct (poly_count poly) as [count|]; [|reflexivity].
  destruct (poly_bond poly) as [[|bonds|]|]; try reflexivity.
  cbv zeta.
  pose proof (custom_bonds_eq bonds s) as Hc.
  destruct (forallb bond_tuple_ok bonds).
  - rewrite (ibind_ok _ _ _ _ _ _ Hc). reflexivity.
  - rewrite (ibind_err _ _ _ _ _ _ Hc). reflexivity.
Qed.

Lemma polymer_loop_eq dimensions polymers st s :
  ifold (polymer_step dimensions) polymers st s =
  match snd (generator_calls dimensions polymers) with
  | Some m =>
      (fst (generator_calls dimensions polymers) ++ [msg_error m],
       inl polymers_error, s)
  | None =>
      (fst (generator_calls dimensions polymers),
       inr (fold_left after_polymer polymers st), s)
  end.
Proof.
  revert st. induction polymers as [|poly rest IH]; intros st; [reflexivity|].
  cbn [ifold generator_calls fold_left].
  pose proof (polymer_step_eq dimensions st poly s) as Hp.
  destruct (polymer_generator dimensions poly) as [m|c].
  - rewrite (ibind_err _ _ _ _ _ _ Hp). reflexivity.
  - rewrite (ibind_ok _ _ _ _ _ _ Hp), IH. cbn [fst snd].
    destruct (snd (generator_calls dimensions rest)); reflexivity.
Qed.

Lemma check_separation_loop_eq separation types s :
  ifold (fun (_ : unit) t => check_separation separation t) types tt s =
  match find (fun t => negb (dict_mem String.eqb separation t)) types with
  | Some t => ([msg_error (NoSeparationFor t)], inl polymers_error, s)
  | None => ([], inr tt, s)
  end.
Proof.
  induction types as [|t types IH]; [reflexivity|].
  cbn [ifold find]. unfold check_separation at 1.
  destruct (negb (dict_mem String.eqb separation t)).
  - reflexivity.
  - erewrite ibind_ok by reflexivity. rewrite prepend_nil. apply IH.
Qed.

Lemma set_radius_eq m item s :
  set_radius (Some m) item s =
  if Qle_bool m (2 * snd item)
  then ([setSeparationRadius (fst item) (snd item);
         msg_error (SeparationTooBig (snd item) m)], inl polymers_error, s)
  else ([setSeparationRadius (fst item) (snd item)], inr tt, s).
Proof.
  unfold set_radius. rewrite icall_bind.
  destruct (Qle_bool m (2 * snd item)); [rewrite icall_bind|]; reflexivity.
Qed.

Lemma set_radius_loop_eq m separation s :
  ifold (fun (_ : unit) item => set_radius (Some m) item) separation tt s =
  (fst (radius_calls m separation),
   if snd (radius_calls m separation) then inl polymers_error else inr tt, s).
Proof.
  induction separation as [|item rest IH]; [reflexivity|].
  cbn [ifold radius_calls].
  pose proof (set_radius_eq m item s) as Hr.
  destruct (Qle_bool m (2 * snd item)).
  - rewrite (ibind_err _ _ _ _ _ _ Hr). reflexivity.
  - rewrite (ibind_ok _ _ _ _ _ _ Hr), IH. reflexivity.
Qed.

Lemma set_radius_none_loop_eq separation s :
  ifold (fun (_ : unit) item => set_radius None item) separation tt s =
  match separation with
  | [] => ([], inr tt, s)
  | item :: _ =>
      ([setSeparationRadius (fst item) (snd item)],
       inl (InitTypeError "'>=' not supported"), s)
  end.
Proof.
  destruct separation as [|item rest]; [reflexivity|].
  cbn [ifold]. erewrite ibind_err; [reflexivity|].
  unfold set_radius. rewrite icall_bind. reflexivity.
Qed.

(** *** [create_random_polymers] *)

Lemma create_random_polymers_eq mc box polymers separation seed s :
  create_random_polymers mc box polymers separation seed s =
  match system s with
  | Some _ =>
      guard_failure [print_status_line; _verify_init]
                    "Error creating random polymers" s
  | None =>
      match polymers, separation, box with
      | [], _, _ =>
          ([print_status_line; _verify_init; msg_error PolymersEmpty],
           inl polymers_error, s)
      | _ :: _, [], _ =>
          ([print_status_line; _verify_init; msg_error SeparationEmpty],
           inl polymers_error, s)
      | _ :: _, _ :: _, NotBoxdim =>
          ([print_status_line; _verify_init; msg_error BoxMustBeBoxdim],
           inl (InitTypeError "box must be a data.boxdim object"), s)
      | _ :: _, _ :: _, Boxdim dimensions =>
          let g := generation dimensions polymers separation in
          match snd g with
          | Some e =>
              (print_status_line :: _verify_init
                 :: RandomGenerator seed dimensions :: fst g, inl e, s)
          | None =>
              prepend (print_status_line :: _verify_init
                         :: RandomGenerator seed dimensions :: fst g)
                      (core mc SystemDefinition_snapshot [] 0 s)
          end
      end
  end.
Proof.
  unfold create_random_polymers. rewrite !icall_bind.
  pose proof (check_not_initialized_eq "Error creating random polymers" s) as Hg.
  destruct (system s).
  { rewrite (ibind_err _ _ _ _ _ _ Hg). reflexivity. }
  rewrite (ibind_ok _ _ _ _ _ _ Hg).
  destruct polymers as [|poly0 polymers0]; [rewrite icall_bind; reflexivity|].
  destruct separation as [|item0 separation0]; [rewrite icall_bind; reflexivity|].
  destruct box as [dimensions|]; [|rewrite icall_bind; reflexivity].
  set (polymers := poly0 :: polymers0). set (separation := item0 :: separation0).
  rewrite icall_bind. cbv zeta. unfold generation.
  pose proof (polymer_loop_eq dimensions polymers ([], None) s) as Hp.
  destruct (snd (generator_calls dimensions polymers)) as [m|].
  { rewrite (ibind_err _ _ _ _ _ _ Hp). reflexivity. }
  rewrite (ibind_ok _ _ _ _ _ _ Hp).
  pose proof (check_separation_loop_eq separation
                (fst (fold_left after_polymer polymers ([], None))) s) as Hc.
  destruct (find _ _) as [t|].
  { rewrite (ibind_err _ _ _ _ _ _ Hc). rewrite !prepend_prepend, !prepend_triple.
    reflexivity. }
  rewrite (ibind_ok _ _ _ _ _ _ Hc).
  destruct (snd (fold_left after_polymer polymers ([], None))) as [m|].
  - pose proof (set_radius_loop_eq m separation s) as Hr.
    destruct (snd (radius_calls m separation)).
    + rewrite (ibind_err _ _ _ _ _ _ Hr). rewrite !prepend_prepend, !prepend_triple.
      cbn [fst snd app]. rewrite app_nil_r. reflexivity.
    + rewrite (ibind_ok _ _ _ _ _ _ Hr). rewrite !icall_bind.
      rewrite init_from_snapshot_eq, !prepend_prepend.
      cbn [fst snd app]. rewrite <- !app_assoc. reflexivity.
  - pose proof (set_radius_none_loop_eq separation s) as Hr.
    subst separation. cbv iota in Hr.
    rewrite (ibind_err _ _ _ _ _ _ Hr). rewrite !prepend_prepend, !prepend_triple.
    cbn [fst snd app]. rewrite app_nil_r. reflexivity.
Qed.

(** *** Every command: the guard, the arguments, the core *)

Lemma core_value mc sd middle ts s :
  core mc sd middle ts s =
  (decomposition_calls mc s ++ sd (decomposed mc) :: middle
     ++ System_ ts :: common_calls mc (decomposed mc) ++ [system_data],
   inr tt,
   {| system := Some ts;
      system_definition := Some (decomposed mc);
      decomposition :=
        if single_rank mc then decomposition s
        else Some match decomposition s with
                  | Some d => d
                  | None => DefaultDecomposition
                  end |}).
Proof.
  unfold core, decomposed, decomposition_calls.
  rewrite create_domain_decomposition_eq.
  destruct (single_rank mc); [reflexivity|].
  destruct s as [sys sd0 [dd|]]; reflexivity.
Qed.

Lemma run_eq mc c s :
  run mc c s =
  match system s with
  | Some _ => guard_failure (guard_calls c) (guard_message c) s
  | None =>
      match plan mc c with
      | inl (l, e) => (l, inl e, s)
      | inr a =>
          prepend (before a)
                  (core mc (build a) (on_definition a) (at_step a) s)
      end
  end.
Proof.
  destruct c as [N box pt bt at_ dt it|f r t w| |f r fr t|box polymers sep seed];
    cbn [run].
  - rewrite create_empty_eq. destruct (system s); [reflexivity|].
    destruct box; reflexivity.
  - rewrite read_xml_eq. destruct (system s); reflexivity.
  - rewrite read_snapshot_eq. destruct (system s); reflexivity.
  - rewrite read_gsd_eq. destruct (system s); reflexivity.
  - rewrite create_random_polymers_eq. destruct (system s); [reflexivity|].
    destruct polymers as [|p0 ps]; [reflexivity|].
    destruct sep as [|i0 sep0]; [reflexivity|].
    destruct box as [dimensions|]; [|reflexivity].
    cbn [plan]. cbv zeta.
    destruct (snd (generation dimensions (p0 :: ps) (i0 :: sep0))); reflexivity.
Qed.

Lemma engine_free_app l1 l2 :
  engine_free (l1 ++ l2) = engine_free l1 && engine_free l2.
Proof. apply forallb_app. Qed.

Lemma engine_free_In l c :
  engine_free l = true -> In c l -> is_engine_call c = false.
Proof.
  unfold engine_free. rewrite forallb_forall. intros H Hin.
  apply H in Hin. now destruct (is_engine_call c).
Qed.

Lemma engine_free_no_system l :
  engine_free l = true -> filter is_system_call l = [].
Proof.
  induction l as [|c l IH]; [reflexivity|].
  cbn [engine_free forallb filter]. rewrite andb_true_iff. intros [Hc Hl].
  unfold is_engine_call in Hc. destruct (is_system_call c); [discriminate|].
  now apply IH.
Qed.

Lemma type_name_calls_free data names :
  engine_free (type_name_calls data names) = true.
Proof.
  unfold type_name_calls, engine_free. rewrite forallb_forall.
  intros c Hin. apply in_map_iff in Hin as (item & <- & _). reflexivity.
Qed.

Lemma polymer_generator_call dimensions poly c :
  polymer_generator dimensions poly = inr c ->
  exists count bond_len types a b n,
    c = addGenerator count bond_len types a b n dimensions.
Proof.
  unfold polymer_generator.
  destruct (poly_bond_len poly) as [len|]; [|discriminate].
  destruct (poly_type poly) as [types|]; [|discriminate].
  destruct (poly_count poly) as [count|]; [|discriminate].
  destruct (poly_bond poly) as [[|bonds|]|]; try discriminate.
  - intros [= <-]. now eexists _, _, _, _, _, _.
  - destruct (forallb bond_tuple_ok bonds); [|discriminate].
    intros [= <-]. now eexists _, _, _, _, _, _.
Qed.

Lemma generator_calls_free dimensions polymers :
  engine_free (fst (generator_calls dimensions polymers)) = true.
Proof.
  induction polymers as [|poly rest IH]; [reflexivity|].
  cbn [generator_calls].
  destruct (polymer_generator dimensions poly) as [m|c] eqn:Hg; [reflexivity|].
  apply polymer_generator_call in Hg as (? & ? & ? & ? & ? & ? & ->).
  cbn [fst]. exact IH.
Qed.

Lemma radius_calls_free m separation :
  engine_free (fst (radius_calls m separation)) = true.
Proof.
  induction separation as [|item rest IH]; [reflexivity|].
  cbn [radius_calls]. destruct (Qle_bool m (2 * snd item)); [reflexivity|].
  cbn [fst]. exact IH.
Qed.

Lemma generation_free dimensions polymers separation :
  engine_free (fst (generation dimensions polymers separation)) = true.
Proof.
  unfold generation. cbv zeta.
  pose proof (generator_calls_free dimensions polymers) as Hg.
  destruct (snd (generator_calls dimensions polymers)).
  { cbn [fst]. now rewrite engine_free_app, Hg. }
  destruct (find _ _).
  { cbn [fst]. now rewrite engine_free_app, Hg. }
  destruct (snd (fold_left after_polymer polymers ([], None))) as [m|].
  - pose proof (radius_calls_free m separation) as Hr.
    destruct (snd (radius_calls m separation)); cbn [fst];
      rewrite !engine_free_app, Hg, Hr; reflexivity.
  - destruct separation; cbn [fst]; now rewrite engine_free_app, Hg.
Qed.

Lemma plan_free mc c :
  match plan mc c with
  | inl (l, _) => engine_free l = true
  | inr a =>
      engine_free (before a) = true /\
      engine_free (on_definition a) = true /\
      forall d, is_system_call (build a d) = true /\
                is_decomposition_call (build a d) = d /\
                is_communicator_call (build a d) = false
  end.
Proof.
  destruct c as [N box pt bt at_ dt it|f r t w| |f r fr t|box polymers sep seed];
    cbn [plan].
  - destruct box as [dimensions|]; [|reflexivity].
    cbn [before on_definition build]. repeat split.
    + change (engine_free (type_name_calls ParticleData pt
                ++ type_name_calls BondData bt
                ++ type_name_calls AngleData at_
                ++ type_name_calls DihedralData dt
                ++ type_name_calls ImproperData it) = true).
      now rewrite !engine_free_app, !type_name_calls_free.
    + now destruct d.
  - cbn [before on_definition build]. repeat split. now destruct d.
  - cbn [before on_definition build]. repeat split. now destruct d.
  - cbn [before on_definition build]. repeat split. now destruct d.
  - destruct polymers as [|p0 ps]; [reflexivity|].
    destruct sep as [|i0 sep0]; [reflexivity|].
    destruct box as [dimensions|]; [|reflexivity].
    cbv zeta.
    pose proof (generation_free dimensions (p0 :: ps) (i0 :: sep0)) as Hg.
    destruct (snd (generation dimensions (p0 :: ps) (i0 :: sep0))).
    + exact Hg.
    + cbn [before on_definition build]. repeat split; [exact Hg|]. now destruct d.
Qed.

Lemma decomposition_calls_no_system mc s :
  filter is_system_call (decomposition_calls mc s) = [].
Proof.
  unfold decomposition_calls.
  destruct (single_rank mc); [reflexivity|]. now destruct (decomposition s).
Qed.

Lemma common_calls_no_system mc d :
  filter is_system_call (common_calls mc d ++ [system_data]) = [].
Proof.
  unfold common_calls.
  destruct (is_MPI_available mc && getDomainDecomposition mc d);
    [destruct (isCUDAEnabled mc)|]; reflexivity.
Qed.

(** The minimum bond length is known once a polymer was accepted. *)
Lemma min_bond_len_known dimensions polymers st :
  snd (generator_calls dimensions polymers) = None ->
  polymers <> [] \/ snd st <> None ->
  snd (fold_left after_polymer polymers st) <> None.
Proof.
  revert st. induction polymers as [|poly rest IH]; intros st Hg Hne.
  - destruct Hne as [Hne|Hne]; [now contradiction Hne | exact Hne].
  - cbn [generator_calls] in Hg. cbn [fold_left].
    destruct (polymer_generator dimensions poly) as [m|c] eqn:Hp; [discriminate|].
    apply IH; [exact Hg|]. right.
    unfold polymer_generator in Hp. unfold after_polymer. cbn [snd].
    destruct (poly_bond_len poly); [discriminate | discriminate Hp].
Qed.

Lemma radius_calls_announced m separation :
  snd (radius_calls m separation) = true ->
  exists pre msg, fst (radius_calls m separation) = pre ++ [msg_error msg].
Proof.
  induction separation as [|item rest IH]; [discriminate|].
  cbn [radius_calls]. destruct (Qle_bool m (2 * snd item)).
  - intros _. now exists [setSeparationRadius (fst item) (snd item)],
                           (SeparationTooBig (snd item) m).
  - cbn [fst snd]. intros H. destruct (IH H) as (pre & msg & ->).
    now exists (setSeparationRadius (fst item) (snd item) :: pre), msg.
Qed.

Lemma generation_announced dimensions polymers separation e :
  polymers <> [] ->
  snd (generation dimensions polymers separation) = Some e ->
  exists pre msg,
    fst (generation dimensions polymers separation) = pre ++ [msg_error msg].
Proof.
  intros Hne. unfold generation. cbv zeta.
  pose proof (min_bond_len_known dimensions polymers ([], None)) as Hmin.
  destruct (snd (generator_calls dimensions polymers)) as [m|].
  { intros _. now eexists _, _. }
  destruct (find _ _) as [t|].
  { intros _. now eexists _, _. }
  destruct (snd (fold_left after_polymer polymers ([], None))) as [m|].
  - pose proof (radius_calls_announced m separation) as Hr.
    destruct (snd (radius_calls m separation)); [|discriminate].
    intros _. destruct (Hr eq_refl) as (pre & msg & Hpre). cbn [fst].
    rewrite Hpre, app_assoc. now eexists _, _.
  - exfalso. apply Hmin; auto.
Qed.

Lemma plan_announced mc c l e :
  plan mc c = inl (l, e) -> exists pre msg, l = pre ++ [msg_error msg].
Proof.
  destruct c as [N box pt bt at_ dt it|f r t w| |f r fr t|box polymers sep seed];
    cbn [plan]; try discriminate.
  - destruct box as [dimensions|]; [discriminate|]. intros [= <- _].
    now exists [print_status_line; msg_warning CreateEmptyDeprecated;
                _verify_init], BoxMustBeBoxdim.
  - destruct polymers as [|p0 ps].
    { intros [= <- _]. now exists [print_status_line; _verify_init], PolymersEmpty. }
    destruct sep as [|i0 sep0].
    { intros [= <- _]. now exists [print_status_line; _verify_init], SeparationEmpty. }
    destruct box as [dimensions|].
    2:{ intros [= <- _].
        now exists [print_status_line; _verify_init], BoxMustBeBoxdim. }
    cbv zeta.
    destruct (snd (generation dimensions (p0 :: ps) (i0 :: sep0))) as [e'|] eqn:Hs;
      [|discriminate].
    intros [= <- _].
    destruct (generation_announced dimensions (p0 :: ps) (i0 :: sep0) e')
      as (pre & msg & Hpre); [discriminate | exact Hs |].
    rewrite Hpre.
    now exists (print_status_line :: _verify_init
                  :: RandomGenerator seed dimensions :: pre), msg.
Qed.

Lemma run_success mc c s :
  result_of (run mc c s) = inr tt ->
  exists a,
    plan mc c = inr a /\ system s = None /\
    run mc c s =
    (before a ++ decomposition_calls mc s ++ build a (decomposed mc)
       :: on_definition a ++ System_ (at_step a)
       :: common_calls mc (decomposed mc) ++ [system_data],
     inr tt,
     {| system := Some (at_step a);
        system_definition := Some (decomposed mc);
        decomposition :=
          if single_rank mc then decomposition s
          else Some match decomposition s with
                    | Some d => d
                    | None => DefaultDecomposition
                    end |}).
Proof.
  rewrite run_eq. destruct (system s); [discriminate|].
  destruct (plan mc c) as [[l e]|a]; [discriminate|]. intros _.
  exists a. repeat split. rewrite core_value. reflexivity.
Qed.

Lemma run_failure mc c s e :
  result_of (run mc c s) = inl e ->
  exists l, run mc c s = (l, inl e, s) /\ engine_free l = true.
Proof.
  rewrite run_eq. destruct (system s).
  { unfold guard_failure. cbn [result_of fst snd]. intros [= <-].
    eexists. split; [reflexivity|]. now destruct c. }
  pose proof (plan_free mc c) as Hfree.
  destruct (plan mc c) as [[l e']|a].
  - cbn [result_of fst snd]. intros [= <-]. now exists l.
  - rewrite core_value. discriminate.
Qed.

Lemma result_cases {A} (x : list init_call * (init_exn + A) * session) :
  (exists e, result_of x = inl e) \/ (exists a, result_of x = inr a).
Proof. destruct x as [[l [e|a]] s]; [left | right]; now eexists. Qed.

Lemma In_cons_iff {A} (x a : A) (l : list A) :
  In x (a :: l) <-> a = x \/ In x l.
Proof. reflexivity. Qed.

Lemma common_calls_cases mc d c :
  In c (common_calls mc d) ->
  In c [update_sort; quiet_status; group_all; _get_unique_thermo;
        unquiet_status; Communicator; CommunicatorGPU; setCommunicator].
Proof.
  unfold common_calls. rewrite in_app_iff. intros [Hin|Hin].
  - cbn [In] in Hin |- *. tauto.
  - destruct (is_MPI_available mc && getDomainDecomposition mc d); [|contradiction].
    destruct (isCUDAEnabled mc); cbn [In] in Hin |- *; tauto.
Qed.

Lemma decomposition_calls_cases mc s c :
  In c (decomposition_calls mc s) ->
  In c [quiet_status; comm_decomposition; unquiet_status;
        _make_cpp_decomposition].
Proof.
  unfold decomposition_calls. destruct (single_rank mc); [contradiction|].
  destruct (decomposition s); cbn [In]; tauto.
Qed.

Lemma common_calls_In mc d c :
  In c (common_calls mc d) ->
  is_system_call c = false /\ is_decomposition_call c = false.
Proof.
  unfold common_calls. rewrite in_app_iff. intros [Hin|Hin].
  - cbn [In] in Hin. now repeat (destruct Hin as [<-|Hin]; [now split|]).
  - destruct (is_MPI_available mc && getDomainDecomposition mc d); [|contradiction].
    destruct (isCUDAEnabled mc); cbn [In] in Hin;
      now repeat (destruct Hin as [<-|Hin]; [now split|]).
Qed.

(** ** Initialization happens once *)

(** X11. On a session whose system is already initialized every command
    raises [RuntimeError] right after the calls that precede its test of
    [is_initialized] ([print_status_line], and [_verify_init] for all but
    [create_empty]) and the error message, and leaves the session as it
    was. *)
Theorem initialized_session_rejected mc c s ts :
  system s = Some ts ->
  session_of (run mc c s) = s /\
  (exists msg, result_of (run mc c s) = inl (InitRuntimeError msg)) /\
  calls_of (run mc c s) =
    print_status_line
      :: match c with
         | CreateEmpty _ _ _ _ _ _ _ => []
         | _ => [_verify_init]
         end ++ [msg_error CannotInitializeTwice].
Proof.
  intros Hs. rewrite run_eq, Hs. unfold guard_failure.
  cbn [session_of result_of calls_of fst snd]. repeat split.
  - now eexists.
  - now destruct c.
Qed.

(** X12. A command that returns was run on an uninitialized session and
    leaves an initialized one: it builds one system definition and then one
    system, and no other, and the session holds the system at the time
    step it was built with and a system definition built with a
    decomposition exactly when the machine gives one. *)
Theorem success_initializes mc c s :
  result_of (run mc c s) = inr tt ->
  system s = None /\
  system_definition (session_of (run mc c s)) = Some (decomposed mc) /\
  exists sd ts,
    system (session_of (run mc c s)) = Some ts /\
    filter is_system_call (calls_of (run mc c s)) = [sd; System_ ts] /\
    is_decomposition_call sd = decomposed mc.
Proof.
  rewrite run_eq. destruct (system s); [discriminate|].
  pose proof (plan_free mc c) as Hfree.
  destruct (plan mc c) as [[l e]|a]; [discriminate|]. intros _.
  destruct Hfree as (Hb & Hd & Hsd). rewrite core_value.
  unfold prepend. cbn [session_of result_of calls_of fst snd system
                       system_definition].
  repeat split. exists (build a (decomposed mc)), (at_step a). repeat split.
  - rewrite !filter_app. cbn [filter].
    rewrite filter_app. cbn [filter].
    destruct (Hsd (decomposed mc)) as (-> & _ & _).
    rewrite (engine_free_no_system _ Hb), (engine_free_no_system _ Hd).
    rewrite decomposition_calls_no_system, common_calls_no_system. reflexivity.
  - apply Hsd.
Qed.

(** X13. A command that raises leaves the session as it was, has built no
    decomposition, system definition, system or communicator, and its last
    call is the error message. *)
Theorem failure_leaves_session mc c s e :
  result_of (run mc c s) = inl e ->
  session_of (run mc c s) = s /\
  engine_free (calls_of (run mc c s)) = true /\
  exists pre msg, calls_of (run mc c s) = pre ++ [msg_error msg].
Proof.
  rewrite run_eq. destruct (system s).
  { intros _. unfold guard_failure. cbn [session_of calls_of fst snd].
    repeat split; [now destruct c | now eexists _, _]. }
  pose proof (plan_free mc c) as Hfree.
  pose proof (plan_announced mc c) as Hann.
  destruct (plan mc c) as [[l e']|a].
  - intros _. cbn [session_of calls_of fst snd]. repeat split; [exact Hfree|].
    now apply (Hann l e').
  - rewrite core_value. discriminate.
Qed.

(** X14. After a command that returns, every further command raises
    [RuntimeError] and changes nothing: the system is initialized once. *)
Theorem second_command_fails mc c1 c2 s :
  result_of (run mc c1 s) = inr tt ->
  (exists msg, result_of (run mc c2 (session_of (run mc c1 s)))
               = inl (InitRuntimeError msg)) /\
  session_of (run mc c2 (session_of (run mc c1 s))) = session_of (run mc c1 s).
Proof.
  intros H1.
  assert (exists ts, system (session_of (run mc c1 s)) = Some ts) as [ts Hts].
  { revert H1. rewrite run_eq. destruct (system s); [discriminate|].
    destruct (plan mc c1) as [[l e]|a]; [discriminate|]. intros _.
    rewrite core_value. now eexists. }
  rewrite (run_eq mc c2), Hts. unfold guard_failure.
  cbn [session_of result_of fst snd]. split; [now eexists | reflexivity].
Qed.

(** ** The domain decomposition *)

(** X15. A default decomposition is made exactly by a command that returns
    on a machine with MPI and more than one rank when the session has none;
    the C++ decomposition is made exactly by a command that returns on such
    a machine.  A command that raises makes neither. *)
Theorem default_decomposition_iff mc c s :
  (In comm_decomposition (calls_of (run mc c s)) <->
   result_of (run mc c s) = inr tt /\ single_rank mc = false /\
   decomposition s = None) /\
  (In _make_cpp_decomposition (calls_of (run mc c s)) <->
   result_of (run mc c s) = inr tt /\ single_rank mc = false).
Proof.
  destruct (result_cases (run mc c s)) as [[e He]|[[] Hok]].
  - destruct (run_failure mc c s e He) as (l & Hrun & Hfree).
    rewrite He, Hrun. cbn [calls_of fst].
    split; (split; [|now intros [? _]]); intros Hin;
      now apply (engine_free_In _ _ Hfree) in Hin.
  - destruct (run_success mc c s Hok) as (a & Hplan & Hsys & Hrun).
    pose proof (plan_free mc c) as Hfree. rewrite Hplan in Hfree.
    destruct Hfree as (Hb & Hd & Hsd).
    rewrite Hok, Hrun. cbn [calls_of fst].
    assert (forall x, is_decomposition_call x = true -> is_system_call x = false ->
              In x (before a ++ decomposition_calls mc s
                      ++ build a (decomposed mc) :: on_definition a
                      ++ System_ (at_step a)
                      :: common_calls mc (decomposed mc) ++ [system_data])
              <-> In x (decomposition_calls mc s)) as Hiff.
    { intros x Hx Hns.
      pose proof (common_calls_In mc (decomposed mc)) as Hcom.
      set (cc := common_calls mc (decomposed mc)) in *. clearbody cc.
      repeat (rewrite in_app_iff || rewrite In_cons_iff). split; [|tauto].
      intros [Hin|[Hin|[Hin|[Hin|[Hin|[Hin|[Hin|[]]]]]]]].
      - apply (engine_free_In _ _ Hb) in Hin. unfold is_engine_call in Hin.
        rewrite Hx, orb_true_r in Hin. discriminate.
      - exact Hin.
      - subst x. destruct (Hsd (decomposed mc)) as (H1 & _). congruence.
      - apply (engine_free_In _ _ Hd) in Hin. unfold is_engine_call in Hin.
        rewrite Hx, orb_true_r in Hin. discriminate.
      - subst x. discriminate.
      - apply Hcom in Hin. destruct Hin as (_ & Hin). congruence.
      - subst x. discriminate. }
    rewrite !Hiff by reflexivity. unfold decomposition_calls.
    destruct (single_rank mc).
    { cbn [In]. split; split; try tauto; now intros (_ & ? & _) || intros (_ & ?). }
    destruct (decomposition s) as [dd|]; cbn [In]; split; split; intros H;
      try tauto; try (now repeat split);
      try (destruct H as (_ & _ & H); discriminate);
      try (destruct H as [H|[H|[H|[H|[]]]]]; discriminate);
      try (destruct H as [H|[]]; discriminate).
Qed.

(** X16. The decomposition of the session: a command never replaces a
    decomposition that the session has, changes nothing on a machine
    without MPI or with one rank, and otherwise leaves a decomposition when
    it returns. *)
Theorem decomposition_after_command mc c s :
  (forall d, decomposition s = Some d ->
             decomposition (session_of (run mc c s)) = Some d) /\
  (single_rank mc = true ->
   decomposition (session_of (run mc c s)) = decomposition s) /\
  (single_rank mc = false -> result_of (run mc c s) = inr tt ->
   decomposition (session_of (run mc c s)) <> None).
Proof.
  destruct (result_cases (run mc c s)) as [[e He]|[[] Hok]].
  - destruct (run_failure mc c s e He) as (l & Hrun & _).
    rewrite He, Hrun. cbn [session_of snd]. repeat split; auto. discriminate.
  - destruct (run_success mc c s Hok) as (a & _ & _ & Hrun).
    rewrite Hrun. cbn [session_of snd decomposition]. repeat split.
    + intros d Hd. rewrite Hd. now destruct (single_rank mc).
    + now intros ->.
    + intros -> _. discriminate.
Qed.

(** ** The communicator *)

(** X17. A command that returns registers a communicator exactly when MPI
    is available and the particle data of its system definition has a
    decomposition; the communicator is the GPU one exactly when CUDA is
    enabled; the last call builds the [system_data] that is returned.  A
    command that raises builds no communicator. *)
Theorem communicator_iff mc c s :
  (In setCommunicator (calls_of (run mc c s)) <->
   result_of (run mc c s) = inr tt /\
   is_MPI_available mc && getDomainDecomposition mc (decomposed mc) = true) /\
  (In Communicator (calls_of (run mc c s)) <->
   In setCommunicator (calls_of (run mc c s)) /\ isCUDAEnabled mc = false) /\
  (In CommunicatorGPU (calls_of (run mc c s)) <->
   In setCommunicator (calls_of (run mc c s)) /\ isCUDAEnabled mc = true) /\
  (result_of (run mc c s) = inr tt ->
   exists pre, calls_of (run mc c s) = pre ++ [system_data]).
Proof.
  destruct (result_cases (run mc c s)) as [[e He]|[[] Hok]].
  - destruct (run_failure mc c s e He) as (l & Hrun & Hfree).
    rewrite He, Hrun. cbn [calls_of fst].
    assert (forall x, is_communicator_call x = true -> ~ In x l) as Hno.
    { intros x Hx Hin. apply (engine_free_In _ _ Hfree) in Hin.
      unfold is_engine_call in Hin. rewrite Hx, orb_true_r in Hin. discriminate. }
    split; [|split; [|split]].
    + split; [intros Hin; now apply Hno in Hin | now intros [? _]].
    + split; [intros Hin | intros [Hin _]]; now apply Hno in Hin.
    + split; [intros Hin | intros [Hin _]]; now apply Hno in Hin.
    + discriminate.
  - destruct (run_success mc c s Hok) as (a & Hplan & Hsys & Hrun).
    pose proof (plan_free mc c) as Hfree. rewrite Hplan in Hfree.
    destruct Hfree as (Hb & Hd & Hsd).
    rewrite Hok, Hrun. cbn [calls_of fst].
    assert (forall x, is_communicator_call x = true ->
              In x (before a ++ decomposition_calls mc s
                      ++ build a (decomposed mc) :: on_definition a
                      ++ System_ (at_step a)
                      :: common_calls mc (decomposed mc) ++ [system_data])
              <-> In x (if is_MPI_available mc
                           && getDomainDecomposition mc (decomposed mc)
                        then [if isCUDAEnabled mc then CommunicatorGPU
                              else Communicator; setCommunicator]
                        else [])) as Hiff.
    { intros x Hx. unfold common_calls.
      rewrite !in_app_iff. cbn [In]. rewrite !in_app_iff. cbn [In].
      rewrite !in_app_iff. split; [|tauto].
      intros [Hin|[Hin|[Hin|[Hin|[Hin|[[Hin|Hin]|[Hin|[]]]]]]]].
      - apply (engine_free_In _ _ Hb) in Hin. unfold is_engine_call in Hin.
        rewrite Hx, orb_true_r in Hin. discriminate.
      - unfold decomposition_calls in Hin.
        destruct (single_rank mc); [contradiction|].
        destruct (decomposition s); cbn [In] in Hin;
          repeat (destruct Hin as [<-|Hin]; [discriminate|]); contradiction.
      - subst x. destruct (Hsd (decomposed mc)) as (_ & _ & H1). congruence.
      - apply (engine_free_In _ _ Hd) in Hin. unfold is_engine_call in Hin.
        rewrite Hx, orb_true_r in Hin. discriminate.
      - subst x. discriminate.
      - cbn [In] in Hin.
        repeat (destruct Hin as [<-|Hin]; [discriminate|]). contradiction.
      - exact Hin.
      - subst x. discriminate. }
    rewrite !Hiff by reflexivity.
    split; [|split; [|split]].
    + destruct (is_MPI_available mc && getDomainDecomposition mc (decomposed mc));
        cbn [In]; split; try tauto; try (now intros [_ ?]); try (now split).
    + destruct (is_MPI_available mc && getDomainDecomposition mc (decomposed mc));
        destruct (isCUDAEnabled mc); cbn [In]; split; intros H;
        solve [ tauto | split; [tauto | reflexivity]
              | destruct H as [_ H]; discriminate
              | destruct H as [H|[H|[]]]; discriminate
              | destruct H as [[] _] | destruct H ].
    + destruct (is_MPI_available mc && getDomainDecomposition mc (decomposed mc));
        destruct (isCUDAEnabled mc); cbn [In]; split; intros H;
        solve [ tauto | split; [tauto | reflexivity]
              | destruct H as [_ H]; discriminate
              | destruct H as [H|[H|[]]]; discriminate
              | destruct H as [[] _] | destruct H ].
    + intros _.
      exists (before a ++ decomposition_calls mc s ++ build a (decomposed mc)
                :: on_definition a ++ System_ (at_step a)
                :: common_calls mc (decomposed mc)).
      rewrite <- !app_assoc. cbn [app]. rewrite <- !app_assoc. reflexivity.
Qed.

(** ** Reading files *)

(** X18. On an uninitialized session [read_xml] returns; it reads one file,
    [restart] when it is given and exists and [filename] otherwise, and
    the system starts at [time_step] when it is given and otherwise at the
    time step of the file that was read. *)
Theorem read_xml_restart mc filename restart time_step wrap s :
  system s = None ->
  let f := match restart with
           | Some r => if path_isfile mc r then r else filename
           | None => filename
           end in
  let r := read_xml mc filename restart time_step wrap s in
  result_of r = inr tt /\
  filter is_reader_call (calls_of r) = [HOOMDInitializer f wrap] /\
  system (session_of r) = Some match time_step with
                               | Some t => t
                               | None => xml_getTimeStep mc f
                               end.
Proof.
  intros Hs f r. subst r. rewrite read_xml_eq, Hs. cbv beta iota zeta. fold f.
  rewrite core_value.
  unfold prepend. cbn [result_of calls_of session_of fst snd system].
  repeat split.
  unfold decomposition_calls, common_calls.
  destruct (single_rank mc); [|destruct (decomposition s)];
    (destruct (is_MPI_available mc && getDomainDecomposition mc (decomposed mc));
     [destruct (isCUDAEnabled mc)|]); reflexivity.
Qed.

(** X19. On an uninitialized session [read_gsd] returns; whatever [restart]
    is, the one file it reads is [filename] at [frame], and the system
    starts at [time_step] when it is given and otherwise at the time step
    of that frame. *)
Theorem read_gsd_ignores_restart mc filename restart frame time_step s :
  system s = None ->
  let r := read_gsd mc filename restart frame time_step s in
  result_of r = inr tt /\
  filter is_reader_call (calls_of r) = [GSDReader filename frame] /\
  system (session_of r) = Some match time_step with
                               | Some t => t
                               | None => gsd_getTimeStep mc filename frame
                               end.
Proof.
  intros Hs r. subst r. rewrite read_gsd_eq, Hs. cbv beta iota zeta.
  rewrite core_value.
  unfold prepend. cbn [result_of calls_of session_of fst snd system].
  repeat split.
  unfold decomposition_calls, common_calls.
  destruct (single_rank mc); [|destruct (decomposition s)];
    (destruct (is_MPI_available mc && getDomainDecomposition mc (decomposed mc));
     [destruct (isCUDAEnabled mc)|]); reflexivity.
Qed.

(** ** [create_empty] *)

Lemma enumerate_from_In {A} (l : list A) k i (x : A) :
  In (i, x) (combine (seq k (List.length l)) l) <->
  k <= i /\ nth_error l (i - k) = Some x.
Proof.
  revert k. induction l as [|y l IH]; intros k.
  - cbn [List.length seq combine In]. split; [contradiction|].
    intros [_ H]. now destruct (i - k).
  - cbn [List.length seq combine In]. rewrite IH. split.
    + intros [[= <- <-]|[Hle Hn]].
      * rewrite Nat.sub_diag. split; [lia | reflexivity].
      * split; [lia|]. replace (i - k) with (S (i - S k)) by lia. exact Hn.
    + intros [Hle Hn]. destruct (Nat.eq_dec i k) as [->|Hne].
      * rewrite Nat.sub_diag in Hn. injection Hn as ->. now left.
      * right. split; [lia|].
        replace (i - k) with (S (i - S k)) in Hn by lia. exact Hn.
Qed.

Lemma type_name_calls_In data names data' i n :
  In (setTypeName data' i n) (type_name_calls data names) <->
  data' = data /\ nth_error names i = Some n.
Proof.
  unfold type_name_calls, enumerate. rewrite in_map_iff. split.
  - intros ([j x] & [= <- <- <-] & Hin). split; [reflexivity|].
    apply enumerate_from_In in Hin as [_ Hin]. now rewrite Nat.sub_0_r in Hin.
  - intros [-> Hn]. exists (i, n). split; [reflexivity|].
    apply enumerate_from_In. rewrite Nat.sub_0_r. split; [lia | exact Hn].
Qed.

(** X20. On an uninitialized session [create_empty] with a box returns,
    after the deprecation warning; the system definition is built for [N]
    particles and the numbers of names of the five lists, every name is
    given to its data under its index in its list and no other name is
    set, and the system starts at time step 0. *)
Theorem create_empty_type_names mc N dimensions pt bt at_ dt it s :
  system s = None ->
  let r := create_empty mc N (Boxdim dimensions) pt bt at_ dt it s in
  result_of r = inr tt /\
  In (msg_warning CreateEmptyDeprecated) (calls_of r) /\
  In (SystemDefinition_N N (List.length pt) (List.length bt) (List.length at_)
        (List.length dt) (List.length it) (decomposed mc)) (calls_of r) /\
  In (setNDimensions dimensions) (calls_of r) /\
  (forall data i n,
     In (setTypeName data i n) (calls_of r) <->
     nth_error match data with
               | ParticleData => pt
               | BondData => bt
               | AngleData => at_
               | DihedralData => dt
               | ImproperData => it
               end i = Some n) /\
  system (session_of r) = Some 0%Z.
Proof.
  intros Hs r. subst r. rewrite create_empty_eq, Hs. cbv beta iota zeta.
  rewrite core_value.
  unfold prepend. cbn [result_of calls_of session_of fst snd system].
  pose proof (common_calls_cases mc (decomposed mc)) as Hcom.
  pose proof (decomposition_calls_cases mc s) as Hdec.
  set (cc := common_calls mc (decomposed mc)) in *. clearbody cc.
  set (dc := decomposition_calls mc s) in *. clearbody dc.
  split; [reflexivity|]. split; [cbn [app In]; tauto|].
  split; [cbn [app]; repeat (rewrite in_app_iff || rewrite In_cons_iff); tauto|].
  split; [cbn [app]; repeat (rewrite in_app_iff || rewrite In_cons_iff); tauto|].
  split; [|reflexivity].
  intros data i n. cbn [app].
  repeat (rewrite in_app_iff || rewrite In_cons_iff).
  rewrite !type_name_calls_In. split.
  - intros H.
    repeat match type of H with _ \/ _ => destruct H as [H|H] end;
      try discriminate H; try (destruct H as [-> H]; exact H).
    + apply Hdec in H. cbn [In] in H.
      repeat (destruct H as [H|H]; [discriminate|]). contradiction.
    + apply Hcom in H. cbn [In] in H.
      repeat (destruct H as [H|H]; [discriminate|]). contradiction.
    + contradiction.
  - intros H. do 6 right. left. destruct data; tauto.
Qed.

(** ** [create_random_polymers] *)

Lemma linear_bonds_from n k (a b : list nat) (c : list string) :
  fold_left (fun v i => append_bond v i (i + 1) "polymer") (seq k n) (a, b, c)
  = (a ++ seq k n, b ++ seq (S k) n, c ++ repeat "polymer" n).
Proof.
  revert k a b c. induction n as [|n IH]; intros k a b c.
  - cbn [seq fold_left repeat]. now rewrite !app_nil_r.
  - cbn [seq fold_left repeat]. unfold append_bond at 2. cbn [fst snd].
    rewrite IH, <- !app_assoc, Nat.add_1_r. reflexivity.
Qed.

(** X21. The default bonds of a polymer of [n] particles join each particle
    to the next: [n - 1] bonds named ['polymer'] from [0, ..., n - 2] to
    [1, ..., n - 1], and none for a polymer of no or one particle. *)
Theorem linear_bonds_chain (types : list string) :
  linear_bonds types =
  (seq 0 (List.length types - 1), seq 1 (List.length types - 1),
   repeat "polymer" (List.length types - 1)).
Proof. unfold linear_bonds. now rewrite linear_bonds_from. Qed.

Lemma use_types_spec types used :
  NoDup used ->
  NoDup (use_types used types) /\
  forall t, In t (use_types used types) <-> In t used \/ In t types.
Proof.
  unfold use_types. revert used.
  induction types as [|t0 types IH]; intros used Hnd; cbn [fold_left].
  - split; [exact Hnd|]. intros t. cbn [In]. tauto.
  - destruct (str_in t0 used) eqn:Hin.
    + destruct (IH used Hnd) as [H1 H2]. split; [exact H1|].
      intros t. rewrite H2. cbn [In]. apply str_in_In in Hin.
      split; [tauto|]. intros [H|[<-|H]]; tauto.
    + assert (NoDup (used ++ [t0])) as Hnd'.
      { apply NoDup_app; [exact Hnd | repeat constructor; intros [] |].
        intros x Hx [<-|[]]. apply str_in_In in Hx. congruence. }
      destruct (IH _ Hnd') as [H1 H2]. split; [exact H1|].
      intros t. rewrite H2, in_app_iff. cbn [In]. tauto.
Qed.

Lemma after_polymers_types polymers st :
  NoDup (fst st) ->
  NoDup (fst (fold_left after_polymer polymers st)) /\
  forall t, In t (fst (fold_left after_polymer polymers st)) <->
            In t (fst st) \/ exists poly, In poly polymers /\ In t (types_of poly).
Proof.
  revert st. induction polymers as [|poly rest IH]; intros st Hnd;
    cbn [fold_left].
  - split; [exact Hnd|]. intros t. split; [tauto|].
    intros [H|(poly & [] & _)]. exact H.
  - destruct (use_types_spec (types_of poly) (fst st) Hnd) as [Hnd' Hin'].
    destruct (IH (after_polymer st poly) Hnd') as [H1 H2]. split; [exact H1|].
    intros t. rewrite H2. cbn [after_polymer fst]. rewrite Hin'. split.
    + intros [[H|H]|(p & Hp & H)]; [now left | right | right].
      * exists poly. split; [now left | exact H].
      * exists p. split; [now right | exact H].
    + intros [H|(p & [<-|Hp] & H)]; [tauto | tauto |].
      right. now exists p.
Qed.

Lemma py_min_spec a b :
  (py_min a b = a \/ py_min a b = b) /\
  (py_min a b <= a)%Q /\ (py_min a b <= b)%Q.
Proof.
  unfold py_min. destruct (Qle_bool a b) eqn:Hle.
  - apply Qle_bool_iff in Hle. repeat split; [now left | apply Qle_refl | exact Hle].
  - assert (~ (a <= b)%Q) as Hn.
    { intros H. apply Qle_bool_iff in H. congruence. }
    apply Qnot_le_lt in Hn.
    repeat split; [now right | now apply Qlt_le_weak | apply Qle_refl].
Qed.

Lemma after_polymers_min polymers st m :
  snd (fold_left after_polymer polymers st) = Some m ->
  (snd st = Some m \/ In m (bond_lens polymers)) /\
  (forall x, snd st = Some x -> (m <= x)%Q) /\
  (forall x, In x (bond_lens polymers) -> (m <= x)%Q).
Proof.
  revert st. induction polymers as [|poly rest IH]; intros st; cbn [fold_left].
  - intros H. split; [now left|]. split; [|contradiction].
    intros x Hx. rewrite H in Hx. injection Hx as <-. apply Qle_refl.
  - intros H. destruct (IH _ H) as (H1 & H2 & H3). clear IH H.
    unfold bond_lens in *. cbn [flat_map]. unfold after_polymer in H1, H2.
    cbn [snd] in H1, H2.
    destruct (poly_bond_len poly) as [len|]; cbn [app].
    2:{ repeat split; assumption. }
    destruct (snd st) as [m0|].
    + destruct (py_min_spec m0 len) as (Hcase & Hle1 & Hle2).
      pose proof (H2 _ eq_refl) as Hm. repeat split.
      * destruct H1 as [[= H1]|H1]; [|right; now right].
        destruct Hcase as [Hc|Hc]; rewrite Hc in H1.
        -- left. now rewrite H1.
        -- right. left. exact H1.
      * intros x [= <-]. eapply Qle_trans; eassumption.
      * intros x [<-|Hx]; [eapply Qle_trans; eassumption | now apply H3].
    + pose proof (H2 _ eq_refl) as Hm. repeat split.
      * destruct H1 as [[= H1]|H1]; right; [now left | now right].
      * discriminate.
      * intros x [<-|Hx]; [exact Hm | now apply H3].
Qed.

(** X22. The local variables of the loop over the polymers (lines 484-546)
    when it completes: [types_used] holds every particle type of every
    polymer once and nothing else; [min_bond_len] is [None] only for no
    polymer and otherwise is one of the bond lengths and not above any of
    them; the session is untouched. *)
Theorem polymer_loop_invariant dimensions polymers s calls types_used
    min_bond_len s' :
  ifold (polymer_step dimensions) polymers ([], None) s
    = (calls, inr (types_used, min_bond_len), s') ->
  s' = s /\
  NoDup types_used /\
  (forall t, In t types_used <->
             exists poly, In poly polymers /\ In t (types_of poly)) /\
  (min_bond_len = None <-> polymers = []) /\
  (forall m, min_bond_len = Some m ->
             In m (bond_lens polymers) /\
             forall x, In x (bond_lens polymers) -> (m <= x)%Q).
Proof.
  rewrite polymer_loop_eq.
  pose proof (min_bond_len_known dimensions polymers ([], None)) as Hknown.
  destruct (snd (generator_calls dimensions polymers)); [discriminate|].
  intros [= _ Hst <-].
  destruct (after_polymers_types polymers ([], None) (NoDup_nil _)) as [Hnd Hin].
  pose proof (after_polymers_min polymers ([], None)) as Hmin.
  rewrite Hst in Hnd, Hin, Hmin, Hknown. cbn [fst snd] in *.
  split; [reflexivity|]. split; [exact Hnd|]. split; [|split].
  - intros t. rewrite Hin. cbn [In]. tauto.
  - split.
    + intros ->. destruct polymers; [reflexivity|].
      exfalso. apply Hknown; [reflexivity | left; discriminate | reflexivity].
    + intros ->. now injection Hst.
  - intros m ->. destruct (Hmin m eq_refl) as ([H|H] & _ & H3); [discriminate|].
    split; assumption.
Qed.

Lemma polymer_generator_ok dimensions poly :
  (exists c, polymer_generator dimensions poly = inr c) <-> polymer_ok poly = true.
Proof.
  unfold polymer_generator, polymer_ok.
  destruct (poly_bond_len poly) as [len|];
    [|split; [intros [c H]|intros H]; discriminate].
  destruct (poly_type poly) as [types|];
    [|split; [intros [c H]|intros H]; discriminate].
  destruct (poly_count poly) as [count|];
    [|split; [intros [c H]|intros H]; discriminate].
  destruct (poly_bond poly) as [[|bonds|]|];
    try (split; [intros [c H]|intros H]; discriminate).
  - split; [reflexivity | intros _; now eexists].
  - destruct (forallb bond_tuple_ok bonds);
      split; try reflexivity; try discriminate;
      [intros _; now eexists | intros [c H]; discriminate].
Qed.

Lemma generator_calls_ok dimensions polymers :
  snd (generator_calls dimensions polymers) = None <->
  forallb polymer_ok polymers = true.
Proof.
  induction polymers as [|poly rest IH]; [now split|].
  cbn [generator_calls forallb]. rewrite andb_true_iff.
  pose proof (polymer_generator_ok dimensions poly) as Hok.
  destruct (polymer_generator dimensions poly) as [m|c].
  - cbn [snd]. split; [discriminate|]. intros [H _].
    apply Hok in H. destruct H as [c H]. discriminate.
  - cbn [snd]. rewrite IH. split; [|tauto]. intros H. split; [|exact H].
    apply Hok. now exists c.
Qed.

Lemma generator_calls_map dimensions polymers :
  snd (generator_calls dimensions polymers) = None ->
  map inr (fst (generator_calls dimensions polymers))
  = map (polymer_generator dimensions) polymers.
Proof.
  induction polymers as [|poly rest IH]; [reflexivity|].
  cbn [generator_calls map].
  destruct (polymer_generator dimensions poly) as [m|c]; [discriminate|].
  cbn [fst snd map]. intros H. now rewrite IH.
Qed.

Lemma radius_calls_ok m separation :
  snd (radius_calls m separation) = false <->
  forall item, In item separation -> (2 * snd item < m)%Q.
Proof.
  induction separation as [|item rest IH].
  - split; [intros _ ? [] | reflexivity].
  - cbn [radius_calls]. destruct (Qle_bool m (2 * snd item)) eqn:Hle.
    + cbn [snd]. split; [discriminate|]. intros H.
      apply Qle_bool_iff in Hle. specialize (H item (or_introl eq_refl)).
      now apply Qlt_not_le in H.
    + cbn [snd]. rewrite IH. split.
      * intros H x [<-|Hx]; [|now apply H].
        apply Qnot_le_lt. intros Hn. apply Qle_bool_iff in Hn. congruence.
      * intros H x Hx. apply H. now right.
Qed.

Lemma radius_calls_map m separation :
  snd (radius_calls m separation) = false ->
  fst (radius_calls m separation)
  = map (fun item => setSeparationRadius (fst item) (snd item)) separation.
Proof.
  induction separation as [|item rest IH]; [reflexivity|].
  cbn [radius_calls map]. destruct (Qle_bool m (2 * snd item)); [discriminate|].
  cbn [fst snd]. intros H. now rewrite IH.
Qed.

Lemma generation_returns_iff dimensions polymers separation :
  polymers <> [] ->
  snd (generation dimensions polymers separation) = None <->
  forallb polymer_ok polymers = true /\
  (forall poly t, In poly polymers -> In t (types_of poly) ->
                  dict_mem String.eqb separation t = true) /\
  (forall len item, In len (bond_lens polymers) -> In item separation ->
                    (2 * snd item < len)%Q).
Proof.
  intros Hne. unfold generation. cbv zeta.
  pose proof (generator_calls_ok dimensions polymers) as Hok.
  pose proof (min_bond_len_known dimensions polymers ([], None)) as Hknown.
  destruct (after_polymers_types polymers ([], None) (NoDup_nil _)) as [_ Hin].
  pose proof (after_polymers_min polymers ([], None)) as Hmin.
  destruct (snd (generator_calls dimensions polymers)) as [msg|].
  { cbn [snd]. split; [discriminate|]. intros [H _]. apply Hok in H. discriminate. }
  destruct (find _ _) as [t|] eqn:Hfind.
  { cbn [snd]. split; [discriminate|]. intros (_ & H & _).
    apply find_some in Hfind as [Ht Hmem]. apply Hin in Ht.
    destruct Ht as [[]|(poly & Hp & Ht)].
    rewrite (H poly t Hp Ht) in Hmem. discriminate. }
  assert (forall poly t, In poly polymers -> In t (types_of poly) ->
                         dict_mem String.eqb separation t = true) as Htypes.
  { intros poly t Hp Ht.
    pose proof (find_none _ _ Hfind t) as Hn. cbv beta in Hn.
    destruct (dict_mem String.eqb separation t); [reflexivity|].
    exfalso. enough (negb false = false) by discriminate.
    apply Hn, Hin. right. now exists poly. }
  destruct (snd (fold_left after_polymer polymers ([], None))) as [m|].
  2:{ exfalso. apply Hknown; auto. }
  destruct (Hmin m eq_refl) as ([Hm|Hm] & _ & Hle); [discriminate|].
  pose proof (radius_calls_ok m separation) as Hr.
  destruct (snd (radius_calls m separation)).
  - cbn [snd]. split; [discriminate|]. intros (_ & _ & H).
    enough (true = false) by discriminate. apply Hr.
    intros item Hitem. now apply H.
  - cbn [snd]. split; [|reflexivity]. intros _.
    split; [now apply Hok|]. split; [exact Htypes|].
    intros len item Hlen Hitem. eapply Qlt_le_trans; [|apply Hle, Hlen].
    now apply Hr.
Qed.

Lemma generator_calls_message dimensions polymers msg :
  snd (generator_calls dimensions polymers) = Some msg ->
  In msg [MissingBondLen; MissingType; MissingCount; MissingBond;
          CustomBondArity; UnexpectedBond].
Proof.
  induction polymers as [|poly rest IH]; [discriminate|].
  cbn [generator_calls].
  destruct (polymer_generator dimensions poly) as [m|c] eqn:Hp;
    [|cbn [snd]; exact IH].
  cbn [snd]. intros [= <-]. revert Hp. unfold polymer_generator.
  destruct (poly_bond_len poly) as [len|]; [|intros [= <-]; cbn [In]; tauto].
  destruct (poly_type poly) as [types|]; [|intros [= <-]; cbn [In]; tauto].
  destruct (poly_count poly) as [count|]; [|intros [= <-]; cbn [In]; tauto].
  destruct (poly_bond poly) as [[|bonds|]|];
    try (intros [= <-]; cbn [In]; tauto); try discriminate.
  destruct (forallb bond_tuple_ok bonds); [discriminate|].
  intros [= <-]; cbn [In]; tauto.
Qed.

Lemma generation_generate dimensions polymers separation :
  In generate (fst (generation dimensions polymers separation)) ->
  snd (generation dimensions polymers separation) = None.
Proof.
  unfold generation. cbv zeta.
  assert (~ In generate (fst (generator_calls dimensions polymers))) as Hg.
  { induction polymers as [|poly rest IH]; [intros []|].
    cbn [generator_calls].
    destruct (polymer_generator dimensions poly) as [m|c] eqn:Hp; [intros []|].
    apply polymer_generator_call in Hp as (? & ? & ? & ? & ? & ? & ->).
    cbn [fst In]. intros [H|H]; [discriminate | now apply IH]. }
  assert (forall m, ~ In generate (fst (radius_calls m separation))) as Hr.
  { intros m. induction separation as [|item rest IH]; [intros []|].
    cbn [radius_calls]. destruct (Qle_bool m (2 * snd item)); cbn [fst In].
    - intros [H|[H|[]]]; discriminate.
    - intros [H|H]; [discriminate | now apply IH]. }
  destruct (snd (generator_calls dimensions polymers)).
  { cbn [fst]. rewrite in_app_iff. cbn [In]. intros [H|[H|[]]];
      [now apply Hg in H | discriminate]. }
  destruct (find _ _).
  { cbn [fst]. rewrite in_app_iff. cbn [In]. intros [H|[H|[]]];
      [now apply Hg in H | discriminate]. }
  destruct (snd (fold_left after_polymer polymers ([], None))) as [m|].
  - destruct (snd (radius_calls m separation)); [|reflexivity].
    cbn [fst]. rewrite in_app_iff. intros [H|H];
      [now apply Hg in H | now apply Hr in H].
  - destruct separation; [reflexivity|].
    cbn [fst]. rewrite in_app_iff. cbn [In]. intros [H|[H|[]]];
      [now apply Hg in H | discriminate].
Qed.

(** X23. On an uninitialized session [create_random_polymers] returns
    exactly when the polymer list and the separation dictionary are not
    empty, the box is a [boxdim], every specification has its four keys
    with a bond that is ['linear'] or a list of tuples of two or three
    elements, every particle type of every polymer has a separation
    radius, and twice every separation radius is below every bond length.
    The particles are generated exactly when it returns. *)
Theorem create_random_polymers_returns_iff mc box polymers separation seed s :
  system s = None ->
  let r := create_random_polymers mc box polymers separation seed s in
  (result_of r = inr tt <->
   polymers <> [] /\ separation <> [] /\ box <> NotBoxdim /\
   forallb polymer_ok polymers = true /\
   (forall poly t, In poly polymers -> In t (types_of poly) ->
                   dict_mem String.eqb separation t = true) /\
   (forall len item, In len (bond_lens polymers) -> In item separation ->
                     (2 * snd item < len)%Q)) /\
  (In generate (calls_of r) <-> result_of r = inr tt).
Proof.
  intros Hs r. subst r. rewrite create_random_polymers_eq, Hs.
  cbv beta iota zeta.
  destruct polymers as [|p0 ps].
  { cbn [result_of calls_of fst snd]. split; split; try discriminate.
    - now intros [H _].
    - cbn [In]. intros [H|[H|[H|[]]]]; discriminate. }
  destruct separation as [|i0 sep0].
  { cbn [result_of calls_of fst snd]. split; split; try discriminate.
    - now intros (_ & H & _).
    - cbn [In]. intros [H|[H|[H|[]]]]; discriminate. }
  destruct box as [dimensions|].
  2:{ cbn [result_of calls_of fst snd]. split; split; try discriminate.
      - now intros (_ & _ & H & _).
      - cbn [In]. intros [H|[H|[H|[]]]]; discriminate. }
  pose proof (generation_returns_iff dimensions (p0 :: ps) (i0 :: sep0)) as Hiff.
  pose proof (generation_generate dimensions (p0 :: ps) (i0 :: sep0)) as Hgen.
  assert (snd (generation dimensions (p0 :: ps) (i0 :: sep0)) = None ->
          In generate (fst (generation dimensions (p0 :: ps) (i0 :: sep0))))
    as Hgen'.
  { unfold generation. cbv zeta.
    destruct (snd (generator_calls dimensions (p0 :: ps))); [discriminate|].
    destruct (find _ _); [discriminate|].
    destruct (snd (fold_left after_polymer (p0 :: ps) ([], None))) as [m|];
      [|discriminate].
    destruct (snd (radius_calls m (i0 :: sep0))); [discriminate|].
    intros _. cbn [fst]. rewrite !in_app_iff. cbn [In]. tauto. }
  set (g := generation dimensions (p0 :: ps) (i0 :: sep0)) in *.
  destruct (snd g) as [e|].
  - cbn [result_of calls_of fst snd]. split; split; try discriminate.
    + intros (_ & _ & _ & H). apply Hiff in H; discriminate.
    + cbn [In]. intros [H|[H|[H|H]]]; try discriminate.
      apply Hgen in H. discriminate.
  - rewrite core_value. unfold prepend. cbn [result_of calls_of fst snd].
    split; split; try reflexivity; intros _.
    + split; [discriminate|]. split; [discriminate|]. split; [discriminate|].
      now apply Hiff.
    + cbn [app In]. do 3 right. apply in_app_iff. left. now apply Hgen'.
Qed.

(** X24. The calls of a [create_random_polymers] that returns: the
    generator is built from the seed and the dimensions of the box, one
    polymer generator is added for each specification in order, with its
    count, bond length, types and bonds, then every separation radius is
    set in the order of the dictionary, the particles are generated and
    copied to a snapshot, and the system is built from the snapshot at
    time step 0. *)
Theorem create_random_polymers_calls mc box polymers separation seed s :
  result_of (create_random_polymers mc box polymers separation seed s)
    = inr tt ->
  exists dimensions generators,
    box = Boxdim dimensions /\
    map inr generators = map (polymer_generator dimensions) polymers /\
    calls_of (create_random_polymers mc box polymers separation seed s) =
      [print_status_line; _verify_init; RandomGenerator seed dimensions]
      ++ generators
      ++ map (fun item => setSeparationRadius (fst item) (snd item)) separation
      ++ [generate; getSnapshot]
      ++ decomposition_calls mc s
      ++ [SystemDefinition_snapshot (decomposed mc); System_ 0]
      ++ common_calls mc (decomposed mc) ++ [system_data].
Proof.
  rewrite create_random_polymers_eq. destruct (system s); [discriminate|].
  destruct polymers as [|p0 ps]; [discriminate|].
  destruct separation as [|i0 sep0]; [discriminate|].
  destruct box as [dimensions|]; [|discriminate].
  cbv zeta. unfold generation. cbv zeta.
  pose proof (generator_calls_map dimensions (p0 :: ps)) as Hmap.
  destruct (snd (generator_calls dimensions (p0 :: ps))); [discriminate|].
  destruct (find _ _); [discriminate|].
  destruct (snd (fold_left after_polymer (p0 :: ps) ([], None))) as [m|];
    [|discriminate].
  pose proof (radius_calls_map m (i0 :: sep0)) as Hr.
  destruct (snd (radius_calls m (i0 :: sep0))); [discriminate|].
  intros _. exists dimensions, (fst (generator_calls dimensions (p0 :: ps))).
  split; [reflexivity|]. split; [now apply Hmap|].
  cbn [fst snd]. rewrite core_value. unfold prepend.
  cbn [calls_of fst]. rewrite (Hr eq_refl).
  cbn [app]. rewrite <- !app_assoc. reflexivity.
Qed.

(** X25. When [create_random_polymers] reports a separation radius as too
    big, the radius is one of the dictionary, the bond length in the
    message is the smallest bond length of the polymers and is not above
    twice the radius, and the command raises. *)
Theorem separation_too_big_reports_minimum mc box polymers separation seed s
    radius m :
  In (msg_error (SeparationTooBig radius m))
     (calls_of (create_random_polymers mc box polymers separation seed s)) ->
  (exists t, In (t, radius) separation) /\
  In m (bond_lens polymers) /\
  (forall len, In len (bond_lens polymers) -> (m <= len)%Q) /\
  (m <= 2 * radius)%Q /\
  result_of (create_random_polymers mc box polymers separation seed s)
    = inl polymers_error.
Proof.
  rewrite create_random_polymers_eq. destruct (system s).
  { unfold guard_failure. cbn [calls_of fst app In].
    intros [H|[H|[H|[]]]]; discriminate. }
  destruct polymers as [|p0 ps].
  { cbn [calls_of fst In]. intros [H|[H|[H|[]]]]; discriminate. }
  destruct separation as [|i0 sep0].
  { cbn [calls_of fst In]. intros [H|[H|[H|[]]]]; discriminate. }
  destruct box as [dimensions|].
  2:{ cbn [calls_of fst In]. intros [H|[H|[H|[]]]]; discriminate. }
  cbv zeta.
  set (polymers := p0 :: ps). set (separation := i0 :: sep0).
  assert (~ In (msg_error (SeparationTooBig radius m))
            (fst (generator_calls dimensions polymers))) as Hg.
  { clearbody polymers. induction polymers as [|poly rest IH]; [intros []|].
    cbn [generator_calls].
    destruct (polymer_generator dimensions poly) as [msg|c] eqn:Hp; [intros []|].
    apply polymer_generator_call in Hp as (? & ? & ? & ? & ? & ? & ->).
    cbn [fst In]. intros [H|H]; [discriminate | now apply IH]. }
  assert (forall m0, In (msg_error (SeparationTooBig radius m))
                        (fst (radius_calls m0 separation)) ->
                     m0 = m /\ (exists t, In (t, radius) separation) /\
                     (m <= 2 * radius)%Q /\
                     snd (radius_calls m0 separation) = true) as Hr.
  { intros m0. clearbody separation.
    induction separation as [|[t r] rest IH]; [intros []|].
    cbn [radius_calls fst snd].
    destruct (Qle_bool m0 (2 * r)) eqn:Hle; cbn [fst snd In].
    - intros [H|[[= <- <-]|[]]]; [discriminate|].
      repeat split; [exists t; now left | now apply Qle_bool_iff].
    - intros [H|H]; [discriminate|].
      destruct (IH H) as (-> & (t' & Ht') & Hle' & Hs).
      repeat split; [exists t'; now right | exact Hle' | exact Hs]. }
  pose proof (after_polymers_min polymers ([], None)) as Hmin.
  assert (forall x, In x (decomposition_calls mc s
                            ++ SystemDefinition_snapshot (decomposed mc)
                            :: [] ++ System_ 0
                            :: common_calls mc (decomposed mc) ++ [system_data])
                    -> x <> msg_error (SeparationTooBig radius m)) as Hcore.
  { intros x. rewrite in_app_iff. cbn [app In]. rewrite in_app_iff. cbn [In].
    intros [H|[H|[H|[H|[H|[]]]]]]; try (subst x; discriminate).
    - apply decomposition_calls_cases in H. cbn [In] in H.
      repeat (destruct H as [<-|H]; [discriminate|]). contradiction.
    - apply common_calls_cases in H. cbn [In] in H.
      repeat (destruct H as [<-|H]; [discriminate|]). contradiction. }
  unfold generation. cbv zeta.
  pose proof (generator_calls_message dimensions polymers) as Hmsg.
  destruct (snd (generator_calls dimensions polymers)) as [msg|].
  { cbn [calls_of fst snd In]. rewrite in_app_iff. cbn [In].
    intros [H|[H|[H|[H|[H|[]]]]]]; try discriminate; [now apply Hg in H|].
    injection H as ->. specialize (Hmsg _ eq_refl). cbn [In] in Hmsg.
    repeat (destruct Hmsg as [Hmsg|Hmsg]; [discriminate|]). contradiction. }
  destruct (find _ _).
  { cbn [calls_of fst snd In]. rewrite in_app_iff. cbn [In].
    intros [H|[H|[H|[H|[H|[]]]]]]; try discriminate. now apply Hg in H. }
  destruct (snd (fold_left after_polymer polymers ([], None))) as [m0|].
  2:{ subst separation. cbn [calls_of fst snd In]. rewrite in_app_iff. cbn [In].
      intros [H|[H|[H|[H|[H|[]]]]]]; try discriminate. now apply Hg in H. }
  destruct (Hmin m0 eq_refl) as ([Hm|Hm] & _ & Hle); [discriminate|].
  destruct (snd (radius_calls m0 separation)) eqn:Hs.
  - cbn [calls_of result_of fst snd In]. rewrite in_app_iff.
    intros [H|[H|[H|[H|H]]]]; try discriminate; [now apply Hg in H|].
    destruct (Hr m0 H) as (-> & Ht & Hle' & _). repeat split; assumption.
  - rewrite core_value. unfold prepend. cbn [calls_of fst snd].
    rewrite in_app_iff. intros [H|H]; [|exfalso; now apply (Hcore _ H)].
    repeat (rewrite in_app_iff in H || rewrite In_cons_iff in H).
    destruct H as [H|[H|[H|[H|[H|[H|[H|[]]]]]]]]; try discriminate.
    + now apply Hg in H.
    + destruct (Hr m0 H) as (_ & _ & _ & H'). congruence.
Qed.

(** ** [is_initialized] *)

(** X26. [is_initialized] makes no call and changes nothing; after a
    command it answers [True] exactly when the command returned or the
    system was initialized before. *)
Theorem is_initialized_after mc c s :
  exists b,
    is_initialized (session_of (run mc c s))
      = ([], inr b, session_of (run mc c s)) /\
    (b = true <-> system s <> None \/ result_of (run mc c s) = inr tt).
Proof.
  destruct (result_cases (run mc c s)) as [[e He]|[[] Hok]].
  - destruct (run_failure mc c s e He) as (l & Hrun & _).
    rewrite He, Hrun. cbn [session_of snd]. unfold is_initialized.
    destruct s as [[ts|] sd dec].
    + exists true. split; [reflexivity|]. split; [|reflexivity].
      intros _. left. discriminate.
    + exists false. split; [reflexivity|]. split; [discriminate|].
      intros [H|H]; [now contradiction H | discriminate].
  - destruct (run_success mc c s Hok) as (a & _ & _ & Hrun).
    rewrite Hok, Hrun. cbn [session_of snd]. exists true.
    split; [reflexivity|]. split; [intros _; now right | reflexivity].
Qed.

(** ** The properties of [hoomd.init] on examples *)

Lemma initialized_session_rejected_witness :
  session_of (run (example_machine false 1) ReadSnapshot running_session)
    = running_session /\
  (exists msg,
     result_of (run (example_machine false 1) ReadSnapshot running_session)
       = inl (InitRuntimeError msg)) /\
  calls_of (run (example_machine false 1) ReadSnapshot running_session)
    = [print_status_line; _verify_init; msg_error CannotInitializeTwice].
Proof.
  exact (initialized_session_rejected (example_machine false 1) ReadSnapshot
           running_session 0 eq_refl).
Defined.

Lemma success_initializes_witness :
  system fresh_session = None /\
  system_definition
    (session_of (run (example_machine true 4)
                     (ReadXml "init.xml" (Some "restart.xml") None false)
                     fresh_session))
    = Some (decomposed (example_machine true 4)) /\
  exists sd ts,
    system (session_of (run (example_machine true 4)
                            (ReadXml "init.xml" (Some "restart.xml") None false)
                            fresh_session)) = Some ts /\
    filter is_system_call
           (calls_of (run (example_machine true 4)
                          (ReadXml "init.xml" (Some "restart.xml") None false)
                          fresh_session)) = [sd; System_ ts] /\
    is_decomposition_call sd = decomposed (example_machine true 4).
Proof.
  apply (success_initializes (example_machine true 4)
           (ReadXml "init.xml" (Some "restart.xml") None false) fresh_session).
  vm_compute. reflexivity.
Defined.

Lemma failure_leaves_session_witness :
  session_of (run (example_machine true 4)
                  (CreateEmpty 64 NotBoxdim ["A"] [] [] [] []) fresh_session)
    = fresh_session /\
  engine_free
    (calls_of (run (example_machine true 4)
                   (CreateEmpty 64 NotBoxdim ["A"] [] [] [] []) fresh_session))
    = true /\
  exists pre msg,
    calls_of (run (example_machine true 4)
                  (CreateEmpty 64 NotBoxdim ["A"] [] [] [] []) fresh_session)
    = pre ++ [msg_error msg].
Proof.
  apply (failure_leaves_session (example_machine true 4)
           (CreateEmpty 64 NotBoxdim ["A"] [] [] [] []) fresh_session
           (InitTypeError "box must be a data.boxdim object")).
  vm_compute. reflexivity.
Defined.

Lemma second_command_fails_witness :
  (exists msg,
     result_of (run (example_machine false 1) (ReadGsd "init.gsd" None 0 None)
                    (session_of (run (example_machine false 1) ReadSnapshot
                                     fresh_session)))
     = inl (InitRuntimeError msg)) /\
  session_of (run (example_machine false 1) (ReadGsd "init.gsd" None 0 None)
                  (session_of (run (example_machine false 1) ReadSnapshot
                                   fresh_session)))
  = session_of (run (example_machine false 1) ReadSnapshot fresh_session).
Proof.
  apply (second_command_fails (example_machine false 1) ReadSnapshot
           (ReadGsd "init.gsd" None 0 None) fresh_session).
  vm_compute. reflexivity.
Defined.

Lemma read_xml_restart_witness :
  let r := read_xml (example_machine false 1) "init.xml" (Some "restart.xml")
                    None false fresh_session in
  result_of r = inr tt /\
  filter is_reader_call (calls_of r) = [HOOMDInitializer "restart.xml" false] /\
  system (session_of r) = Some 5000%Z.
Proof.
  exact (read_xml_restart (example_machine false 1) "init.xml"
           (Some "restart.xml") None false fresh_session eq_refl).
Defined.

Lemma read_gsd_ignores_restart_witness :
  let r := read_gsd (example_machine false 1) "init.gsd" (Some "restart.xml")
                    7 None fresh_session in
  result_of r = inr tt /\
  filter is_reader_call (calls_of r) = [GSDReader "init.gsd" 7] /\
  system (session_of r) = Some 7%Z.
Proof.
  exact (read_gsd_ignores_restart (example_machine false 1) "init.gsd"
           (Some "restart.xml") 7 None fresh_session eq_refl).
Defined.

Lemma create_empty_type_names_witness :
  let r := create_empty (example_machine true 4) 64 (Boxdim 3) ["A"; "B"]
                        ["polymer"] [] [] [] fresh_session in
  result_of r = inr tt /\
  In (msg_warning CreateEmptyDeprecated) (calls_of r) /\
  In (SystemDefinition_N 64 2 1 0 0 0 true) (calls_of r) /\
  In (setNDimensions 3) (calls_of r) /\
  (forall data i n,
     In (setTypeName data i n) (calls_of r) <->
     nth_error match data with
               | ParticleData => ["A"; "B"]
               | BondData => ["polymer"]
               | AngleData => []
               | DihedralData => []
               | ImproperData => []
               end i = Some n) /\
  system (session_of r) = Some 0%Z.
Proof.
  exact (create_empty_type_names (example_machine true 4) 64 3 ["A"; "B"]
           ["polymer"] [] [] [] fresh_session eq_refl).
Defined.

Lemma polymer_loop_invariant_witness :
  fresh_session = fresh_session /\
  NoDup ["A"; "B"] /\
  (forall t, In t ["A"; "B"] <->
             exists poly, In poly example_polymers /\ In t (types_of poly)) /\
  (Some (1 # 1)%Q = None <-> example_polymers = []) /\
  (forall m, Some (1 # 1)%Q = Some m ->
             In m (bond_lens example_polymers) /\
             forall x, In x (bond_lens example_polymers) -> (m <= x)%Q).
Proof.
  apply (polymer_loop_invariant 3 example_polymers fresh_session
           (calls_of (ifold (polymer_step 3) example_polymers ([], None)
                            fresh_session))).
  vm_compute. reflexivity.
Defined.

Lemma create_random_polymers_returns_iff_witness :
  let r := create_random_polymers (example_machine false 1) (Boxdim 3)
             example_polymers example_separation 12 fresh_session in
  (result_of r = inr tt <->
   example_polymers <> [] /\ example_separation <> [] /\
   Boxdim 3 <> NotBoxdim /\
   forallb polymer_ok example_polymers = true /\
   (forall poly t, In poly example_polymers -> In t (types_of poly) ->
                   dict_mem String.eqb example_separation t = true) /\
   (forall len item, In len (bond_lens example_polymers) ->
                     In item example_separation ->
                     (2 * snd item < len)%Q)) /\
  (In generate (calls_of r) <-> result_of r = inr tt).
Proof.
  exact (create_random_polymers_returns_iff (example_machine false 1) (Boxdim 3)
           example_polymers example_separation 12 fresh_session eq_refl).
Defined.

Lemma create_random_polymers_calls_witness :
  exists dimensions generators,
    Boxdim 3 = Boxdim dimensions /\
    map inr generators = map (polymer_generator dimensions) example_polymers /\
    calls_of (create_random_polymers (example_machine false 1) (Boxdim 3)
                example_polymers example_separation 12 fresh_session) =
      [print_status_line; _verify_init; RandomGenerator 12 dimensions]
      ++ generators
      ++ map (fun item => setSeparationRadius (fst item) (snd item))
             example_separation
      ++ [generate; getSnapshot]
      ++ decomposition_calls (example_machine false 1) fresh_session
      ++ [SystemDefinition_snapshot (decomposed (example_machine false 1));
          System_ 0]
      ++ common_calls (example_machine false 1)
                      (decomposed (example_machine false 1))
      ++ [system_data].
Proof.
  apply (create_random_polymers_calls (example_machine false 1) (Boxdim 3)
           example_polymers example_separation 12 fresh_session).
  vm_compute. reflexivity.
Defined.

Lemma separation_too_big_reports_minimum_witness :
  (exists t, In (t, (6 # 10)%Q) [("A", (35 # 100)%Q); ("B", (6 # 10)%Q)]) /\
  In (1 # 1)%Q (bond_lens example_polymers) /\
  (forall len, In len (bond_lens example_polymers) -> (1 # 1 <= len)%Q) /\
  (1 # 1 <= 2 * (6 # 10))%Q /\
  result_of (create_random_polymers (example_machine false 1) (Boxdim 3)
               example_polymers [("A", (35 # 100)%Q); ("B", (6 # 10)%Q)] 12
               fresh_session)
    = inl polymers_error.
Proof.
  apply (separation_too_big_reports_minimum (example_machine false 1) (Boxdim 3)
           example_polymers [("A", (35 # 100)%Q); ("B", (6 # 10)%Q)] 12
           fresh_session).
  vm_compute. do 7 right. left. reflexivity.
Defined.
